(** * Realtime voice conversation controller (ui/src/app/voice/page.tsx)

    A shallow embedding of the voice page's controller, [VoicePageContent]:
    the echo classifier ([assistantEchoOverlapRatio],
    [stripAssistantEchoFromText], [isSimilarToLastResponse]), the
    transcript log ([addTranscript]), the activity monitor, the turn
    processor, the recognizer's and the player's callbacks and the
    teardown, followed by the properties the specification states about
    them (C1 to C10) and by further properties of the page, of the
    cleanup on unmount and of the transcript view.

    Conventions of the embedding.
    - The component's React state and its [useRef] cells are the fields of
      one record, [Session].  A handler is a function from the session to
      a [Run]: how it ended (returned or threw), the session it leaves, and
      the log of its steps (cells assigned, platform calls made).
    - An async function is cut at its [await]s; each segment is a handler
      of its own, as the event loop runs it ([Event], [handle]).
    - The platform calls that the page guards with [try] may throw; which
      ones do is a parameter [fails] of the handlers.
    - JavaScript strings are modelled as [string], for ASCII text
      ([Js.isAscii]): [toLowerCase] folds A-Z, the white space class is
      TAB, LF, VT, FF, CR and SPACE, and the length is the number of
      characters.  (For such text [toLowerCase] preserves the length, as
      the index arithmetic of [stripAssistantEchoFromText] presumes.)
      Beyond ASCII the model is not the JavaScript functions.
    - [Date.now()] is an argument [now : Z] (milliseconds) of each handler
      and is read once per handler.
    - The number [matchCount / inputWords.length] is the exact rational;
      the double the source computes compares with 0.35, 0.5, 0.6, 0.85
      and 0.9 the same way for every word count below 2^48.
    - Fresh things (uuids, timestamps of entries, handles of platform
      objects) are arguments supplied by the environment. *)

From Stdlib Require Import Bool Arith ZArith QArith Lia List Ascii String.
From Stdlib Require Import Sorting.Sorted.
Import ListNotations.

Set Implicit Arguments.

Close Scope Q_scope.

(* ================================================================== *)
(** * Part I. Definitions                                              *)
(* ================================================================== *)

(** ** JavaScript string primitives used by the page *)

Module Js.

Local Open Scope string_scope.

(** White space as matched by [\s] and removed by [trim] (ASCII part). *)
Definition isSpace (c : ascii) : bool :=
  let n := nat_of_ascii c in
  orb (Nat.eqb n 32) (andb (Nat.leb 9 n) (Nat.leb n 13)).

Definition lowerChar (c : ascii) : ascii :=
  let n := nat_of_ascii c in
  if andb (Nat.leb 65 n) (Nat.leb n 90) then ascii_of_nat (n + 32) else c.

(** [s.toLowerCase()], of ASCII text. *)
Fixpoint toLowerCase (s : string) : string :=
  match s with
  | EmptyString => EmptyString
  | String c s' => String (lowerChar c) (toLowerCase s')
  end.

(** [s.trimStart()] *)
Fixpoint trimStart (s : string) : string :=
  match s with
  | EmptyString => EmptyString
  | String c s' => if isSpace c then trimStart s' else s
  end.

(** [s.trimEnd()]: a character is kept when something after it is kept or
    when it is not white space. *)
Fixpoint trimEnd (s : string) : string :=
  match s with
  | EmptyString => EmptyString
  | String c s' =>
      match trimEnd s' with
      | EmptyString => if isSpace c then EmptyString else String c EmptyString
      | t => String c t
      end
  end.

(** [s.trim()] *)
Definition trim (s : string) : string := trimEnd (trimStart s).

(** Truthiness of a string: [Boolean(s)], [!s] is its negation. *)
Definition truthy (s : string) : bool :=
  match s with EmptyString => false | _ => true end.

(** [s.split(/\s+/)]: the pieces between maximal runs of white space; a
    leading or trailing run yields an empty first or last piece, and the
    empty string yields one empty piece. [cur] is the piece being read,
    [inRun] tells that the previous character was white space. *)
Fixpoint splitWsFrom (s cur : string) (inRun : bool) : list string :=
  match s with
  | EmptyString => [cur]
  | String c s' =>
      if isSpace c then
        if inRun then splitWsFrom s' cur true
        else cur :: splitWsFrom s' EmptyString true
      else splitWsFrom s' (cur ++ String c EmptyString) false
  end.

Definition splitWs (s : string) : list string := splitWsFrom s EmptyString false.

(** [s.includes(sub)] and [s.indexOf(sub)] ([None] for -1). *)
Definition indexOf (s sub : string) : option nat := String.index 0 sub s.

Definition includes (s sub : string) : bool :=
  match indexOf s sub with Some _ => true | None => false end.

(** [s.slice(0, n)] for a non-negative literal [n]. *)
Definition sliceTo (s : string) (n : nat) : string := String.substring 0 n s.

(** [s.slice(k)] for an integer [k]: a negative [k] counts from the end,
    and the start is clamped to the string. *)
Definition sliceFrom (s : string) (k : Z) : string :=
  let len := Z.of_nat (String.length s) in
  let start := if (k <? 0)%Z then Z.max (len + k) 0 else Z.min k len in
  String.substring (Z.to_nat start) (String.length s) s.

(** The loop [while (i < max && a[i] === b[i]) i++] with
    [max = Math.min(a.length, b.length)]. *)
Fixpoint commonPrefixLen (a b : string) : nat :=
  match a, b with
  | String x a', String y b' =>
      if Ascii.eqb x y then S (commonPrefixLen a' b') else 0
  | _, _ => 0
  end.

(** [new Set(ws).has(w)] and [new Set(ws).size]. *)
Definition has (ws : list string) (w : string) : bool :=
  existsb (String.eqb w) ws.

Definition setSize (ws : list string) : nat :=
  List.length (nodup string_dec ws).

(** Text of ASCII characters only.  On such text the definitions above
    are the JavaScript functions; beyond it they are not ([length] counts
    UTF-16 units, [toLowerCase] folds other letters, [\s] and [trim] match
    other spaces), and the statements about transcripts of any content
    are made for ASCII text. *)
Fixpoint isAscii (s : string) : bool :=
  match s with
  | EmptyString => true
  | String c s' => andb (Nat.ltb (nat_of_ascii c) 128) (isAscii s')
  end.

End Js.

(** ** Data model *)

Inductive Mode := PushToTalk | Continuous.
Inductive VoiceState := Idle | Listening | Thinking | Speaking.
Inductive Role := User | Assistant.

Definition Mode_eqb (a b : Mode) : bool :=
  match a, b with
  | PushToTalk, PushToTalk | Continuous, Continuous => true
  | _, _ => false
  end.

Definition VoiceState_eqb (a b : VoiceState) : bool :=
  match a, b with
  | Idle, Idle | Listening, Listening | Thinking, Thinking
  | Speaking, Speaking => true
  | _, _ => false
  end.

Definition Role_eqb (a b : Role) : bool :=
  match a, b with
  | User, User | Assistant, Assistant => true
  | _, _ => false
  end.

(** A transcript entry, [VoiceTranscript] of types/api. *)
Record VoiceTranscript := mkEntry {
  entryId : string;
  role : Role;
  text : string;
  timestamp : string;
  isFinal : bool
}.

(** ** addTranscript (page.tsx 181-200)

    The updater passed to [setTranscripts]; [uid] and [ts] stand for
    [uuidv4()] and [new Date().toISOString()]. *)
Definition updateLast (prev : list VoiceTranscript) (txt : string) (fin : bool)
  : list VoiceTranscript :=
  (* prev.map((t, i) => i === prev.length - 1 ? { ...t, text, isFinal } : t) *)
  match rev prev with
  | [] => []
  | l :: before =>
      rev before ++ [mkEntry (entryId l) (role l) txt (timestamp l) fin]
  end.

Definition addTranscript (uid ts : string) (r : Role) (txt : string)
  (fin : bool) (prev : list VoiceTranscript) : list VoiceTranscript :=
  let appended := prev ++ [mkEntry uid r txt ts fin] in
  if andb (Role_eqb r User) (negb fin) then
    match last (map Some prev) None with
    | Some lastTranscript =>
        if andb (negb (isFinal lastTranscript))
                (Role_eqb (role lastTranscript) User)
        then updateLast prev txt fin
        else appended
    | None => appended
    end
  else appended.

(** ** The component instance

    One record holds the component's React state ([mode], [isProcessing],
    [state], [transcripts]) and every [useRef] cell of [VoicePageContent]
    (page.tsx 26-72).  Platform objects (recognizer, audio element,
    controllers, streams, timers, object URLs) are referred to by handles
    ([nat]); a [null] cell is [None]. *)
Record Session := mkSession {
  mode : Mode;
  isProcessing : bool;
  state : VoiceState;
  transcripts : list VoiceTranscript;
  chatSessionIdRef : string;
  recognitionRef : option nat;
  lastTranscriptRef : string;
  processingRef : bool;
  isSpeakingRef : bool;
  audioRef : option nat;
  audioUrlRef : option nat;
  audioCancelledRef : bool;
  suspendRecognitionRef : bool;
  ignoreRecognitionUntilRef : Z;
  micStreamRef : option nat;
  audioContextRef : option nat;
  analyserRef : option nat;
  vadIntervalRef : option nat;
  vadConsecutiveRef : nat;
  ttsAbortRef : option nat;
  queryAbortRef : option nat;
  lastAssistantTextRef : string;
  assistantUtterancesRef : list string;
  ttsStartTimeRef : Z;
  ttsEndTimeRef : Z;
  stateRef : VoiceState;
  modeRef : Mode;
  stoppedRef : bool
}.

(** Assignment to one cell, the others unchanged. *)
Definition set_mode (v : Mode) (s : Session) : Session :=
  mkSession v (isProcessing s) (state s) (transcripts s) (chatSessionIdRef s)
    (recognitionRef s) (lastTranscriptRef s) (processingRef s)
    (isSpeakingRef s) (audioRef s) (audioUrlRef s) (audioCancelledRef s)
    (suspendRecognitionRef s) (ignoreRecognitionUntilRef s) (micStreamRef s)
    (audioContextRef s) (analyserRef s) (vadIntervalRef s)
    (vadConsecutiveRef s) (ttsAbortRef s) (queryAbortRef s)
    (lastAssistantTextRef s) (assistantUtterancesRef s) (ttsStartTimeRef s)
    (ttsEndTimeRef s) (stateRef s) (modeRef s) (stoppedRef s).

Definition set_isProcessing (v : bool) (s : Session) : Session :=
  mkSession (mode s) v (state s) (transcripts s) (chatSessionIdRef s)
    (recognitionRef s) (lastTranscriptRef s) (processingRef s)
    (isSpeakingRef s) (audioRef s) (audioUrlRef s) (audioCancelledRef s)
    (suspendRecognitionRef s) (ignoreRecognitionUntilRef s) (micStreamRef s)
    (audioContextRef s) (analyserRef s) (vadIntervalRef s)
    (vadConsecutiveRef s) (ttsAbortRef s) (queryAbortRef s)
    (lastAssistantTextRef s) (assistantUtterancesRef s) (ttsStartTimeRef s)
    (ttsEndTimeRef s) (stateRef s) (modeRef s) (stoppedRef s).

Definition set_state (v : VoiceState) (s : Session) : Session :=
  mkSession (mode s) (isProcessing s) v (transcripts s) (chatSessionIdRef s)
    (recognitionRef s) (lastTranscriptRef s) (processingRef s)
    (isSpeakingRef s) (audioRef s) (audioUrlRef s) (audioCancelledRef s)
    (suspendRecognitionRef s) (ignoreRecognitionUntilRef s) (micStreamRef s)
    (audioContextRef s) (analyserRef s) (vadIntervalRef s)
    (vadConsecutiveRef s) (ttsAbortRef s) (queryAbortRef s)
    (lastAssistantTextRef s) (assistantUtterancesRef s) (ttsStartTimeRef s)
    (ttsEndTimeRef s) (stateRef s) (modeRef s) (stoppedRef s).

Definition set_transcripts (v : list VoiceTranscript) (s : Session) : Session :=
  mkSession (mode s) (isProcessing s) (state s) v (chatSessionIdRef s)
    (recognitionRef s) (lastTranscriptRef s) (processingRef s)
    (isSpeakingRef s) (audioRef s) (audioUrlRef s) (audioCancelledRef s)
    (suspendRecognitionRef s) (ignoreRecognitionUntilRef s) (micStreamRef s)
    (audioContextRef s) (analyserRef s) (vadIntervalRef s)
    (vadConsecutiveRef s) (ttsAbortRef s) (queryAbortRef s)
    (lastAssistantTextRef s) (assistantUtterancesRef s) (ttsStartTimeRef s)
    (ttsEndTimeRef s) (stateRef s) (modeRef s) (stoppedRef s).

Definition set_recognitionRef (v : option nat) (s : Session) : Session :=
  mkSession (mode s) (isProcessing s) (state s) (transcripts s)
    (chatSessionIdRef s) v (lastTranscriptRef s) (processingRef s)
    (isSpeakingRef s) (audioRef s) (audioUrlRef s) (audioCancelledRef s)
    (suspendRecognitionRef s) (ignoreRecognitionUntilRef s) (micStreamRef s)
    (audioContextRef s) (analyserRef s) (vadIntervalRef s)
    (vadConsecutiveRef s) (ttsAbortRef s) (queryAbortRef s)
    (lastAssistantTextRef s) (assistantUtterancesRef s) (ttsStartTimeRef s)
    (ttsEndTimeRef s) (stateRef s) (modeRef s) (stoppedRef s).

Definition set_lastTranscriptRef (v : string) (s : Session) : Session :=
  mkSession (mode s) (isProcessing s) (state s) (transcripts s)
    (chatSessionIdRef s) (recognitionRef s) v (processingRef s)
    (isSpeakingRef s) (audioRef s) (audioUrlRef s) (audioCancelledRef s)
    (suspendRecognitionRef s) (ignoreRecognitionUntilRef s) (micStreamRef s)
    (audioContextRef s) (analyserRef s) (vadIntervalRef s)
    (vadConsecutiveRef s) (ttsAbortRef s) (queryAbortRef s)
    (lastAssistantTextRef s) (assistantUtterancesRef s) (ttsStartTimeRef s)
    (ttsEndTimeRef s) (stateRef s) (modeRef s) (stoppedRef s).

Definition set_processingRef (v : bool) (s : Session) : Session :=
  mkSession (mode s) (isProcessing s) (state s) (transcripts s)
    (chatSessionIdRef s) (recognitionRef s) (lastTranscriptRef s) v
    (isSpeakingRef s) (audioRef s) (audioUrlRef s) (audioCancelledRef s)
    (suspendRecognitionRef s) (ignoreRecognitionUntilRef s) (micStreamRef s)
    (audioContextRef s) (analyserRef s) (vadIntervalRef s)
    (vadConsecutiveRef s) (ttsAbortRef s) (queryAbortRef s)
    (lastAssistantTextRef s) (assistantUtterancesRef s) (ttsStartTimeRef s)
    (ttsEndTimeRef s) (stateRef s) (modeRef s) (stoppedRef s).

Definition set_isSpeakingRef (v : bool) (s : Session) : Session :=
  mkSession (mode s) (isProcessing s) (state s) (transcripts s)
    (chatSessionIdRef s) (recognitionRef s) (lastTranscriptRef s)
    (processingRef s) v (audioRef s) (audioUrlRef s) (audioCancelledRef s)
    (suspendRecognitionRef s) (ignoreRecognitionUntilRef s) (micStreamRef s)
    (audioContextRef s) (analyserRef s) (vadIntervalRef s)
    (vadConsecutiveRef s) (ttsAbortRef s) (queryAbortRef s)
    (lastAssistantTextRef s) (assistantUtterancesRef s) (ttsStartTimeRef s)
    (ttsEndTimeRef s) (stateRef s) (modeRef s) (stoppedRef s).

Definition set_audioRef (v : option nat) (s : Session) : Session :=
  mkSession (mode s) (isProcessing s) (state s) (transcripts s)
    (chatSessionIdRef s) (recognitionRef s) (lastTranscriptRef s)
    (processingRef s) (isSpeakingRef s) v (audioUrlRef s)
    (audioCancelledRef s) (suspendRecognitionRef s)
    (ignoreRecognitionUntilRef s) (micStreamRef s) (audioContextRef s)
    (analyserRef s) (vadIntervalRef s) (vadConsecutiveRef s) (ttsAbortRef s)
    (queryAbortRef s) (lastAssistantTextRef s) (assistantUtterancesRef s)
    (ttsStartTimeRef s) (ttsEndTimeRef s) (stateRef s) (modeRef s)
    (stoppedRef s).

Definition set_audioUrlRef (v : option nat) (s : Session) : Session :=
  mkSession (mode s) (isProcessing s) (state s) (transcripts s)
    (chatSessionIdRef s) (recognitionRef s) (lastTranscriptRef s)
    (processingRef s) (isSpeakingRef s) (audioRef s) v (audioCancelledRef s)
    (suspendRecognitionRef s) (ignoreRecognitionUntilRef s) (micStreamRef s)
    (audioContextRef s) (analyserRef s) (vadIntervalRef s)
    (vadConsecutiveRef s) (ttsAbortRef s) (queryAbortRef s)
    (lastAssistantTextRef s) (assistantUtterancesRef s) (ttsStartTimeRef s)
    (ttsEndTimeRef s) (stateRef s) (modeRef s) (stoppedRef s).

Definition set_audioCancelledRef (v : bool) (s : Session) : Session :=
  mkSession (mode s) (isProcessing s) (state s) (transcripts s)
    (chatSessionIdRef s) (recognitionRef s) (lastTranscriptRef s)
    (processingRef s) (isSpeakingRef s) (audioRef s) (audioUrlRef s) v
    (suspendRecognitionRef s) (ignoreRecognitionUntilRef s) (micStreamRef s)
    (audioContextRef s) (analyserRef s) (vadIntervalRef s)
    (vadConsecutiveRef s) (ttsAbortRef s) (queryAbortRef s)
    (lastAssistantTextRef s) (assistantUtterancesRef s) (ttsStartTimeRef s)
    (ttsEndTimeRef s) (stateRef s) (modeRef s) (stoppedRef s).

Definition set_suspendRecognitionRef (v : bool) (s : Session) : Session :=
  mkSession (mode s) (isProcessing s) (state s) (transcripts s)
    (chatSessionIdRef s) (recognitionRef s) (lastTranscriptRef s)
    (processingRef s) (isSpeakingRef s) (audioRef s) (audioUrlRef s)
    (audioCancelledRef s) v (ignoreRecognitionUntilRef s) (micStreamRef s)
    (audioContextRef s) (analyserRef s) (vadIntervalRef s)
    (vadConsecutiveRef s) (ttsAbortRef s) (queryAbortRef s)
    (lastAssistantTextRef s) (assistantUtterancesRef s) (ttsStartTimeRef s)
    (ttsEndTimeRef s) (stateRef s) (modeRef s) (stoppedRef s).

Definition set_ignoreRecognitionUntilRef (v : Z) (s : Session) : Session :=
  mkSession (mode s) (isProcessing s) (state s) (transcripts s)
    (chatSessionIdRef s) (recognitionRef s) (lastTranscriptRef s)
    (processingRef s) (isSpeakingRef s) (audioRef s) (audioUrlRef s)
    (audioCancelledRef s) (suspendRecognitionRef s) v (micStreamRef s)
    (audioContextRef s) (analyserRef s) (vadIntervalRef s)
    (vadConsecutiveRef s) (ttsAbortRef s) (queryAbortRef s)
    (lastAssistantTextRef s) (assistantUtterancesRef s) (ttsStartTimeRef s)
    (ttsEndTimeRef s) (stateRef s) (modeRef s) (stoppedRef s).

Definition set_micStreamRef (v : option nat) (s : Session) : Session :=
  mkSession (mode s) (isProcessing s) (state s) (transcripts s)
    (chatSessionIdRef s) (recognitionRef s) (lastTranscriptRef s)
    (processingRef s) (isSpeakingRef s) (audioRef s) (audioUrlRef s)
    (audioCancelledRef s) (suspendRecognitionRef s)
    (ignoreRecognitionUntilRef s) v (audioContextRef s) (analyserRef s)
    (vadIntervalRef s) (vadConsecutiveRef s) (ttsAbortRef s) (queryAbortRef s)
    (lastAssistantTextRef s) (assistantUtterancesRef s) (ttsStartTimeRef s)
    (ttsEndTimeRef s) (stateRef s) (modeRef s) (stoppedRef s).

Definition set_audioContextRef (v : option nat) (s : Session) : Session :=
  mkSession (mode s) (isProcessing s) (state s) (transcripts s)
    (chatSessionIdRef s) (recognitionRef s) (lastTranscriptRef s)
    (processingRef s) (isSpeakingRef s) (audioRef s) (audioUrlRef s)
    (audioCancelledRef s) (suspendRecognitionRef s)
    (ignoreRecognitionUntilRef s) (micStreamRef s) v (analyserRef s)
    (vadIntervalRef s) (vadConsecutiveRef s) (ttsAbortRef s) (queryAbortRef s)
    (lastAssistantTextRef s) (assistantUtterancesRef s) (ttsStartTimeRef s)
    (ttsEndTimeRef s) (stateRef s) (modeRef s) (stoppedRef s).

Definition set_analyserRef (v : option nat) (s : Session) : Session :=
  mkSession (mode s) (isProcessing s) (state s) (transcripts s)
    (chatSessionIdRef s) (recognitionRef s) (lastTranscriptRef s)
    (processingRef s) (isSpeakingRef s) (audioRef s) (audioUrlRef s)
    (audioCancelledRef s) (suspendRecognitionRef s)
    (ignoreRecognitionUntilRef s) (micStreamRef s) (audioContextRef s) v
    (vadIntervalRef s) (vadConsecutiveRef s) (ttsAbortRef s) (queryAbortRef s)
    (lastAssistantTextRef s) (assistantUtterancesRef s) (ttsStartTimeRef s)
    (ttsEndTimeRef s) (stateRef s) (modeRef s) (stoppedRef s).

Definition set_vadIntervalRef (v : option nat) (s : Session) : Session :=
  mkSession (mode s) (isProcessing s) (state s) (transcripts s)
    (chatSessionIdRef s) (recognitionRef s) (lastTranscriptRef s)
    (processingRef s) (isSpeakingRef s) (audioRef s) (audioUrlRef s)
    (audioCancelledRef s) (suspendRecognitionRef s)
    (ignoreRecognitionUntilRef s) (micStreamRef s) (audioContextRef s)
    (analyserRef s) v (vadConsecutiveRef s) (ttsAbortRef s) (queryAbortRef s)
    (lastAssistantTextRef s) (assistantUtterancesRef s) (ttsStartTimeRef s)
    (ttsEndTimeRef s) (stateRef s) (modeRef s) (stoppedRef s).

Definition set_vadConsecutiveRef (v : nat) (s : Session) : Session :=
  mkSession (mode s) (isProcessing s) (state s) (transcripts s)
    (chatSessionIdRef s) (recognitionRef s) (lastTranscriptRef s)
    (processingRef s) (isSpeakingRef s) (audioRef s) (audioUrlRef s)
    (audioCancelledRef s) (suspendRecognitionRef s)
    (ignoreRecognitionUntilRef s) (micStreamRef s) (audioContextRef s)
    (analyserRef s) (vadIntervalRef s) v (ttsAbortRef s) (queryAbortRef s)
    (lastAssistantTextRef s) (assistantUtterancesRef s) (ttsStartTimeRef s)
    (ttsEndTimeRef s) (stateRef s) (modeRef s) (stoppedRef s).

Definition set_ttsAbortRef (v : option nat) (s : Session) : Session :=
  mkSession (mode s) (isProcessing s) (state s) (transcripts s)
    (chatSessionIdRef s) (recognitionRef s) (lastTranscriptRef s)
    (processingRef s) (isSpeakingRef s) (audioRef s) (audioUrlRef s)
    (audioCancelledRef s) (suspendRecognitionRef s)
    (ignoreRecognitionUntilRef s) (micStreamRef s) (audioContextRef s)
    (analyserRef s) (vadIntervalRef s) (vadConsecutiveRef s) v
    (queryAbortRef s) (lastAssistantTextRef s) (assistantUtterancesRef s)
    (ttsStartTimeRef s) (ttsEndTimeRef s) (stateRef s) (modeRef s)
    (stoppedRef s).

Definition set_queryAbortRef (v : option nat) (s : Session) : Session :=
  mkSession (mode s) (isProcessing s) (state s) (transcripts s)
    (chatSessionIdRef s) (recognitionRef s) (lastTranscriptRef s)
    (processingRef s) (isSpeakingRef s) (audioRef s) (audioUrlRef s)
    (audioCancelledRef s) (suspendRecognitionRef s)
    (ignoreRecognitionUntilRef s) (micStreamRef s) (audioContextRef s)
    (analyserRef s) (vadIntervalRef s) (vadConsecutiveRef s) (ttsAbortRef s) v
    (lastAssistantTextRef s) (assistantUtterancesRef s) (ttsStartTimeRef s)
    (ttsEndTimeRef s) (stateRef s) (modeRef s) (stoppedRef s).

Definition set_lastAssistantTextRef (v : string) (s : Session) : Session :=
  mkSession (mode s) (isProcessing s) (state s) (transcripts s)
    (chatSessionIdRef s) (recognitionRef s) (lastTranscriptRef s)
    (processingRef s) (isSpeakingRef s) (audioRef s) (audioUrlRef s)
    (audioCancelledRef s) (suspendRecognitionRef s)
    (ignoreRecognitionUntilRef s) (micStreamRef s) (audioContextRef s)
    (analyserRef s) (vadIntervalRef s) (vadConsecutiveRef s) (ttsAbortRef s)
    (queryAbortRef s) v (assistantUtterancesRef s) (ttsStartTimeRef s)
    (ttsEndTimeRef s) (stateRef s) (modeRef s) (stoppedRef s).

Definition set_assistantUtterancesRef (v : list string) (s : Session) : Session :=
  mkSession (mode s) (isProcessing s) (state s) (transcripts s)
    (chatSessionIdRef s) (recognitionRef s) (lastTranscriptRef s)
    (processingRef s) (isSpeakingRef s) (audioRef s) (audioUrlRef s)
    (audioCancelledRef s) (suspendRecognitionRef s)
    (ignoreRecognitionUntilRef s) (micStreamRef s) (audioContextRef s)
    (analyserRef s) (vadIntervalRef s) (vadConsecutiveRef s) (ttsAbortRef s)
    (queryAbortRef s) (lastAssistantTextRef s) v (ttsStartTimeRef s)
    (ttsEndTimeRef s) (stateRef s) (modeRef s) (stoppedRef s).

Definition set_ttsStartTimeRef (v : Z) (s : Session) : Session :=
  mkSession (mode s) (isProcessing s) (state s) (transcripts s)
    (chatSessionIdRef s) (recognitionRef s) (lastTranscriptRef s)
    (processingRef s) (isSpeakingRef s) (audioRef s) (audioUrlRef s)
    (audioCancelledRef s) (suspendRecognitionRef s)
    (ignoreRecognitionUntilRef s) (micStreamRef s) (audioContextRef s)
    (analyserRef s) (vadIntervalRef s) (vadConsecutiveRef s) (ttsAbortRef s)
    (queryAbortRef s) (lastAssistantTextRef s) (assistantUtterancesRef s) v
    (ttsEndTimeRef s) (stateRef s) (modeRef s) (stoppedRef s).

Definition set_ttsEndTimeRef (v : Z) (s : Session) : Session :=
  mkSession (mode s) (isProcessing s) (state s) (transcripts s)
    (chatSessionIdRef s) (recognitionRef s) (lastTranscriptRef s)
    (processingRef s) (isSpeakingRef s) (audioRef s) (audioUrlRef s)
    (audioCancelledRef s) (suspendRecognitionRef s)
    (ignoreRecognitionUntilRef s) (micStreamRef s) (audioContextRef s)
    (analyserRef s) (vadIntervalRef s) (vadConsecutiveRef s) (ttsAbortRef s)
    (queryAbortRef s) (lastAssistantTextRef s) (assistantUtterancesRef s)
    (ttsStartTimeRef s) v (stateRef s) (modeRef s) (stoppedRef s).

Definition set_stateRef (v : VoiceState) (s : Session) : Session :=
  mkSession (mode s) (isProcessing s) (state s) (transcripts s)
    (chatSessionIdRef s) (recognitionRef s) (lastTranscriptRef s)
    (processingRef s) (isSpeakingRef s) (audioRef s) (audioUrlRef s)
    (audioCancelledRef s) (suspendRecognitionRef s)
    (ignoreRecognitionUntilRef s) (micStreamRef s) (audioContextRef s)
    (analyserRef s) (vadIntervalRef s) (vadConsecutiveRef s) (ttsAbortRef s)
    (queryAbortRef s) (lastAssistantTextRef s) (assistantUtterancesRef s)
    (ttsStartTimeRef s) (ttsEndTimeRef s) v (modeRef s) (stoppedRef s).

Definition set_modeRef (v : Mode) (s : Session) : Session :=
  mkSession (mode s) (isProcessing s) (state s) (transcripts s)
    (chatSessionIdRef s) (recognitionRef s) (lastTranscriptRef s)
    (processingRef s) (isSpeakingRef s) (audioRef s) (audioUrlRef s)
    (audioCancelledRef s) (suspendRecognitionRef s)
    (ignoreRecognitionUntilRef s) (micStreamRef s) (audioContextRef s)
    (analyserRef s) (vadIntervalRef s) (vadConsecutiveRef s) (ttsAbortRef s)
    (queryAbortRef s) (lastAssistantTextRef s) (assistantUtterancesRef s)
    (ttsStartTimeRef s) (ttsEndTimeRef s) (stateRef s) v (stoppedRef s).

Definition set_stoppedRef (v : bool) (s : Session) : Session :=
  mkSession (mode s) (isProcessing s) (state s) (transcripts s)
    (chatSessionIdRef s) (recognitionRef s) (lastTranscriptRef s)
    (processingRef s) (isSpeakingRef s) (audioRef s) (audioUrlRef s)
    (audioCancelledRef s) (suspendRecognitionRef s)
    (ignoreRecognitionUntilRef s) (micStreamRef s) (audioContextRef s)
    (analyserRef s) (vadIntervalRef s) (vadConsecutiveRef s) (ttsAbortRef s)
    (queryAbortRef s) (lastAssistantTextRef s) (assistantUtterancesRef s)
    (ttsStartTimeRef s) (ttsEndTimeRef s) (stateRef s) (modeRef s) v.

(** ** Echo classifier (page.tsx 202-319) *)

Section EchoClassifier.

Local Open Scope string_scope.

(** The rational [m / n] computed by [matchCount / inputWords.length]. *)
Definition ratioOf (m n : nat) : Q := (Z.of_nat m # Pos.of_nat n)%Q.

Definition Qltb (x y : Q) : bool := negb (Qle_bool y x).

(** [s.split(/\s+/).filter((w) => w.length > 2)], of ASCII text (the
    length of a word is the number of its characters). *)
Definition significantWords (s : string) : list string :=
  filter (fun w => Nat.ltb 2 (String.length w)) (Js.splitWs s).

(** [[lastAssistantTextRef.current, ...assistantUtterancesRef.current]
      .map((s) => s.toLowerCase().trim()).filter(Boolean)] *)
Definition echoCandidates (st : Session) : list string :=
  filter Js.truthy
    (map (fun s => Js.trim (Js.toLowerCase s))
         (lastAssistantTextRef st :: assistantUtterancesRef st)).

(** [for (const word of inputWords) if (responseWords.has(word)) matchCount++] *)
Definition matchCount (inputWords responseWords : list string) : nat :=
  List.length (filter (Js.has responseWords) inputWords).

(** The candidate loop of [assistantEchoOverlapRatio] (265-276). *)
Fixpoint overlapLoop (inputWords : list string) (candidates : list string)
  (bestRatio : Q) : Q :=
  match candidates with
  | [] => bestRatio
  | candidate :: rest =>
      let responseWords := significantWords candidate in
      if Nat.ltb (Js.setSize responseWords) 2 then
        overlapLoop inputWords rest bestRatio
      else
        let ratio :=
          ratioOf (matchCount inputWords responseWords)
                  (List.length inputWords) in
        let bestRatio' := if Qltb bestRatio ratio then ratio else bestRatio in
        if Qle_bool (9 # 10)%Q bestRatio' then bestRatio'
        else overlapLoop inputWords rest bestRatio'
  end.

(** assistantEchoOverlapRatio (250-279) *)
Definition assistantEchoOverlapRatio (st : Session) (txt : string) : Q :=
  let normalizedText := Js.trim (Js.toLowerCase txt) in
  if negb (Js.truthy normalizedText) then 0%Q
  else
    let inputWords := significantWords normalizedText in
    if Nat.ltb (List.length inputWords) 2 then 0%Q
    else overlapLoop inputWords (echoCandidates st) 0%Q.

(** What one candidate decides in the loop of [stripAssistantEchoFromText]
    (293-316): [Some r] when the loop returns [r] at this candidate. *)
Definition stripAgainst (txt lower normalized candidate : string)
  : option string :=
  if andb (Nat.ltb 10 (String.length normalized))
          (Js.includes candidate normalized)
  then Some ""
  else
    let prefixLen := Js.commonPrefixLen normalized candidate in
    if Nat.leb 18 prefixLen then
      Some (Js.trimStart
              (Js.sliceFrom txt
                 (Z.of_nat (String.length txt)
                  - (Z.of_nat (String.length lower) - Z.of_nat prefixLen))))
    else
      let key := Js.sliceTo candidate 48 in
      if Nat.leb 24 (String.length key) then
        match Js.indexOf normalized key with
        | Some idx =>
            if Nat.leb idx 5 then
              let cut := idx + String.length key in
              Some (Js.trimStart
                      (Js.sliceFrom txt
                         (Z.of_nat (String.length txt)
                          - (Z.of_nat (String.length lower) - Z.of_nat cut))))
            else None
        | None => None
        end
      else None.

Fixpoint stripLoop (txt lower normalized : string) (candidates : list string)
  : string :=
  match candidates with
  | [] => txt
  | candidate :: rest =>
      match stripAgainst txt lower normalized candidate with
      | Some r => r
      | None => stripLoop txt lower normalized rest
      end
  end.

(** stripAssistantEchoFromText (281-319) *)
Definition stripAssistantEchoFromText (st : Session) (txt : string) : string :=
  let lower := Js.toLowerCase txt in
  let normalized := Js.trim lower in
  if negb (Js.truthy normalized) then ""
  else stripLoop txt lower normalized (echoCandidates st).

(** The candidate loop of [isSimilarToLastResponse] (225-245). *)
Fixpoint similarLoop (normalizedText : string) (candidates : list string)
  : bool :=
  match candidates with
  | [] => false
  | candidate :: rest =>
      if andb (orb (Js.includes candidate normalizedText)
                   (Js.includes normalizedText (Js.sliceTo candidate 24)))
              (Nat.ltb 3 (String.length normalizedText))
      then true
      else
        let inputWords := significantWords normalizedText in
        let responseWords := significantWords candidate in
        if orb (Nat.ltb (List.length inputWords) 2)
               (Nat.ltb (Js.setSize responseWords) 2)
        then similarLoop normalizedText rest
        else if Qltb (1 # 2)%Q
                  (ratioOf (matchCount inputWords responseWords)
                           (List.length inputWords))
        then true
        else similarLoop normalizedText rest
  end.

(** isSimilarToLastResponse (203-248) *)
Definition isSimilarToLastResponse (st : Session) (now : Z) (txt : string)
  : bool :=
  let echoWindowMs := 6000%Z in
  let ttsEndedAt := ttsEndTimeRef st in
  let ttsStartedAt := ttsStartTimeRef st in
  let withinWindow :=
    orb (andb (0 <? ttsEndedAt)%Z (now - ttsEndedAt <=? echoWindowMs)%Z)
        (andb (andb (ttsEndedAt =? 0)%Z (0 <? ttsStartedAt)%Z)
              (now - ttsStartedAt <=? echoWindowMs + 2000)%Z) in
  if negb withinWindow then false
  else
    let normalizedText := Js.trim (Js.toLowerCase txt) in
    if negb (Js.truthy normalizedText) then false
    else similarLoop normalizedText (echoCandidates st).

End EchoClassifier.

(** ** Steps of the controller and the platform

    A handler's run leaves a log of [Step]s: the cells it assigns, in
    order, and the platform calls it makes. *)

Inductive Cell :=
| CIsProcessing | CState | CTranscripts | CMode
| CRecognition | CLastTranscript | CProcessing | CIsSpeaking | CAudio
| CAudioUrl | CAudioCancelled | CSuspendRecognition | CIgnoreRecognitionUntil
| CMicStream | CAudioContext | CAnalyser | CVadInterval | CVadConsecutive
| CTtsAbort | CQueryAbort | CLastAssistantText | CAssistantUtterances
| CTtsStartTime | CTtsEndTime | CStateRef | CModeRef | CStopped.

(** Event handler properties of the recognizer and of the audio element. *)
Inductive Handler := OnEnd | OnError | OnResult | OnEnded | OnPause.

(** The closures the page hands to [setTimeout] and [setInterval]. *)
Inductive Callback :=
| RestartRecognition      (* 412-420, 643-651, 829-837 *)
| ClearLastAssistantText  (* 818-820 *)
| VadTick.                (* 368-423 *)

Inductive PlatformCall :=
| Abort (controller : nat)                      (* controller.abort() *)
| RecogClearHandler (r : nat) (h : Handler)     (* recognition.onX = null *)
| RecogStop (r : nat)
| RecogStart (r : nat)
| AudioClearHandler (a : nat) (h : Handler)     (* audio.onX = null *)
| AudioSetHandler (a : nat) (h : Handler)       (* audio.onX = closure *)
| AudioPause (a : nat)
| AudioClearSrc (a : nat)                       (* audio.src = '' *)
| AudioPlay (a : nat)
| RevokeObjectURL (u : nat)
| ClearInterval (t : nat)
| SetInterval (t : nat) (ms : Z) (cb : Callback)
| SetTimeout (ms : Z) (cb : Callback)
| CloseAudioContext (c : nat)
| StopTracks (m : nat)
| GetUserMedia
| ToastError (title description : string)
| ConsoleError (label : string)
| ChatRequest (message sessionId : string) (controller : nat)
| TtsFetch (txt : string) (controller : nat).

Inductive Step :=
| Wr (c : Cell)               (* a cell was assigned *)
| Did (p : PlatformCall)      (* a platform call returned *)
| Raised (p : PlatformCall).  (* a platform call threw *)

(** A value thrown or a rejection reason: whether it is an [Error]
    instance, whether it is the [AbortError] of a cancelled fetch, and its
    message. *)
Record JsError := mkError {
  isErrorInstance : bool;
  isAbortError : bool;
  errMessage : string
}.

(** How the promise of an async function stands when a segment ends. *)
Inductive Promise := Pending | Resolved | Rejected.

(** ** The handler monad: state, log, and JavaScript exceptions *)

Inductive Outcome (A : Type) :=
| Ok (a : A)
| Thrown.

Arguments Thrown {A}.

Record Run (A : Type) := mkRun {
  out : Outcome A;
  ctl : Session;
  log : list Step
}.

Definition M (A : Type) : Type := Session -> Run A.

Definition ret {A : Type} (a : A) : M A := fun s => mkRun (Ok a) s [].

(** [after l r]: the run [r], preceded by the steps [l]. *)
Definition after {A : Type} (l : list Step) (r : Run A) : Run A :=
  match r with mkRun o s' l' => mkRun o s' (l ++ l') end.

Definition bind {A B : Type} (m : M A) (k : A -> M B) : M B :=
  fun s =>
    match m s with
    | mkRun (Ok a) s1 l1 => after l1 (k a s1)
    | mkRun Thrown s1 l1 => mkRun Thrown s1 l1
    end.

Declare Scope ctl_scope.
Delimit Scope ctl_scope with ctl.
Bind Scope ctl_scope with M.

Notation "x <- m ;; k" := (bind m (fun x => k))
  (at level 61, m at next level, right associativity) : ctl_scope.
Notation "m ;; k" := (bind m (fun _ => k))
  (at level 61, right associativity) : ctl_scope.

Local Open Scope ctl_scope.

(** Reading the cells. *)
Definition get : M Session := fun s => mkRun (Ok s) s [].

(** [cell.current = v], [setX(v)]. *)
Definition assign {V : Type} (c : Cell) (set : V -> Session -> Session) (v : V)
  : M unit :=
  fun s => mkRun (Ok tt) (set v s) [Wr c].

(** A call that the page never guards (toast, console, timer creation,
    fetch): it returns. *)
Definition emit (p : PlatformCall) : M unit := fun s => mkRun (Ok tt) s [Did p].

(** [try { body } catch { handler }] *)
Definition tryCatch {A : Type} (body handler : M A) : M A :=
  fun s =>
    match body s with
    | mkRun (Ok a) s1 l1 => mkRun (Ok a) s1 l1
    | mkRun Thrown s1 l1 => after l1 (handler s1)
    end.

(** [try { body } finally { fin }] *)
Definition tryFinally {A : Type} (body : M A) (fin : M unit) : M A :=
  fun s =>
    match body s with
    | mkRun o s1 l1 =>
        match fin s1 with
        | mkRun (Ok _) s2 l2 => mkRun o s2 (l1 ++ l2)
        | mkRun Thrown s2 l2 => mkRun Thrown s2 (l1 ++ l2)
        end
    end.

(** [catch { // Ignore }] *)
Definition ignore : M unit := ret tt.

Definition whenSome {A : Type} (o : option A) (k : A -> M unit) : M unit :=
  match o with Some a => k a | None => ret tt end.

Definition isSome {A : Type} (o : option A) : bool :=
  match o with Some _ => true | None => false end.

(** [stoppedRef.current || stateRef.current === 'idle'] *)
Definition stoppedOrIdle (s : Session) : bool :=
  orb (stoppedRef s) (VoiceState_eqb (stateRef s) Idle).

(** [ignoreRecognitionUntilRef.current && now < ignoreRecognitionUntilRef.current] *)
Definition inIgnoreWindow (s : Session) (now : Z) : bool :=
  andb (negb (ignoreRecognitionUntilRef s =? 0)%Z)
       (now <? ignoreRecognitionUntilRef s)%Z.

(** The tail-echo block of [recognition.onresult] (454-462): [None] when
    the handler returns there, otherwise the text it goes on with. *)
Definition sanitizeTailEcho (s : Session) (now : Z) (txt : string)
  : option string :=
  if inIgnoreWindow s now then
    let overlap := assistantEchoOverlapRatio s txt in
    if Qle_bool (85 # 100)%Q overlap then None
    else if Qle_bool (35 # 100)%Q overlap then
      let cleaned := stripAssistantEchoFromText s txt in
      if negb (Js.truthy cleaned) then None else Some cleaned
    else Some txt
  else Some txt.

(** The level test of the activity monitor (376-383) on the bytes of
    [getByteTimeDomainData]: [v = (data[i] - 128) / 128], the squares are
    summed, and [Math.sqrt(sumSquares / data.length) > threshold] is decided
    on the squares, both sides being non-negative.  (For the analyser's
    buffer of 1024 bytes the sum and the quotient are exact in a double,
    and no mean square lies close enough to 0.0036 for the rounding of the
    root to matter.  On an empty buffer the source's quotient is NaN and
    the test fails, as here.) *)
Definition vadThreshold : Q := (6 # 100)%Q.
Definition requiredConsecutive : nat := 3.

Definition sumSquares (data : list Z) : Q :=
  fold_left (fun acc d => let v := ((d - 128) # 128)%Q in Qred (acc + v * v))
            data 0%Q.

Definition rmsAboveThreshold (data : list Z) : bool :=
  match data with
  | [] => false
  | _ => Qltb (vadThreshold * vadThreshold)%Q
              (sumSquares data / (Z.of_nat (List.length data) # 1))%Q
  end.

(** getFriendlyError (lib/errors.ts) *)
Definition getFriendlyError (err : JsError) : string * string :=
  if isErrorInstance err then ("Request failed", errMessage err)%string
  else ("Request failed", "Something went wrong.")%string.

(** ** The handlers of the page

    [fails] tells which guarded platform calls throw.  An async function is
    cut at its [await]s: each segment is one handler, run to completion on
    the event loop. *)

Section Handlers.

Variable fails : PlatformCall -> bool.

(** A platform call that the page guards with [try]: it may throw. *)
Definition call (p : PlatformCall) : M unit :=
  fun s => if fails p then mkRun Thrown s [Raised p]
           else mkRun (Ok tt) s [Did p].

(** *** stopBargeInMonitor (321-331)

    Timer ids are positive, so a stored id is truthy. *)
Definition stopBargeInMonitor : M unit :=
  tryCatch
    (s <- get ;;
     whenSome (vadIntervalRef s) (fun t =>
       call (ClearInterval t) ;;
       assign CVadInterval set_vadIntervalRef None))
    ignore ;;
  assign CVadConsecutive set_vadConsecutiveRef 0.

(** *** The timer closures *)

(** [() => { if (!stoppedRef.current && recognitionRef.current)
             { try { recognitionRef.current.start() } catch {} } }] *)
Definition restartRecognition : M unit :=
  s <- get ;;
  if stoppedRef s then ret tt
  else whenSome (recognitionRef s) (fun r =>
         tryCatch (call (RecogStart r)) ignore).

(** [() => { lastAssistantTextRef.current = '' }] (818-820) *)
Definition clearLastAssistantText : M unit :=
  assign CLastAssistantText set_lastAssistantTextRef EmptyString.

(** *** The interval closure of startBargeInMonitor (368-423) *)

(** Lines 390-421: what the closure does once the count is reached. *)
Definition vadBargeIn (now : Z) : M unit :=
  assign CVadConsecutive set_vadConsecutiveRef 0 ;;
  s <- get ;;
  whenSome (audioRef s) (fun a =>
    assign CAudioCancelled set_audioCancelledRef true ;;
    tryCatch (call (AudioPause a) ;; call (AudioClearSrc a)) ignore) ;;
  assign CIsSpeaking set_isSpeakingRef false ;;
  assign CTtsEndTime set_ttsEndTimeRef now ;;
  stopBargeInMonitor ;;
  s1 <- get ;;
  if negb (stoppedOrIdle s1) then
    assign CSuspendRecognition set_suspendRecognitionRef false ;;
    assign CIgnoreRecognitionUntil set_ignoreRecognitionUntilRef
           (now + 900)%Z ;;
    emit (SetTimeout 150 RestartRecognition)
  else ret tt.

(** The closure; [data] is the buffer [getByteTimeDomainData] filled. *)
Definition vadTick (now : Z) (data : list Z) : M unit :=
  s <- get ;;
  if negb (isSome (analyserRef s)) then ret tt
  else if negb (isSpeakingRef s) then
    assign CVadConsecutive set_vadConsecutiveRef 0
  else
    (if rmsAboveThreshold data
     then assign CVadConsecutive set_vadConsecutiveRef
                 (vadConsecutiveRef s + 1)
     else assign CVadConsecutive set_vadConsecutiveRef 0) ;;
    s1 <- get ;;
    if Nat.leb requiredConsecutive (vadConsecutiveRef s1)
    then vadBargeIn now
    else ret tt.

(** *** startBargeInMonitor (333-428), cut at [await getUserMedia] *)

(** Up to the [await]; [true] when the request for the microphone was
    made. *)
Definition startBargeInMonitor_begin : M bool :=
  s <- get ;;
  if negb (Mode_eqb (modeRef s) Continuous) then ret false
  else stopBargeInMonitor ;; emit GetUserMedia ;; ret true.

(** The stream was granted: [stream], [audioCtx], [analyser] are the new
    objects, [timer] the id [setInterval] returns. *)
Definition startBargeInMonitor_granted (stream audioCtx analyser timer : nat)
  : M unit :=
  assign CMicStream set_micStreamRef (Some stream) ;;
  assign CAudioContext set_audioContextRef (Some audioCtx) ;;
  assign CAnalyser set_analyserRef (Some analyser) ;;
  emit (SetInterval timer 80 VadTick) ;;
  assign CVadInterval set_vadIntervalRef (Some timer).

(** The request was refused (the [catch] at 424-427). *)
Definition startBargeInMonitor_denied : M unit := stopBargeInMonitor.

(** *** processUserInput (738-865), cut at its two [await]s *)

(** [finally] (861-864) *)
Definition processUserInput_finally : M unit :=
  assign CProcessing set_processingRef false ;;
  assign CIsProcessing set_isProcessing false.

(** Lines 739-778: from the call to the chat request; [controller] is the
    new [AbortController]. *)
Definition processUserInput_begin (controller : nat) (txt : string) : M unit :=
  s <- get ;;
  if orb (processingRef s) (negb (Js.truthy (Js.trim txt))) then ret tt
  else if stoppedOrIdle s then ret tt
  else
    assign CProcessing set_processingRef true ;;
    assign CIsProcessing set_isProcessing true ;;
    let currentMode := modeRef s in
    (if Mode_eqb currentMode PushToTalk then
       whenSome (recognitionRef s) (fun r =>
         assign CSuspendRecognition set_suspendRecognitionRef true ;;
         tryCatch (call (RecogStop r)) ignore)
     else ret tt) ;;
    (if negb (Mode_eqb currentMode Continuous)
     then assign CState set_state Thinking else ret tt) ;;
    tryCatch (whenSome (queryAbortRef s) (fun q => call (Abort q))) ignore ;;
    assign CQueryAbort set_queryAbortRef (Some controller) ;;
    emit (ChatRequest txt (chatSessionIdRef s) controller).

(** Lines 780-809: the chat request was fulfilled with [answer] (the empty
    string stands for a missing answer).  [Some m] when the function goes
    on to [await playTTS(answer)], [m] being the mode read at 798; [None]
    when it finishes here. *)
Definition processUserInput_fulfilled (uid ts : string) (answer : string)
  : M (option Mode) :=
  s <- get ;;
  if stoppedOrIdle s then processUserInput_finally ;; ret None
  else if Js.truthy answer then
    assign CLastAssistantText set_lastAssistantTextRef answer ;;
    assign CAssistantUtterances set_assistantUtterancesRef
           (firstn 3 (answer :: assistantUtterancesRef s)) ;;
    assign CTranscripts set_transcripts
           (addTranscript uid ts Assistant answer true (transcripts s)) ;;
    let currentMode := modeRef s in
    (if Mode_eqb currentMode Continuous
     then assign CState set_state Listening
     else assign CState set_state Speaking) ;;
    ret (Some currentMode)
  else processUserInput_finally ;; ret None.

(** Lines 808-838: [playTTS] settled ([Rejected] is caught at 810 and
    logged); [currentMode] is the mode read at 798. *)
Definition processUserInput_afterTTS (now : Z) (currentMode : Mode)
  (settled : Promise) : M unit :=
  (match settled with
   | Rejected => emit (ConsoleError "TTS playback failed:")
   | _ => ret tt
   end) ;;
  s <- get ;;
  if stoppedOrIdle s then processUserInput_finally
  else
    emit (SetTimeout 12000 ClearLastAssistantText) ;;
    assign CState set_state Listening ;;
    (if Mode_eqb currentMode PushToTalk then
       whenSome (recognitionRef s) (fun _ =>
         assign CSuspendRecognition set_suspendRecognitionRef false ;;
         assign CIgnoreRecognitionUntil set_ignoreRecognitionUntilRef
                (now + 900)%Z ;;
         emit (SetTimeout 200 RestartRecognition))
     else ret tt) ;;
    processUserInput_finally.

(** Lines 840-864: the chat request was rejected with [err]. *)
Definition processUserInput_rejected (now : Z) (err : JsError) : M unit :=
  s <- get ;;
  if stoppedRef s then processUserInput_finally
  else
    let friendly := getFriendlyError err in
    emit (ToastError (fst friendly) (snd friendly)) ;;
    (if negb (stoppedOrIdle s) then
       assign CState set_state Listening ;;
       assign CSuspendRecognition set_suspendRecognitionRef false ;;
       if Mode_eqb (modeRef s) PushToTalk then
         whenSome (recognitionRef s) (fun r =>
           assign CIgnoreRecognitionUntil set_ignoreRecognitionUntilRef
                  (now + 900)%Z ;;
           tryCatch (call (RecogStart r)) ignore)
       else ret tt
     else ret tt) ;;
    processUserInput_finally.

(** *** The recognizer's callbacks (440-546); [r] is the recognizer the
    closures belong to *)

(** recognition.onresult, lines 464-512: what the handler does with the
    text [txt] that left the tail-echo block. *)
Definition onresult_accept (r : nat) (now : Z) (txt : string) (fin : bool)
  (uid ts : string) (controller : nat) : M unit :=
  s <- get ;;
  let currentMode := modeRef s in
  if andb (Mode_eqb currentMode PushToTalk)
          (orb (negb (VoiceState_eqb (stateRef s) Listening))
               (processingRef s))
  then ret tt
  else if isSpeakingRef s then ret tt
  else if isSimilarToLastResponse s now txt then ret tt
  else
    assign CTranscripts set_transcripts
           (addTranscript uid ts User txt fin (transcripts s)) ;;
    if andb (andb fin (negb (processingRef s))) (Js.truthy (Js.trim txt))
    then
      assign CLastTranscript set_lastTranscriptRef txt ;;
      if andb (inIgnoreWindow s now)
              (Qle_bool (6 # 10)%Q (assistantEchoOverlapRatio s txt))
      then ret tt
      else
        (if Mode_eqb currentMode PushToTalk then
           assign CSuspendRecognition set_suspendRecognitionRef true ;;
           call (RecogStop r)
         else ret tt) ;;
        processUserInput_begin controller txt
    else ret tt.

(** recognition.onresult (440-513): [transcript] and [fin] are those of
    the event's last result; [uid], [ts] and [controller] are the fresh
    values used by [addTranscript] and [processUserInput]. *)
Definition onresult (r : nat) (now : Z) (transcript : string) (fin : bool)
  (uid ts : string) (controller : nat) : M unit :=
  s <- get ;;
  if stoppedOrIdle s then ret tt
  else if suspendRecognitionRef s then ret tt
  else
    match sanitizeTailEcho s now (Js.trim transcript) with
    | None => ret tt
    | Some txt => onresult_accept r now txt fin uid ts controller
    end.

(** recognition.onerror (515-522) *)
Definition onerror (error : string) : M unit :=
  if orb (String.eqb error "no-speech") (String.eqb error "aborted")
  then ret tt
  else
    emit (ConsoleError "Speech recognition error:") ;;
    emit (ToastError "Speech recognition error" error).

(** recognition.onend (524-546) *)
Definition onend (r : nat) : M unit :=
  s <- get ;;
  let currentState := stateRef s in
  let wasStopped := stoppedRef s in
  if suspendRecognitionRef s then ret tt
  else if Mode_eqb (modeRef s) PushToTalk then ret tt
  else if andb (andb (match recognitionRef s with
                      | Some r' => Nat.eqb r' r
                      | None => false
                      end)
                     (negb wasStopped))
               (negb (VoiceState_eqb currentState Idle))
  then tryCatch (call (RecogStart r)) ignore
  else ret tt.

(** *** playTTS (552-735), cut at the fetch, at
    [await startBargeInMonitor()] and at [await audio.play()] *)

(** The [catch] of the promise executor (712-733); [aborted] tells that
    the value caught is the [AbortError] of the cancelled fetch. *)
Definition playTTS_catch (now : Z) (aborted : bool) : M Promise :=
  assign CIsSpeaking set_isSpeakingRef false ;;
  assign CTtsEndTime set_ttsEndTimeRef now ;;
  assign CIgnoreRecognitionUntil set_ignoreRecognitionUntilRef
         (now + 900)%Z ;;
  stopBargeInMonitor ;;
  assign CSuspendRecognition set_suspendRecognitionRef false ;;
  s <- get ;;
  if orb (stoppedRef s) aborted then ret Resolved
  else if audioCancelledRef s then
    assign CAudioCancelled set_audioCancelledRef false ;; ret Resolved
  else ret Rejected.

(** Lines 553-597: from the call to the fetch of the audio. *)
Definition playTTS_begin (now : Z) (controller : nat) (txt : string)
  : M Promise :=
  s <- get ;;
  if stoppedOrIdle s then ret Resolved
  else
    assign CAudioCancelled set_audioCancelledRef false ;;
    assign CTtsStartTime set_ttsStartTimeRef now ;;
    assign CTtsEndTime set_ttsEndTimeRef 0%Z ;;
    tryCatch (whenSome (ttsAbortRef s) (fun c => call (Abort c))) ignore ;;
    assign CTtsAbort set_ttsAbortRef (Some controller) ;;
    tryCatch
      (s1 <- get ;;
       if stoppedOrIdle s1 then ret Resolved
       else
         whenSome (audioRef s1) (fun a =>
           call (AudioPause a) ;; call (AudioClearSrc a)) ;;
         whenSome (audioUrlRef s1) (fun u =>
           tryCatch (call (RevokeObjectURL u)) ignore ;;
           assign CAudioUrl set_audioUrlRef None) ;;
         emit (TtsFetch txt controller) ;;
         ret Pending)
      (playTTS_catch now false).

(** Lines 603-619: the audio arrived; [url] and [audio] are the new object
    URL and audio element.  [true] when the function now awaits the
    microphone request of [startBargeInMonitor]. *)
Definition playTTS_fetched (url audio : nat) : M bool :=
  assign CAudioUrl set_audioUrlRef (Some url) ;;
  assign CAudio set_audioRef (Some audio) ;;
  s <- get ;;
  match recognitionRef s with
  | Some r =>
      if Mode_eqb (modeRef s) Continuous then
        assign CSuspendRecognition set_suspendRecognitionRef true ;;
        tryCatch (call (RecogStop r)) ignore ;;
        startBargeInMonitor_begin
      else ret false
  | None => ret false
  end.

(** Lines 622-711: the callbacks are installed and playback is asked for. *)
Definition playTTS_play (audio : nat) : M unit :=
  emit (AudioSetHandler audio OnEnded) ;;
  emit (AudioSetHandler audio OnPause) ;;
  emit (AudioSetHandler audio OnError) ;;
  assign CIsSpeaking set_isSpeakingRef true ;;
  emit (AudioPlay audio).

(** The cleanup the three audio callbacks share:
    [revokeObjectURL(audioUrl)] and
    [if (audioUrlRef.current === audioUrl) audioUrlRef.current = null]. *)
Definition releaseAudioUrl (url : nat) : M unit :=
  tryCatch (call (RevokeObjectURL url)) ignore ;;
  s <- get ;;
  match audioUrlRef s with
  | Some u => if Nat.eqb u url
              then assign CAudioUrl set_audioUrlRef None else ret tt
  | None => ret tt
  end.

(** audio.onended (622-654) *)
Definition audio_onended (now : Z) (url : nat) : M Promise :=
  releaseAudioUrl url ;;
  assign CIsSpeaking set_isSpeakingRef false ;;
  assign CTtsEndTime set_ttsEndTimeRef now ;;
  assign CIgnoreRecognitionUntil set_ignoreRecognitionUntilRef
         (now + 900)%Z ;;
  stopBargeInMonitor ;;
  assign CSuspendRecognition set_suspendRecognitionRef false ;;
  s <- get ;;
  (if andb (andb (Mode_eqb (modeRef s) Continuous) (negb (stoppedOrIdle s)))
           (isSome (recognitionRef s))
   then emit (SetTimeout 150 RestartRecognition)
   else ret tt) ;;
  ret Resolved.

(** The branch the pause and error callbacks take on a deliberate stop
    (658-673, 678-693). *)
Definition audio_cancelled (now : Z) (url : nat) : M Promise :=
  releaseAudioUrl url ;;
  assign CIsSpeaking set_isSpeakingRef false ;;
  assign CTtsEndTime set_ttsEndTimeRef now ;;
  assign CAudioCancelled set_audioCancelledRef false ;;
  assign CIgnoreRecognitionUntil set_ignoreRecognitionUntilRef
         (now + 900)%Z ;;
  stopBargeInMonitor ;;
  assign CSuspendRecognition set_suspendRecognitionRef false ;;
  ret Resolved.

(** audio.onpause (657-674) *)
Definition audio_onpause (now : Z) (url : nat) : M Promise :=
  s <- get ;;
  if audioCancelledRef s then audio_cancelled now url else ret Pending.

(** audio.onerror (676-708) *)
Definition audio_onerror (now : Z) (url : nat) : M Promise :=
  s <- get ;;
  if audioCancelledRef s then audio_cancelled now url
  else
    releaseAudioUrl url ;;
    assign CIsSpeaking set_isSpeakingRef false ;;
    assign CTtsEndTime set_ttsEndTimeRef now ;;
    assign CIgnoreRecognitionUntil set_ignoreRecognitionUntilRef
           (now + 900)%Z ;;
    stopBargeInMonitor ;;
    assign CSuspendRecognition set_suspendRecognitionRef false ;;
    ret Rejected.

(** *** start (873-894), cut at [await getUserMedia] *)

Definition start_begin : M bool :=
  s <- get ;;
  if negb (VoiceState_eqb (state s) Idle) then ret false
  else assign CStopped set_stoppedRef false ;; emit GetUserMedia ;; ret true.

(** The microphone was granted; [supported] tells whether the browser has
    a recognizer, [r] is the one [initRecognition] builds. *)
Definition start_granted (supported : bool) (r : nat) : M unit :=
  if negb supported
  then emit (ToastError "Speech recognition not supported" "")
  else
    tryCatch
      (assign CRecognition set_recognitionRef (Some r) ;;
       call (RecogStart r) ;;
       assign CState set_state Listening)
      (emit (ToastError "Microphone access denied" "")).

Definition start_denied : M unit :=
  emit (ToastError "Microphone access denied" "").

(** *** stop (897-972) *)
Definition stop : M unit :=
  assign CStopped set_stoppedRef true ;;
  assign CAudioCancelled set_audioCancelledRef true ;;
  assign CStateRef set_stateRef Idle ;;
  tryFinally
    (tryCatch (s <- get ;;
               whenSome (queryAbortRef s) (fun c => call (Abort c)))
              ignore)
    (assign CQueryAbort set_queryAbortRef None) ;;
  tryFinally
    (tryCatch (s <- get ;;
               whenSome (ttsAbortRef s) (fun c => call (Abort c)))
              ignore)
    (assign CTtsAbort set_ttsAbortRef None) ;;
  tryFinally
    (tryCatch (s <- get ;;
               whenSome (recognitionRef s) (fun r =>
                 call (RecogClearHandler r OnEnd) ;;
                 call (RecogClearHandler r OnError) ;;
                 call (RecogClearHandler r OnResult) ;;
                 call (RecogStop r)))
              ignore)
    (assign CRecognition set_recognitionRef None) ;;
  tryFinally
    (tryCatch (s <- get ;;
               whenSome (audioRef s) (fun a =>
                 call (AudioClearHandler a OnEnded) ;;
                 call (AudioClearHandler a OnError) ;;
                 call (AudioClearHandler a OnPause) ;;
                 call (AudioPause a) ;;
                 call (AudioClearSrc a)))
              ignore)
    (assign CAudio set_audioRef None) ;;
  tryCatch (s <- get ;;
            whenSome (audioUrlRef s) (fun u =>
              call (RevokeObjectURL u) ;;
              assign CAudioUrl set_audioUrlRef None))
           ignore ;;
  assign CIsSpeaking set_isSpeakingRef false ;;
  assign CSuspendRecognition set_suspendRecognitionRef false ;;
  stopBargeInMonitor ;;
  assign CProcessing set_processingRef false ;;
  assign CLastTranscript set_lastTranscriptRef EmptyString ;;
  assign CLastAssistantText set_lastAssistantTextRef EmptyString ;;
  assign CState set_state Idle ;;
  assign CIsProcessing set_isProcessing false.

(** *** The cleanup on unmount (90-172) *)
Definition unmountCleanup : M unit :=
  assign CStopped set_stoppedRef true ;;
  assign CAudioCancelled set_audioCancelledRef true ;;
  tryCatch (s <- get ;;
            whenSome (vadIntervalRef s) (fun t =>
              call (ClearInterval t) ;;
              assign CVadInterval set_vadIntervalRef None))
           ignore ;;
  tryCatch (s <- get ;;
            whenSome (audioContextRef s) (fun c =>
              call (CloseAudioContext c) ;;
              assign CAudioContext set_audioContextRef None))
           ignore ;;
  tryCatch (s <- get ;;
            whenSome (micStreamRef s) (fun m =>
              call (StopTracks m) ;;
              assign CMicStream set_micStreamRef None))
           ignore ;;
  tryFinally
    (tryCatch (s <- get ;;
               whenSome (queryAbortRef s) (fun c => call (Abort c)))
              ignore)
    (assign CQueryAbort set_queryAbortRef None) ;;
  tryFinally
    (tryCatch (s <- get ;;
               whenSome (ttsAbortRef s) (fun c => call (Abort c)))
              ignore)
    (assign CTtsAbort set_ttsAbortRef None) ;;
  tryCatch (s <- get ;;
            whenSome (recognitionRef s) (fun r =>
              call (RecogClearHandler r OnEnd) ;;
              call (RecogClearHandler r OnError) ;;
              call (RecogClearHandler r OnResult) ;;
              call (RecogStop r) ;;
              assign CRecognition set_recognitionRef None))
           ignore ;;
  tryCatch (s <- get ;;
            whenSome (audioRef s) (fun a =>
              call (AudioClearHandler a OnEnded) ;;
              call (AudioClearHandler a OnError) ;;
              call (AudioPause a) ;;
              call (AudioClearSrc a) ;;
              assign CAudio set_audioRef None))
           ignore ;;
  tryCatch (s <- get ;;
            whenSome (audioUrlRef s) (fun u =>
              call (RevokeObjectURL u) ;;
              assign CAudioUrl set_audioUrlRef None))
           ignore.

(** *** The effects that mirror state into refs (75-87), and the two
    remaining UI operations *)

Definition effect_stateRef : M unit :=
  s <- get ;; assign CStateRef set_stateRef (state s).

Definition effect_modeRef : M unit :=
  s <- get ;;
  assign CModeRef set_modeRef (mode s) ;;
  match recognitionRef s with
  | Some r => if negb (VoiceState_eqb (state s) Idle)
              then call (RecogStop r) else ret tt
  | None => ret tt
  end.

Definition setMode (m : Mode) : M unit := assign CMode set_mode m.

(** clearTranscripts (991-994) *)
Definition clearTranscripts : M unit :=
  assign CTranscripts set_transcripts [] ;;
  assign CLastAssistantText set_lastAssistantTextRef EmptyString.

End Handlers.

(** ** Runs of handlers and sample sessions *)

(** A call of [addTranscript] and a sequence of such calls. *)
Record AddCall := mkAdd {
  addUid : string;
  addTs : string;
  addRole : Role;
  addText : string;
  addFinal : bool
}.

Definition runAdds (calls : list AddCall) (prev : list VoiceTranscript)
  : list VoiceTranscript :=
  fold_left
    (fun acc c =>
       addTranscript (addUid c) (addTs c) (addRole c) (addText c) (addFinal c)
                     acc)
    calls prev.

(** No guarded platform call throws. *)
Definition noFailure : PlatformCall -> bool := fun _ => false.

(** The component as mounted: every cell at its initial value. *)
Definition initialSession (sessionId : string) : Session :=
  mkSession Continuous false Idle [] sessionId None EmptyString false false
            None None false false 0%Z None None None None 0 None None
            EmptyString [] 0%Z 0%Z Idle Continuous false.

Definition balanceUtterance : string := "Your balance is five hundred rupees".

Definition balanceAndTicket : string :=
  "Your balance is five hundred rupees and I need a ticket".

(** A continuous session 400 ms after the assistant finished saying
    [balanceUtterance] at time 1000: listening again, ignore window open
    until 1900. *)
Definition afterBalanceAnswer : Session :=
  mkSession Continuous false Listening [] "sid" (Some 1) EmptyString false
            false None None false false 1900%Z (Some 2) (Some 3) (Some 4) None
            0 (Some 5) (Some 6) balanceUtterance [balanceUtterance] 500%Z
            1000%Z Listening Continuous false.

(** The test [addTranscript] makes before it rewrites the last entry: the
    incoming result is an interim user result and the last entry is an
    interim user entry. *)
Definition updatesInPlace (r : Role) (fin : bool) (prev : list VoiceTranscript)
  : bool :=
  andb (andb (Role_eqb r User) (negb fin))
       (match last (map Some prev) None with
        | Some l => andb (negb (isFinal l)) (Role_eqb (role l) User)
        | None => false
        end).

(** What [stripAssistantEchoFromText] can return for [txt]: the text
    itself; nothing, when the text is blank or a candidate contains all of
    it; or the text without its first [k] characters and the white space
    that follows, where [k] is a prefix shared with a candidate (18
    characters or more) or the end of the candidate's first 48 characters
    (at least 24) found within the first 6 positions. *)
Definition strippedFrom (s : Session) (txt cleaned : string) : Prop :=
  let normalized := Js.trim (Js.toLowerCase txt) in
  cleaned = txt
  \/ (cleaned = EmptyString
      /\ (normalized = EmptyString
          \/ exists candidate,
              In candidate (echoCandidates s)
              /\ Js.includes candidate normalized = true
              /\ 10 < String.length normalized))
  \/ exists candidate k,
      In candidate (echoCandidates s)
      /\ cleaned = Js.trimStart (Js.sliceFrom txt (Z.of_nat k))
      /\ ((k = Js.commonPrefixLen normalized candidate /\ 18 <= k)
          \/ exists idx,
              Js.indexOf normalized (Js.sliceTo candidate 48) = Some idx
              /\ idx <= 5
              /\ 24 <= String.length (Js.sliceTo candidate 48)
              /\ k = idx + String.length (Js.sliceTo candidate 48)).

(** The rules of stripping, one by one, for the lower-cased, trimmed text
    [normalized] and one remembered utterance [candidate] (lower-cased
    and trimmed as well): the text, longer than 10 characters, is
    contained in the utterance; the two share a prefix of [k] characters,
    18 or more; the first 48 characters of the utterance, at least 24 of
    them, are found in the text at one of its first 6 positions and end
    at [k]. *)
Definition echoContained (normalized candidate : string) : Prop :=
  10 < String.length normalized /\ Js.includes candidate normalized = true.

Definition echoPrefix (normalized candidate : string) (k : nat) : Prop :=
  k = Js.commonPrefixLen normalized candidate /\ 18 <= k.

Definition echoAnchor (normalized candidate : string) (k : nat) : Prop :=
  24 <= String.length (Js.sliceTo candidate 48)
  /\ exists idx,
       Js.indexOf normalized (Js.sliceTo candidate 48) = Some idx
       /\ idx <= 5
       /\ k = idx + String.length (Js.sliceTo candidate 48).

(** No rule applies to the candidate. *)
Definition echoFree (normalized candidate : string) : Prop :=
  ~ echoContained normalized candidate
  /\ (forall k, ~ echoPrefix normalized candidate k)
  /\ (forall k, ~ echoAnchor normalized candidate k).

(** The session's remembered texts are ASCII. *)
Definition asciiMemory (s : Session) : bool :=
  forallb Js.isAscii (lastAssistantTextRef s :: assistantUtterancesRef s).

(** A user who thanks the assistant over the end of the balance answer. *)
Definition balanceAndThanks : string :=
  "Your balance is five hundred rupees okay thanks".

(** A run that ends at once: nothing assigned, nothing called. *)
Definition untouched (s : Session) : Run unit := mkRun (Ok tt) s [].

(** ** The teardown, spelled out *)

(** The log of consecutive guarded calls in one [try] block: they run
    until one throws. *)
Fixpoint attempts (fails : PlatformCall -> bool) (ps : list PlatformCall)
  : list Step :=
  match ps with
  | [] => []
  | p :: ps' => if fails p then [Raised p] else Did p :: attempts fails ps'
  end.

(** The log of a block [if (cell) { call; cell = null }] inside [try]. *)
Definition attemptThenClear (fails : PlatformCall -> bool) (p : PlatformCall)
  (c : Cell) : list Step :=
  if fails p then [Raised p] else [Did p; Wr c].

(** What a block [if (cell) { call; cell = null }] leaves in the cell. *)
Definition clearedUnless (fails : PlatformCall -> bool)
  (p : nat -> PlatformCall) (cell : option nat) : option nat :=
  match cell with
  | Some h => if fails (p h) then Some h else None
  | None => None
  end.

Definition fromCell (cell : option nat) (ps : nat -> list PlatformCall)
  : list PlatformCall :=
  match cell with Some h => ps h | None => [] end.

(** The session [stop] leaves. *)
Definition stopState (fails : PlatformCall -> bool) (s : Session) : Session :=
  mkSession (mode s) false Idle (transcripts s) (chatSessionIdRef s)
    None EmptyString false false None
    (clearedUnless fails RevokeObjectURL (audioUrlRef s))
    true false (ignoreRecognitionUntilRef s) (micStreamRef s)
    (audioContextRef s) (analyserRef s)
    (clearedUnless fails ClearInterval (vadIntervalRef s))
    0 None None EmptyString (assistantUtterancesRef s) (ttsStartTimeRef s)
    (ttsEndTimeRef s) Idle (modeRef s) true.

(** The log [stop] leaves. *)
Definition stopLog (fails : PlatformCall -> bool) (s : Session) : list Step :=
  [Wr CStopped; Wr CAudioCancelled; Wr CStateRef]
  ++ attempts fails (fromCell (queryAbortRef s) (fun c => [Abort c]))
  ++ [Wr CQueryAbort]
  ++ attempts fails (fromCell (ttsAbortRef s) (fun c => [Abort c]))
  ++ [Wr CTtsAbort]
  ++ attempts fails
       (fromCell (recognitionRef s) (fun r =>
          [RecogClearHandler r OnEnd; RecogClearHandler r OnError;
           RecogClearHandler r OnResult; RecogStop r]))
  ++ [Wr CRecognition]
  ++ attempts fails
       (fromCell (audioRef s) (fun a =>
          [AudioClearHandler a OnEnded; AudioClearHandler a OnError;
           AudioClearHandler a OnPause; AudioPause a; AudioClearSrc a]))
  ++ [Wr CAudio]
  ++ match audioUrlRef s with
     | Some u => attemptThenClear fails (RevokeObjectURL u) CAudioUrl
     | None => []
     end
  ++ [Wr CIsSpeaking; Wr CSuspendRecognition]
  ++ match vadIntervalRef s with
     | Some t => attemptThenClear fails (ClearInterval t) CVadInterval
     | None => []
     end
  ++ [Wr CVadConsecutive; Wr CProcessing; Wr CLastTranscript;
      Wr CLastAssistantText; Wr CState; Wr CIsProcessing].

(** The place of a step in the text of [stop]; a step that [stop] never
    takes has place 99.  The cancellation of the two tokens (two [abort()]
    calls, each followed by the assignment of [null]) is one place. *)
Definition callPlace (p : PlatformCall) : nat :=
  match p with
  | Abort _ => 3
  | RecogClearHandler _ OnEnd => 8
  | RecogClearHandler _ OnError => 9
  | RecogClearHandler _ OnResult => 10
  | RecogStop _ => 11
  | AudioClearHandler _ OnEnded => 13
  | AudioClearHandler _ OnError => 14
  | AudioClearHandler _ OnPause => 15
  | AudioPause _ => 16
  | AudioClearSrc _ => 17
  | RevokeObjectURL _ => 19
  | ClearInterval _ => 23
  | _ => 99
  end.

Definition cellPlace (c : Cell) : nat :=
  match c with
  | CStopped => 0
  | CAudioCancelled => 1
  | CStateRef => 2
  | CQueryAbort => 3
  | CTtsAbort => 3
  | CRecognition => 12
  | CAudio => 18
  | CAudioUrl => 20
  | CIsSpeaking => 21
  | CSuspendRecognition => 22
  | CVadInterval => 24
  | CVadConsecutive => 25
  | CProcessing => 26
  | CLastTranscript => 27
  | CLastAssistantText => 28
  | CState => 29
  | CIsProcessing => 30
  | _ => 99
  end.

(** The phases the specification lists for [stop], in its order: 1 mark
    the session non-restartable, 2 cancel the two tokens, 3 recognizer,
    4 player, 5 activity-monitor timer, 6 microphone stream, 7 flags. *)
Definition specifiedPhase (st : Step) : nat :=
  let call p :=
    match p with
    | Abort _ => 2
    | RecogClearHandler _ _ | RecogStop _ | RecogStart _ => 3
    | AudioClearHandler _ _ | AudioSetHandler _ _ | AudioPause _
    | AudioClearSrc _ | AudioPlay _ | RevokeObjectURL _ => 4
    | ClearInterval _ | SetInterval _ _ _ => 5
    | StopTracks _ | CloseAudioContext _ | GetUserMedia => 6
    | _ => 7
    end in
  match st with
  | Wr CStopped | Wr CAudioCancelled | Wr CStateRef => 1
  | Wr CQueryAbort | Wr CTtsAbort => 2
  | Wr CRecognition => 3
  | Wr CAudio | Wr CAudioUrl => 4
  | Wr CVadInterval | Wr CVadConsecutive => 5
  | Wr CMicStream | Wr CAudioContext | Wr CAnalyser => 6
  | Wr _ => 7
  | Did p => call p
  | Raised p => call p
  end.

Fixpoint nondecreasing (l : list nat) : bool :=
  match l with
  | a :: (b :: _) as rest => andb (Nat.leb a b) (nondecreasing rest)
  | _ => true
  end.

(** [stop] as the specification words it: it returns, takes its steps in
    the order of the listed phases, and releases the microphone stream. *)
Definition stopsAsSpecified (fails : PlatformCall -> bool) (s : Session)
  : Prop :=
  out (stop fails s) = Ok tt
  /\ nondecreasing (map specifiedPhase (log (stop fails s))) = true
  /\ (forall m, micStreamRef s = Some m ->
        In (Did (StopTracks m)) (log (stop fails s))
        /\ micStreamRef (ctl (stop fails s)) = None).

(** A continuous session in the middle of a playback that followed a
    second question: recognizer 1, audio element 7 playing object URL 8,
    monitor timer 9 on stream 2, a finished chat request 6 and the fetch
    5 of the audio. *)
Definition speakingSession : Session :=
  mkSession Continuous true Listening [] "sid" (Some 1) "what is my balance"
            true true (Some 7) (Some 8) false true 0%Z (Some 2) (Some 3)
            (Some 4) (Some 9) 0 (Some 5) (Some 6) balanceUtterance
            [balanceUtterance] 500%Z 0%Z Listening Continuous false.

(** [runs m s a s' l]: from [s] the handler [m] returns [a], leaves the
    session [s'] and the log [l]. *)
Definition runs {A : Type} (m : M A) (s : Session) (a : A) (s' : Session)
  (l : list Step) : Prop :=
  m s = mkRun (Ok a) s' l.

Definition stepPlace (st : Step) : nat :=
  match st with
  | Wr c => cellPlace c
  | Did p => callPlace p
  | Raised p => callPlace p
  end.

(** [ascending lo l]: [l] never decreases and starts at [lo] or above. *)
Fixpoint ascending (lo : nat) (l : list nat) : bool :=
  match l with
  | [] => true
  | a :: l' => andb (Nat.leb lo a) (ascending a l')
  end.

(** [l] never decreases and stays between [lo] and [hi]. *)
Definition inRange (lo hi : nat) (l : list nat) : Prop :=
  ascending lo l = true /\ Forall (fun n => n <= hi) l /\ lo <= hi.

(** ** The turn processor, for the statements about turns *)

Definition isChatRequest (st : Step) : bool :=
  match st with Did (ChatRequest _ _ _) => true | _ => false end.

(** The chat requests in a log. *)
Definition chatRequests (l : list Step) : list Step := filter isChatRequest l.



(** A push-to-talk session waiting for the answer to "what is my
    balance": thinking, recognition suspended, chat request 6
    outstanding. *)
Definition thinkingSession : Session :=
  mkSession PushToTalk true Thinking
            [mkEntry "u1" User "what is my balance" "t1" true]
            "sid" (Some 1) "what is my balance" true false None None false
            true 0%Z None None None None 0 None (Some 6) EmptyString []
            0%Z 0%Z Thinking PushToTalk false.


(** ** Restarts of the recognizer, for the statements about push-to-talk *)

(** A step that starts the recognizer or schedules its start. *)
Definition isRestart (st : Step) : bool :=
  match st with
  | Did (RecogStart _) | Raised (RecogStart _) => true
  | Did (SetTimeout _ RestartRecognition) => true
  | _ => false
  end.

Definition restartSteps (l : list Step) : list Step := filter isRestart l.

(** The steps of a log that come before the first one satisfying [p]. *)
Fixpoint stepsBefore (p : Step -> bool) (l : list Step) : list Step :=
  match l with
  | [] => []
  | st :: l' => if p st then [] else st :: stepsBefore p l'
  end.

(** The restart policy as the specification words it: the controller
    restarts recognition only through a timer of 150 to 200 ms. *)
Definition restartsAfterShortDelay (l : list Step) : Prop :=
  forall st, In st (restartSteps l) ->
    exists ms, st = Did (SetTimeout ms RestartRecognition)
               /\ (150 <= ms <= 200)%Z.

(** A chat request that failed on the network. *)
Definition networkError : JsError := mkError true false "Request failed: 502".

(** The rejection of a fetch cancelled through its controller. *)
Definition abortError : JsError :=
  mkError true true "The user aborted a request.".

(** [preserves P m]: the handler [m] keeps the property [P] of the
    session, however it ends. *)
Definition preserves (P : Session -> Prop) {A : Type} (m : M A) : Prop :=
  forall s, P s -> P (ctl (m s)).

(** The expiry of the history as the specification words it: when the
    12-second timer of a turn fires, the history is empty. *)
Definition historyExpires (s : Session) : Prop :=
  assistantUtterancesRef (ctl (clearLastAssistantText s)) = [].

(** ** The activity monitor, for the statements about barge-in *)







(** ** The event loop

    Everything that can run on the page: the user's actions, the
    callbacks of the platform objects, the continuations of the async
    functions and the timers, each with the values the environment
    supplies. *)
Inductive Event :=
| EStartBegin
| EStartGranted (supported : bool) (r : nat)
| EStartDenied
| EStop
| EUnmount
| ESetMode (m : Mode)
| EClearTranscripts
| ERenderState
| ERenderMode
| ERecogResult (r : nat) (now : Z) (transcript : string) (fin : bool)
               (uid ts : string) (controller : nat)
| ERecogError (error : string)
| ERecogEnd (r : nat)
| EChatFulfilled (uid ts answer : string)
| EChatRejected (now : Z) (err : JsError)
| ETtsSettled (now : Z) (currentMode : Mode) (settled : Promise)
| EPlayBegin (now : Z) (controller : nat) (txt : string)
| EPlayFetched (url audio : nat)
| EPlayFailed (now : Z) (aborted : bool)
| EPlayStart (audio : nat)
| EAudioEnded (now : Z) (url : nat)
| EAudioPause (now : Z) (url : nat)
| EAudioError (now : Z) (url : nat)
| EMonitorGranted (stream audioCtx analyser timer : nat)
| EMonitorDenied
| ETick (now : Z) (data : list Z)
| ETimerRestart
| ETimerClearText.

(** A handler run for its effect. *)
Definition forget {A : Type} (m : M A) : M unit := (m ;; ret tt)%ctl.

Definition handle (fails : PlatformCall -> bool) (e : Event) : M unit :=
  match e with
  | EStartBegin => forget start_begin
  | EStartGranted supported r => start_granted fails supported r
  | EStartDenied => start_denied
  | EStop => stop fails
  | EUnmount => unmountCleanup fails
  | ESetMode m => setMode m
  | EClearTranscripts => clearTranscripts
  | ERenderState => effect_stateRef
  | ERenderMode => effect_modeRef fails
  | ERecogResult r now transcript fin uid ts controller =>
      onresult fails r now transcript fin uid ts controller
  | ERecogError error => onerror error
  | ERecogEnd r => onend fails r
  | EChatFulfilled uid ts answer =>
      forget (processUserInput_fulfilled uid ts answer)
  | EChatRejected now err => processUserInput_rejected fails now err
  | ETtsSettled now currentMode settled =>
      processUserInput_afterTTS now currentMode settled
  | EPlayBegin now controller txt => forget (playTTS_begin fails now controller txt)
  | EPlayFetched url audio => forget (playTTS_fetched fails url audio)
  | EPlayFailed now aborted => forget (playTTS_catch fails now aborted)
  | EPlayStart audio => playTTS_play audio
  | EAudioEnded now url => forget (audio_onended fails now url)
  | EAudioPause now url => forget (audio_onpause fails now url)
  | EAudioError now url => forget (audio_onerror fails now url)
  | EMonitorGranted stream audioCtx analyser timer =>
      startBargeInMonitor_granted stream audioCtx analyser timer
  | EMonitorDenied => startBargeInMonitor_denied fails
  | ETick now data => vadTick fails now data
  | ETimerRestart => restartRecognition fails
  | ETimerClearText => clearLastAssistantText
  end.

(** The session after a sequence of events; a handler that throws ends,
    and the loop goes on. *)
Definition afterEvents (fails : PlatformCall -> bool) (es : list Event)
  (s : Session) : Session :=
  fold_left (fun acc e => ctl (handle fails e acc)) es s.

(** The two cells of the echo memory agree: the last assistant text is
    empty or is the first entry of the history. *)
Definition echoMemoryCoherent (s : Session) : Prop :=
  lastAssistantTextRef s = EmptyString
  \/ hd_error (assistantUtterancesRef s) = Some (lastAssistantTextRef s).

Definition historyBounded (s : Session) : Prop :=
  List.length (assistantUtterancesRef s) <= 3.

(** [logsOnly Q m]: every step [m] logs satisfies [Q], however it ends. *)
Definition logsOnly (Q : Step -> Prop) {A : Type} (m : M A) : Prop :=
  forall s, Forall Q (log (m s)).


(** ** The overlap ratio, in words

    The fraction of the words [inputWords] found among the words (longer
    than two characters) of one candidate utterance; a candidate counts
    when it has at least two distinct such words. *)
Definition wordOverlap (inputWords : list string) (candidate : string) : Q :=
  ratioOf (matchCount inputWords (significantWords candidate))
          (List.length inputWords).

Definition eligible (candidate : string) : bool :=
  negb (Nat.ltb (Js.setSize (significantWords candidate)) 2).

(** The ratio as the specification words it: the best fraction of the
    candidate text's words of length > 2 found in an utterance's word set,
    over the utterances compared against. *)
Definition overlapAsWorded (s : Session) (txt : string) : Q :=
  let inputWords := significantWords (Js.trim (Js.toLowerCase txt)) in
  fold_right
    (fun candidate best =>
       let ratio :=
         ratioOf (matchCount inputWords
                    (filter (fun w => Nat.ltb 2 (String.length w))
                            (Js.splitWs candidate)))
                 (List.length inputWords) in
       if Qltb best ratio then ratio else best)
    0%Q (echoCandidates s).

(** The discard rule as the specification words it. *)
Definition discardsEchoAsWorded (s : Session) (now : Z) (txt : string) : Prop :=
  (85 # 100 <= overlapAsWorded s txt)%Q -> sanitizeTailEcho s now txt = None.

(** A continuous session 400 ms after the assistant finished saying "You
    can pay the bill now" at time 1000: listening again, ignore window
    open until 1900. *)
Definition afterBillAnswer : Session :=
  mkSession Continuous false Listening [] "sid" (Some 1) EmptyString false
            false None None false false 1900%Z (Some 2) (Some 3) (Some 4) None
            0 (Some 5) (Some 6) "You can pay the bill now"
            ["You can pay the bill now"%string] 500%Z 1000%Z Listening
            Continuous
            false.

(** A call of [abort()], returning or throwing. *)
Definition isAbort (st : Step) : bool :=
  match st with
  | Did (Abort _) | Raised (Abort _) => true
  | _ => false
  end.

Definition aborts (l : list Step) : list Step := filter isAbort l.

(** The events whose handlers call [abort()]: [stop], the unmount
    cleanup, the admission of a turn and the start of a synthesis. *)
Definition abortingEvent (e : Event) : bool :=
  match e with
  | EStop | EUnmount | ERecogResult _ _ _ _ _ _ _ | EPlayBegin _ _ _ => true
  | _ => false
  end.

(** ** Sequences of events, for the statements about traces *)

(** The steps a sequence of events logs, in order. *)
Fixpoint logOfEvents (fails : PlatformCall -> bool) (es : list Event)
  (s : Session) : list Step :=
  match es with
  | [] => []
  | e :: rest =>
      log (handle fails e s) ++ logOfEvents fails rest (ctl (handle fails e s))
  end.

(** The calls of [start()] and [stop()] on the recognizer. *)
Definition isRecognizerCall (st : Step) : bool :=
  match st with
  | Did (RecogStart _) | Did (RecogStop _) => true
  | _ => false
  end.

Definition recognizerCalls (l : list Step) : list Step :=
  filter isRecognizerCall l.

(** The push-to-talk turn of [thinkingSession] once its answer has
    arrived: speaking, recognition still suspended. *)
Definition answeredSession : Session :=
  ctl (processUserInput_fulfilled "u2" "t2" balanceUtterance thinkingSession).

(** The chat requests, the cancellations and the errors shown. *)
Definition isRequestStep (st : Step) : bool :=
  match st with
  | Did (ChatRequest _ _ _) | Did (Abort _) | Did (ToastError _ _) => true
  | _ => false
  end.

Definition requestSteps (l : list Step) : list Step := filter isRequestStep l.

(** A cancellation as the specification words it: the rejection of a
    cancelled request is absorbed, nothing is shown. *)
Definition absorbsCancellation (fails : PlatformCall -> bool) (now : Z)
  (s : Session) : Prop :=
  forall title description,
    ~ In (Did (ToastError title description))
         (log (processUserInput_rejected fails now abortError s)).

(** A continuous session from the mount on.  The first question (request
    10) is answered, and while its playback waits for the microphone of
    the activity monitor the user stops the session and starts it again.
    The second question (request 11) is sent.  Then the microphone is
    granted to the first turn: its playback fails on the emptied audio
    element, the turn completes and clears the processing flag.  The
    third question is therefore admitted: it cancels request 11 and sends
    request 12.  Last, the rejection of the cancelled request 11
    arrives. *)
Definition staleTurnTrace : list Event :=
  [EStartBegin; EStartGranted true 1; ERenderState; ERenderMode;
   ERecogResult 1 1000 "what is my balance" true "u1" "t1" 10;
   EChatFulfilled "u2" "t2" balanceUtterance;
   EPlayBegin 2000 20 balanceUtterance;
   EPlayFetched 30 40;
   EStop; ERenderState;
   EStartBegin; EStartGranted true 2; ERenderState; ERenderMode;
   ERecogResult 2 20000 "and what about my bill" true "u3" "t3" 11;
   EMonitorGranted 50 51 52 53;
   EPlayStart 40;
   EPlayFailed 21000 false;
   ETtsSettled 21000 Continuous Resolved;
   ERecogResult 2 40000 "please open a ticket" true "u4" "t4" 12;
   EChatRejected 40100 abortError].

(** ** Further notions for the statements about the echo filter and the
    transcript *)

(** [isSuffix t s]: [t] is what is left of [s] once a leading part is
    dropped. *)
Definition isSuffix (t s : string) : Prop :=
  exists dropped, s = (dropped ++ t)%string.

(** The window of [isSimilarToLastResponse]: up to 6000 ms after the end
    of a playback, or up to 8000 ms after its start while it has not
    ended. *)
Definition inEchoWindow (s : Session) (now : Z) : Prop :=
  (0 < ttsEndTimeRef s /\ now - ttsEndTimeRef s <= 6000)%Z
  \/ (ttsEndTimeRef s = 0 /\ 0 < ttsStartTimeRef s
      /\ now - ttsStartTimeRef s <= 8000)%Z.

(** A continuous session 400 ms after the assistant finished saying
    "Yes" at time 1000. *)
Definition afterYesAnswer : Session :=
  mkSession Continuous false Listening [] "sid" (Some 1) EmptyString false
            false None None false false 1900%Z (Some 2) (Some 3) (Some 4) None
            0 (Some 5) (Some 6) "Yes" ["Yes"%string] 500%Z 1000%Z Listening
            Continuous false.

(** ** VoiceTranscript: the entries it shows

    The component is kept in components/voice/VoiceErrorBoundary.tsx
    (164-344).  The loop of its [useMemo] (193-205) walks the entries from the
    last to the first, keeps the first assistant entry and the first user
    entry it meets, and leaves once it has both.  [fromLast] is the part
    of the list still to visit, last entry first; an entry, being an
    object, is truthy. *)
Fixpoint latestLoop (fromLast : list VoiceTranscript)
  (latestUser latestAssistant : option VoiceTranscript)
  : option VoiceTranscript * option VoiceTranscript :=
  match fromLast with
  | [] => (latestUser, latestAssistant)
  | t :: rest =>
      let latestAssistant' :=
        if andb (negb (isSome latestAssistant)) (Role_eqb (role t) Assistant)
        then Some t else latestAssistant in
      let latestUser' :=
        if andb (negb (isSome latestUser)) (Role_eqb (role t) User)
        then Some t else latestUser in
      if andb (isSome latestAssistant') (isSome latestUser')
      then (latestUser', latestAssistant')
      else latestLoop rest latestUser' latestAssistant'
  end.

(** [{ latestUser, latestAssistant }] for the [transcripts] prop. *)
Definition latestEntries (transcripts : list VoiceTranscript)
  : option VoiceTranscript * option VoiceTranscript :=
  latestLoop (rev transcripts) None None.

(** [latestUser] or [latestAssistant], by role. *)
Definition latestOf (r : Role) (transcripts : list VoiceTranscript)
  : option VoiceTranscript :=
  match r with
  | User => fst (latestEntries transcripts)
  | Assistant => snd (latestEntries transcripts)
  end.

(** What identifies an entry: its id, role and timestamp. *)
Definition entryKey (e : VoiceTranscript) : string * Role * string :=
  (entryId e, role e, timestamp e).

(** An entry that no call of [addTranscript] can rewrite: it is final, or
    the assistant's, or not the last of the list. *)
Definition settledEntry (prev : list VoiceTranscript) (i : nat) (e : VoiceTranscript)
  : Prop :=
  isFinal e = true \/ role e = Assistant \/ S i < List.length prev.


(** ** The cleanup on unmount, spelled out *)

(** The log of a block [if (cell) { calls; cell = null }] inside [try]:
    the calls run until one throws, and the cell is assigned when none
    did. *)
Definition attemptsThenClear (fails : PlatformCall -> bool)
  (ps : list PlatformCall) (c : Cell) : list Step :=
  attempts fails ps ++ (if existsb fails ps then [] else [Wr c]).

(** What such a block leaves in the cell. *)
Definition clearedUnlessAny (fails : PlatformCall -> bool)
  (ps : nat -> list PlatformCall) (cell : option nat) : option nat :=
  match cell with
  | Some h => if existsb fails (ps h) then Some h else None
  | None => None
  end.

(** The calls of the cleanup on the recognizer (141-144) and on the audio
    element (153-156). *)
Definition unmountRecognizerCalls (r : nat) : list PlatformCall :=
  [RecogClearHandler r OnEnd; RecogClearHandler r OnError;
   RecogClearHandler r OnResult; RecogStop r].

Definition unmountPlayerCalls (a : nat) : list PlatformCall :=
  [AudioClearHandler a OnEnded; AudioClearHandler a OnError;
   AudioPause a; AudioClearSrc a].

(** The log the cleanup leaves. *)
Definition unmountLog (fails : PlatformCall -> bool) (s : Session) : list Step :=
  let block cell (p : nat -> PlatformCall) c :=
    match cell with
    | Some h => attemptThenClear fails (p h) c
    | None => []
    end in
  let blockOf cell (ps : nat -> list PlatformCall) c :=
    match cell with
    | Some h => attemptsThenClear fails (ps h) c
    | None => []
    end in
  [Wr CStopped; Wr CAudioCancelled]
  ++ block (vadIntervalRef s) ClearInterval CVadInterval
  ++ block (audioContextRef s) CloseAudioContext CAudioContext
  ++ block (micStreamRef s) StopTracks CMicStream
  ++ attempts fails (fromCell (queryAbortRef s) (fun c => [Abort c]))
  ++ [Wr CQueryAbort]
  ++ attempts fails (fromCell (ttsAbortRef s) (fun c => [Abort c]))
  ++ [Wr CTtsAbort]
  ++ blockOf (recognitionRef s) unmountRecognizerCalls CRecognition
  ++ blockOf (audioRef s) unmountPlayerCalls CAudio
  ++ block (audioUrlRef s) RevokeObjectURL CAudioUrl.

(** [framed set s s']: [s'] differs from [s] at most in the cell that
    [set] assigns. *)
Definition framed {V : Type} (set : V -> Session -> Session) (s s' : Session)
  : Prop :=
  forall (A : Type) (f : Session -> A),
    (forall v y, f (set v y) = f y) -> f s' = f s.

(** ** The microphone of the activity monitor *)

(** A step that releases the microphone of the activity monitor: the
    tracks of the stream are stopped, or the audio context is closed. *)
Definition isMicRelease (st : Step) : bool :=
  match st with
  | Did (StopTracks _) | Raised (StopTracks _) => true
  | Did (CloseAudioContext _) | Raised (CloseAudioContext _) => true
  | _ => false
  end.

Definition micReleases (l : list Step) : list Step := filter isMicRelease l.

Definition isUnmount (e : Event) : bool :=
  match e with
  | EUnmount => true
  | _ => false
  end.

(** ** The end of a playback *)

(** What the end of a playback at time [now] leaves of the session [s]:
    the assistant no longer speaks, the end time is [now], recognition
    results are ignored for 900 ms and recognition is no longer
    suspended, the activity monitor's timer is cleared (unless
    [clearInterval] throws) and its count is zero; the state shown, the
    stopped flag, the transcripts, the audio element and the microphone
    of the monitor are as they were. *)
Definition playbackOver (fails : PlatformCall -> bool) (now : Z)
  (s s' : Session) : Prop :=
  isSpeakingRef s' = false
  /\ ttsEndTimeRef s' = now
  /\ ignoreRecognitionUntilRef s' = (now + 900)%Z
  /\ suspendRecognitionRef s' = false
  /\ vadIntervalRef s' = clearedUnless fails ClearInterval (vadIntervalRef s)
  /\ vadConsecutiveRef s' = 0
  /\ state s' = state s
  /\ stoppedRef s' = stoppedRef s
  /\ transcripts s' = transcripts s
  /\ audioRef s' = audioRef s
  /\ micStreamRef s' = micStreamRef s
  /\ audioContextRef s' = audioContextRef s.

(** The callbacks of an audio element forget its object URL [url], and
    only that one. *)
Definition urlReleased (url : nat) (s s' : Session) : Prop :=
  audioUrlRef s'
  = match audioUrlRef s with
    | Some u => if Nat.eqb u url then None else Some u
    | None => None
    end.

(** ** The start of a session, the mode switch and the orb *)

(** A push-to-talk session that listens, with recognizer 1 and nothing
    said yet. *)
Definition listeningPushToTalk : Session :=
  mkSession PushToTalk false Listening [] "sid" (Some 1) EmptyString false
            false None None false false 0%Z None None None None 0 None None
            EmptyString [] 0%Z 0%Z Listening PushToTalk false.

(** The events from a click on the orb of an idle page to the end of the
    render that follows: [start] up to its [await], its continuation
    with the microphone granted and the recognizer [r] built, and the two
    effects, in the order the component declares them. *)
Definition startAndRender (r : nat) : list Event :=
  [EStartBegin; EStartGranted true r; ERenderState; ERenderMode].

(** The user picks the mode [m]; the render that follows runs the effect
    on [mode, state]. *)
Definition switchMode (m : Mode) : list Event := [ESetMode m; ERenderMode].




(** ** During a playback *)

(** The events that can come while an answer is being played, short of
    what ends the playback or the turn: the start of the audio, the
    activity monitor's microphone granted or refused, its samples at or
    below the threshold, the recognizer's callbacks, the renders and the
    timers. *)
Definition duringPlayback (e : Event) : bool :=
  match e with
  | EPlayStart _ | EMonitorGranted _ _ _ _ | EMonitorDenied
  | ERecogResult _ _ _ _ _ _ _ | ERecogError _ | ERecogEnd _
  | ERenderState | ERenderMode | ETimerRestart | ETimerClearText => true
  | ETick _ data => negb (rmsAboveThreshold data)
  | _ => false
  end.

(* ================================================================== *)
(** * Part II. Properties                                              *)
(* ================================================================== *)

Open Scope string_scope.
Open Scope list_scope.

(** ** The transcript log *)

Section TranscriptLog.

Lemma last_map_Some_snoc (before : list VoiceTranscript) (l : VoiceTranscript) :
  last (map Some (before ++ [l])) None = Some l.
Proof.
  rewrite map_app. simpl. apply last_last.
Qed.

Lemma updateLast_snoc before l txt fin :
  updateLast (before ++ [l]) txt fin
  = before ++ [mkEntry (entryId l) (role l) txt (timestamp l) fin].
Proof.
  unfold updateLast. rewrite rev_app_distr. simpl.
  now rewrite rev_involutive.
Qed.

(** [addTranscript] either appends one entry or rewrites the last one. *)
Lemma addTranscript_cases uid ts r txt fin prev :
  (updatesInPlace r fin prev = false
   /\ addTranscript uid ts r txt fin prev = prev ++ [mkEntry uid r txt ts fin])
  \/ (updatesInPlace r fin prev = true
      /\ exists before l,
          prev = before ++ [l]
          /\ addTranscript uid ts r txt fin prev
             = before ++ [mkEntry (entryId l) (role l) txt (timestamp l) fin]).
Proof.
  unfold updatesInPlace, addTranscript.
  destruct (andb (Role_eqb r User) (negb fin)) eqn:Hq; simpl; auto.
  destruct prev as [|e prev'] using rev_ind; simpl; auto.
  rewrite last_map_Some_snoc.
  destruct (andb (negb (isFinal e)) (Role_eqb (role e) User)); auto.
  right. split; trivial. exists prev', e. split; trivial.
  apply updateLast_snoc.
Qed.

(** Whatever precedes a non-empty tail of the list is left alone. *)
Lemma addTranscript_keeps_front uid ts r txt fin front tail :
  tail <> [] ->
  exists tail',
    tail' <> []
    /\ addTranscript uid ts r txt fin (front ++ tail) = front ++ tail'.
Proof.
  intros Hne.
  destruct (addTranscript_cases uid ts r txt fin (front ++ tail))
    as [[_ ->] | [_ (before & l & Heq & ->)]].
  - exists (tail ++ [mkEntry uid r txt ts fin]). split.
    + destruct tail; discriminate.
    + now rewrite app_assoc.
  - destruct tail as [|t tail0] using rev_ind; [congruence|].
    rewrite app_assoc in Heq. apply app_inj_tail in Heq as [<- <-].
    exists (tail0 ++ [mkEntry (entryId t) (role t) txt (timestamp t) fin]).
    split.
    + destruct tail0; discriminate.
    + now rewrite app_assoc.
Qed.

Lemma runAdds_keeps_front calls : forall front tail,
  tail <> [] ->
  exists tail', tail' <> [] /\ runAdds calls (front ++ tail) = front ++ tail'.
Proof.
  induction calls as [|c calls IH]; intros front tail Hne.
  - exists tail. now split.
  - simpl.
    destruct (addTranscript_keeps_front (addUid c) (addTs c) (addRole c)
                (addText c) (addFinal c) front Hne) as (tail1 & Hne1 & ->).
    now apply IH.
Qed.

End TranscriptLog.

(** C10. [addTranscript] rewrites an entry in place only for an interim user
    result that meets an interim user entry at the end of the list (the
    entry keeps its id and timestamp, takes the new text, stays non-final);
    in every other case, a final result included, it appends a new entry.
    So a final user result leaves a preceding interim entry where it was,
    still marked non-final, and no later call of [addTranscript] touches
    it. *)
Theorem addTranscript_interim_only
  (before : list VoiceTranscript) (l : VoiceTranscript)
  (Hinterim : isFinal l = false) (Huser : role l = User) :
  (forall uid ts txt,
      addTranscript uid ts User txt false (before ++ [l])
      = before ++ [mkEntry (entryId l) User txt (timestamp l) false])
  /\ (forall uid ts r txt fin prev,
        updatesInPlace r fin prev = false ->
        addTranscript uid ts r txt fin prev
        = prev ++ [mkEntry uid r txt ts fin])
  /\ (forall r prev, updatesInPlace r true prev = false)
  /\ (forall uid ts txt,
        addTranscript uid ts User txt true (before ++ [l])
        = before ++ [l; mkEntry uid User txt ts true])
  /\ (forall uid ts txt calls,
        exists later,
          runAdds calls (addTranscript uid ts User txt true (before ++ [l]))
          = before ++ l :: later).
Proof.
  assert (Hfinal : forall r prev, updatesInPlace r true prev = false).
  { intros r prev. unfold updatesInPlace. now rewrite andb_false_r. }
  assert (Happend : forall uid ts r txt fin prev,
             updatesInPlace r fin prev = false ->
             addTranscript uid ts r txt fin prev
             = prev ++ [mkEntry uid r txt ts fin]).
  { intros uid ts r txt fin prev H.
    destruct (addTranscript_cases uid ts r txt fin prev) as [[_ E] | [E _]];
      congruence. }
  assert (Hfin : forall uid ts txt,
             addTranscript uid ts User txt true (before ++ [l])
             = before ++ [l; mkEntry uid User txt ts true]).
  { intros. rewrite Happend by apply Hfinal. now rewrite <- app_assoc. }
  repeat split; auto.
  - intros uid ts txt.
    destruct (addTranscript_cases uid ts User txt false (before ++ [l]))
      as [[E _] | [_ (b & e & Heq & ->)]].
    + unfold updatesInPlace in E. rewrite last_map_Some_snoc in E.
      rewrite Hinterim, Huser in E. discriminate.
    + apply app_inj_tail in Heq as [<- <-]. now rewrite Huser.
  - intros uid ts txt calls. rewrite Hfin.
    destruct (@runAdds_keeps_front calls (before ++ [l])
                [mkEntry uid User txt ts true]) as (tail' & _ & E);
      [discriminate|].
    exists tail'.
    change (before ++ [l; mkEntry uid User txt ts true])
      with (before ++ [l] ++ [mkEntry uid User txt ts true]).
    rewrite app_assoc, E. now rewrite <- app_assoc.
Qed.

(** An interim "hel", then the final "hello": the interim entry stays. *)
Lemma addTranscript_interim_only_witness :
  addTranscript "u2" "t2" User "hello" true
    ([] ++ [mkEntry "u1" User "hel" "t1" false])
  = [mkEntry "u1" User "hel" "t1" false; mkEntry "u2" User "hello" "t2" true].
Proof.
  exact (proj1 (proj2 (proj2 (proj2
           (@addTranscript_interim_only [] (mkEntry "u1" User "hel" "t1" false)
              eq_refl eq_refl)))) "u2" "t2" "hello"%string).
Defined.

(** ** The echo classifier *)

Section EchoClassifierFacts.

Lemma toLowerCase_length (t : string) :
  String.length (Js.toLowerCase t) = String.length t.
Proof.
  induction t as [|c t IH]; simpl; congruence.
Qed.

Lemma inIgnoreWindow_open (s : Session) (now : Z) :
  (0 <= now)%Z -> (now < ignoreRecognitionUntilRef s)%Z ->
  inIgnoreWindow s now = true.
Proof.
  intros H0 H1. unfold inIgnoreWindow.
  apply andb_true_intro. split.
  - apply negb_true_iff, Z.eqb_neq. lia.
  - now apply Z.ltb_lt.
Qed.

Lemma Qle_bool_false (x y : Q) : (y < x)%Q -> Qle_bool x y = false.
Proof.
  intros H. destruct (Qle_bool x y) eqn:E; trivial.
  apply Qle_bool_iff in E. exfalso. exact (Qlt_not_le _ _ H E).
Qed.

(** The index the source passes to [slice] is [k] itself. *)
Lemma slice_index (t : string) (k : nat) :
  (Z.of_nat (String.length t)
   - (Z.of_nat (String.length (Js.toLowerCase t)) - Z.of_nat k))%Z
  = Z.of_nat k.
Proof.
  rewrite toLowerCase_length. lia.
Qed.

Lemma stripLoop_form (s : Session) (t : string) : forall cands,
  (forall c, In c cands -> In c (echoCandidates s)) ->
  strippedFrom s t
    (stripLoop t (Js.toLowerCase t) (Js.trim (Js.toLowerCase t)) cands).
Proof.
  induction cands as [|c cands IH]; intros Hin; simpl.
  - now left.
  - unfold stripAgainst.
    destruct (andb (Nat.ltb 10 (String.length (Js.trim (Js.toLowerCase t))))
                   (Js.includes c (Js.trim (Js.toLowerCase t)))) eqn:Hc.
    { apply andb_prop in Hc as [Hlen Hc]. apply Nat.ltb_lt in Hlen.
      right; left. split; trivial. right. exists c.
      repeat split; trivial. apply Hin. now left. }
    destruct (Nat.leb 18 (Js.commonPrefixLen (Js.trim (Js.toLowerCase t)) c))
      eqn:Hp.
    { apply Nat.leb_le in Hp. right; right.
      exists c, (Js.commonPrefixLen (Js.trim (Js.toLowerCase t)) c).
      rewrite slice_index. repeat split; auto. apply Hin. now left. }
    destruct (Nat.leb 24 (String.length (Js.sliceTo c 48))) eqn:Hk;
      [|apply IH; intros; apply Hin; now right].
    destruct (Js.indexOf (Js.trim (Js.toLowerCase t)) (Js.sliceTo c 48))
      as [idx|] eqn:Hi; [|apply IH; intros; apply Hin; now right].
    destruct (Nat.leb idx 5) eqn:H5;
      [|apply IH; intros; apply Hin; now right].
    apply Nat.leb_le in Hk, H5. right; right.
    exists c, (idx + String.length (Js.sliceTo c 48)).
    rewrite slice_index. repeat split; auto.
    + apply Hin. now left.
    + right. exists idx. repeat split; auto.
Qed.

Lemma stripAssistantEchoFromText_form (s : Session) (t : string) :
  strippedFrom s t (stripAssistantEchoFromText s t).
Proof.
  unfold stripAssistantEchoFromText.
  destruct (Js.truthy (Js.trim (Js.toLowerCase t))) eqn:E; simpl.
  - apply stripLoop_form. auto.
  - right; left. split; trivial. left.
    destruct (Js.trim (Js.toLowerCase t)); [trivial|discriminate].
Qed.

Lemma onresult_after_block fails r now transcript fin uid ts controller s :
  stoppedOrIdle s = false ->
  suspendRecognitionRef s = false ->
  onresult fails r now transcript fin uid ts controller s
  = match sanitizeTailEcho s now (Js.trim transcript) with
    | None => untouched s
    | Some t => onresult_accept fails r now t fin uid ts controller s
    end.
Proof.
  intros H1 H2. unfold onresult, bind, get. simpl. rewrite H1, H2.
  destruct (sanitizeTailEcho s now (Js.trim transcript)); [|reflexivity].
  now destruct (onresult_accept fails r now s0 fin uid ts controller s).
Qed.

Lemma onresult_discards fails r now transcript fin uid ts controller s :
  sanitizeTailEcho s now (Js.trim transcript) = None ->
  onresult fails r now transcript fin uid ts controller s = untouched s.
Proof.
  intros H. unfold onresult, bind, get. simpl.
  destruct (stoppedOrIdle s); [reflexivity|].
  destruct (suspendRecognitionRef s); [reflexivity|].
  now rewrite H.
Qed.

End EchoClassifierFacts.

(** *** The overlap ratio against the thresholds *)

Lemma Qltb_true (x y : Q) : Qltb x y = true <-> (x < y)%Q.
Proof.
  unfold Qltb. rewrite negb_true_iff. split.
  - intros H. apply Qnot_le_lt. intros Hle.
    apply Qle_bool_iff in Hle. congruence.
  - intros H. now apply Qle_bool_false.
Qed.

Lemma Qltb_false (x y : Q) : Qltb x y = false <-> (y <= x)%Q.
Proof.
  unfold Qltb. rewrite negb_false_iff. apply Qle_bool_iff.
Qed.

(** The better of two ratios is at or above a threshold when one is. *)
Lemma better_ratio_threshold (t best ratio : Q) :
  (t <= (if Qltb best ratio then ratio else best))%Q
  <-> (t <= best)%Q \/ (t <= ratio)%Q.
Proof.
  destruct (Qltb best ratio) eqn:E.
  - apply Qltb_true in E. split; [now right|].
    intros [H|H]; [|exact H].
    apply Qle_trans with best; [exact H|now apply Qlt_le_weak].
  - apply Qltb_false in E. split; [now left|].
    intros [H|H]; [exact H|]. now apply Qle_trans with ratio.
Qed.

(** Up to 0.9, the loop reaches a threshold exactly when the running best
    or some eligible candidate does. *)
Lemma overlapLoop_threshold (inputWords : list string) (t : Q) :
  (t <= 9 # 10)%Q ->
  forall candidates best,
    (t <= overlapLoop inputWords candidates best)%Q
    <-> (t <= best)%Q
        \/ exists candidate,
            In candidate candidates
            /\ eligible candidate = true
            /\ (t <= wordOverlap inputWords candidate)%Q.
Proof.
  intros Ht. induction candidates as [|c rest IH]; intros best.
  - simpl. split; [now left|]. intros [H|(c & [] & _)]. exact H.
  - simpl. unfold eligible in *.
    destruct (Nat.ltb (Js.setSize (significantWords c)) 2) eqn:Hsize.
    + rewrite IH. split.
      * intros [H|(c' & Hin & He & Hr)]; [now left|].
        right. exists c'. repeat split; trivial. now right.
      * intros [H|(c' & [<-|Hin] & He & Hr)]; [now left| |].
        -- rewrite Hsize in He. discriminate He.
        -- right. now exists c'.
    + fold (wordOverlap inputWords c).
      set (best' := if Qltb best (wordOverlap inputWords c)
                    then wordOverlap inputWords c else best).
      assert (Hbest : (t <= best')%Q
                      <-> (t <= best)%Q \/ (t <= wordOverlap inputWords c)%Q)
        by apply better_ratio_threshold.
      destruct (Qle_bool (9 # 10) best') eqn:Hstop.
      * apply Qle_bool_iff in Hstop. split.
        -- intros _.
           assert (Hb : (t <= best')%Q) by now apply Qle_trans with (9 # 10)%Q.
           apply Hbest in Hb as [Hb|Hb]; [now left|].
           right. exists c. rewrite Hsize. repeat split; trivial. now left.
        -- intros _. now apply Qle_trans with (9 # 10)%Q.
      * rewrite IH, Hbest. split.
        -- intros [[H|H]|(c' & Hin & He & Hr)]; [now left| |].
           ++ right. exists c. rewrite Hsize. repeat split; trivial. now left.
           ++ right. exists c'. repeat split; trivial. now right.
        -- intros [H|(c' & [<-|Hin] & He & Hr)].
           ++ left. now left.
           ++ left. now right.
           ++ right. now exists c'.
Qed.

(** The ratio of [assistantEchoOverlapRatio] in words: nothing for a text
    with fewer than two words longer than two characters; otherwise it
    reaches a threshold (up to 0.9) exactly when that fraction of the
    words is found in some eligible candidate. *)
Lemma assistantEchoOverlapRatio_words (s : Session) (txt : string) :
  let inputWords := significantWords (Js.trim (Js.toLowerCase txt)) in
  (List.length inputWords < 2 -> assistantEchoOverlapRatio s txt = 0%Q)
  /\ (2 <= List.length inputWords ->
      forall t, (0 < t)%Q -> (t <= 9 # 10)%Q ->
        (t <= assistantEchoOverlapRatio s txt)%Q
        <-> exists candidate,
              In candidate (echoCandidates s)
              /\ eligible candidate = true
              /\ (t <= wordOverlap inputWords candidate)%Q).
Proof.
  intros inputWords. unfold assistantEchoOverlapRatio. fold inputWords.
  split.
  - intros H. apply Nat.ltb_lt in H. rewrite H.
    now destruct (negb (Js.truthy (Js.trim (Js.toLowerCase txt)))).
  - intros H t Hpos Ht.
    destruct (Js.truthy (Js.trim (Js.toLowerCase txt))) eqn:Htruthy.
    + simpl. apply Nat.ltb_ge in H. rewrite H.
      rewrite (overlapLoop_threshold inputWords Ht). split.
      * intros [Hz|Hex]; [|exact Hex].
        exfalso. exact (Qlt_not_le _ _ Hpos Hz).
      * intros Hex. now right.
    + exfalso. subst inputWords.
      destruct (Js.trim (Js.toLowerCase txt)); [|discriminate Htruthy].
      simpl in H. lia.
Qed.

(** *** The rules of stripping *)

Section StripRules.

Variables (txt lower normalized : string).

Hypothesis Hlower : lower = Js.toLowerCase txt.

Lemma stripAgainst_contained c :
  echoContained normalized c -> stripAgainst txt lower normalized c = Some "".
Proof.
  intros [Hlen Hinc]. unfold stripAgainst.
  apply Nat.ltb_lt in Hlen. now rewrite Hlen, Hinc.
Qed.

Lemma not_contained c :
  ~ echoContained normalized c ->
  andb (Nat.ltb 10 (String.length normalized)) (Js.includes c normalized) = false.
Proof.
  intros H. destruct (andb _ _) eqn:E; [|reflexivity].
  exfalso. apply H. apply andb_prop in E as [E1 E2].
  split; [now apply Nat.ltb_lt|exact E2].
Qed.

Lemma stripAgainst_prefix c k :
  ~ echoContained normalized c -> echoPrefix normalized c k ->
  stripAgainst txt lower normalized c
  = Some (Js.trimStart (Js.sliceFrom txt (Z.of_nat k))).
Proof.
  intros Hc [-> Hk]. unfold stripAgainst. rewrite (not_contained Hc).
  apply Nat.leb_le in Hk. rewrite Hk, Hlower. now rewrite slice_index.
Qed.

Lemma not_prefix c :
  (forall k, ~ echoPrefix normalized c k) ->
  Nat.leb 18 (Js.commonPrefixLen normalized c) = false.
Proof.
  intros H. destruct (Nat.leb 18 _) eqn:E; [|reflexivity].
  exfalso. apply (H (Js.commonPrefixLen normalized c)).
  split; [reflexivity|now apply Nat.leb_le].
Qed.

Lemma stripAgainst_anchor c k :
  ~ echoContained normalized c -> (forall k', ~ echoPrefix normalized c k') ->
  echoAnchor normalized c k ->
  stripAgainst txt lower normalized c
  = Some (Js.trimStart (Js.sliceFrom txt (Z.of_nat k))).
Proof.
  intros Hc Hp (Hlen & idx & Hidx & H5 & ->). unfold stripAgainst.
  rewrite (not_contained Hc), (not_prefix Hp).
  apply Nat.leb_le in Hlen, H5. cbv zeta. rewrite Hlen, Hidx, H5, Hlower.
  now rewrite slice_index.
Qed.

Lemma stripAgainst_free c :
  echoFree normalized c -> stripAgainst txt lower normalized c = None.
Proof.
  intros (Hc & Hp & Ha). unfold stripAgainst.
  rewrite (not_contained Hc), (not_prefix Hp). cbv zeta.
  destruct (Nat.leb 24 _) eqn:Hlen; [|reflexivity].
  destruct (Js.indexOf _ _) as [idx|] eqn:Hidx; [|reflexivity].
  destruct (Nat.leb idx 5) eqn:H5; [|reflexivity].
  exfalso. apply (Ha (idx + String.length (Js.sliceTo c 48))).
  apply Nat.leb_le in Hlen, H5. split; [exact Hlen|].
  exists idx. now repeat split.
Qed.

(** Utterances to which no rule applies are passed over. *)
Lemma stripLoop_skips before : forall rest,
  Forall (echoFree normalized) before ->
  stripLoop txt lower normalized (before ++ rest)
  = stripLoop txt lower normalized rest.
Proof.
  induction before as [|c before IH]; intros rest H; [reflexivity|].
  apply Forall_cons_iff in H as [Hc Hb]. simpl.
  rewrite (stripAgainst_free Hc). now apply IH.
Qed.

End StripRules.

(** The result of the stripping, rule by rule: the first remembered
    utterance to which a rule applies decides, and the text is left as it
    is when none does. *)
Lemma strip_rules (s : Session) (txt : string) :
  let normalized := Js.trim (Js.toLowerCase txt) in
  let cleaned := stripAssistantEchoFromText s txt in
  (normalized = "" -> cleaned = "")
  /\ (normalized <> "" ->
      (Forall (echoFree normalized) (echoCandidates s) -> cleaned = txt)
      /\ forall before candidate rest,
           echoCandidates s = before ++ candidate :: rest ->
           Forall (echoFree normalized) before ->
           (echoContained normalized candidate -> cleaned = "")
           /\ (forall k,
                 ~ echoContained normalized candidate ->
                 echoPrefix normalized candidate k ->
                 cleaned = Js.trimStart (Js.sliceFrom txt (Z.of_nat k)))
           /\ (forall k,
                 ~ echoContained normalized candidate ->
                 (forall k', ~ echoPrefix normalized candidate k') ->
                 echoAnchor normalized candidate k ->
                 cleaned = Js.trimStart (Js.sliceFrom txt (Z.of_nat k)))).
Proof.
  intros normalized cleaned. subst cleaned.
  unfold stripAssistantEchoFromText. fold normalized. split.
  - intros ->. reflexivity.
  - intros Hne.
    assert (Ht : Js.truthy normalized = true)
      by (destruct normalized; [congruence|reflexivity]).
    rewrite Ht. simpl. split.
    + intros H. rewrite <- (app_nil_r (echoCandidates s)).
      now rewrite stripLoop_skips.
    + intros before candidate rest -> Hfree.
      rewrite (stripLoop_skips _ _ _ Hfree). simpl.
      split; [|split].
      * intros H. now rewrite (stripAgainst_contained _ _ H).
      * intros k Hc Hp.
        now rewrite (@stripAgainst_prefix txt _ _ eq_refl _ _ Hc Hp).
      * intros k Hc Hp Ha.
        now rewrite (@stripAgainst_anchor txt _ _ eq_refl _ _ Hc Hp Ha).
Qed.

(** C1, as the code has it, for a transcript and remembered utterances
    of ASCII text.  A recognition result that arrives while
    [now < ignore-until] is classified by the ratio of
    [assistantEchoOverlapRatio]: at 0.85 or more it is discarded, the
    handler returning without a trace; from 0.35 up to 0.85 the text is
    replaced by what [stripAssistantEchoFromText] leaves of it and dropped
    when nothing is left; below 0.35 it goes on unmodified.  The text
    that leaves the block is the one the rest of the handler works with.
    The stripping goes by the first remembered utterance to which a rule
    applies: nothing is left when the text, longer than 10 characters, is
    contained in the utterance; otherwise the text loses the prefix it
    shares with the utterance when that is 18 characters or more;
    otherwise it loses everything up to the end of the utterance's first
    48 characters when these are at least 24 and found at one of the
    first 6 positions; the white space that follows goes as well; the
    text stays as it is when no rule applies to any utterance.  The ratio
    is 0 for a text with fewer than two words longer than two characters;
    otherwise it reaches a threshold exactly when that fraction of those
    words is found in an utterance that has two distinct such words or
    more. *)
Theorem echo_window_three_way
  (s : Session) (now : Z) (txt : string)
  (Htext : Js.isAscii txt = true) (Hmemory : asciiMemory s = true)
  (Hnow : (0 <= now)%Z) (Hwindow : (now < ignoreRecognitionUntilRef s)%Z) :
  let overlap := assistantEchoOverlapRatio s txt in
  let cleaned := stripAssistantEchoFromText s txt in
  let normalized := Js.trim (Js.toLowerCase txt) in
  let inputWords := significantWords normalized in
  ((85 # 100 <= overlap)%Q ->
     sanitizeTailEcho s now txt = None
     /\ forall fails r transcript fin uid ts controller,
         Js.isAscii transcript = true ->
         Js.trim transcript = txt ->
         onresult fails r now transcript fin uid ts controller s = untouched s)
  /\ ((35 # 100 <= overlap)%Q -> (overlap < 85 # 100)%Q ->
      sanitizeTailEcho s now txt
      = if Js.truthy cleaned then Some cleaned else None)
  /\ (normalized = "" -> cleaned = "")
  /\ (normalized <> "" ->
      Forall (echoFree normalized) (echoCandidates s) -> cleaned = txt)
  /\ (forall before candidate rest,
        normalized <> "" ->
        echoCandidates s = before ++ candidate :: rest ->
        Forall (echoFree normalized) before ->
        (echoContained normalized candidate -> cleaned = "")
        /\ (forall k,
              ~ echoContained normalized candidate ->
              echoPrefix normalized candidate k ->
              cleaned = Js.trimStart (Js.sliceFrom txt (Z.of_nat k)))
        /\ (forall k,
              ~ echoContained normalized candidate ->
              (forall k', ~ echoPrefix normalized candidate k') ->
              echoAnchor normalized candidate k ->
              cleaned = Js.trimStart (Js.sliceFrom txt (Z.of_nat k))))
  /\ ((overlap < 35 # 100)%Q -> sanitizeTailEcho s now txt = Some txt)
  /\ (forall fails r transcript fin uid ts controller,
         Js.isAscii transcript = true ->
         Js.trim transcript = txt ->
         stoppedOrIdle s = false ->
         suspendRecognitionRef s = false ->
         onresult fails r now transcript fin uid ts controller s
         = match sanitizeTailEcho s now txt with
           | None => untouched s
           | Some t => onresult_accept fails r now t fin uid ts controller s
           end)
  /\ (List.length inputWords < 2 -> overlap = 0%Q)
  /\ (2 <= List.length inputWords ->
      forall t, (0 < t)%Q -> (t <= 9 # 10)%Q ->
        (t <= overlap)%Q
        <-> exists candidate,
              In candidate (echoCandidates s)
              /\ eligible candidate = true
              /\ (t <= wordOverlap inputWords candidate)%Q).
Proof.
  intros overlap cleaned normalized inputWords.
  pose proof (inIgnoreWindow_open s Hnow Hwindow) as Hopen.
  assert (Hdiscard : (85 # 100 <= overlap)%Q -> sanitizeTailEcho s now txt = None).
  { intros H. unfold sanitizeTailEcho. rewrite Hopen.
    fold overlap. apply Qle_bool_iff in H. now rewrite H. }
  destruct (strip_rules s txt) as [Hblank Hrules].
  split.
  { intros H. split; [now apply Hdiscard|].
    intros fails r transcript fin uid ts controller _ <-.
    apply onresult_discards. now apply Hdiscard. }
  split.
  { intros H H0.
    unfold sanitizeTailEcho. rewrite Hopen. fold overlap cleaned.
    rewrite (Qle_bool_false H0).
    apply Qle_bool_iff in H. rewrite H.
    now destruct (Js.truthy cleaned). }
  split; [exact Hblank|].
  split; [intros Hne; exact (proj1 (Hrules Hne))|].
  split; [intros before candidate rest Hne; exact (proj2 (Hrules Hne) before candidate rest)|].
  split.
  { intros H. unfold sanitizeTailEcho. rewrite Hopen. fold overlap.
    rewrite Qle_bool_false, Qle_bool_false; trivial.
    eapply Qlt_trans; [exact H|reflexivity]. }
  split.
  { intros fails r transcript fin uid ts controller _ <- H1 H2.
    now apply onresult_after_block. }
  exact (assistantEchoOverlapRatio_words s txt).
Qed.

(** "okay thanks" said over the end of the balance answer: 5 of the 7
    words are the assistant's, the 35 characters of the answer are a
    shared prefix, and what follows them is kept. *)
Lemma echo_window_three_way_witness :
  sanitizeTailEcho afterBalanceAnswer 1400 balanceAndThanks = Some "okay thanks".
Proof.
  destruct (@echo_window_three_way afterBalanceAnswer 1400 balanceAndThanks
              eq_refl eq_refl
              ltac:(vm_compute; discriminate) ltac:(vm_compute; reflexivity))
    as (_ & Hmid & _ & _ & Hrules & _).
  rewrite Hmid; [|vm_compute; discriminate|vm_compute; reflexivity].
  destruct (Hrules [] "your balance is five hundred rupees"
              ["your balance is five hundred rupees"])
    as (_ & Hprefix & _);
    [discriminate|reflexivity|constructor|].
  rewrite (Hprefix 35).
  - reflexivity.
  - intros [_ H]. vm_compute in H. discriminate H.
  - split; [reflexivity|lia].
Defined.

(** C1 as stated fails for a one-word echo: after "You can pay the bill
    now", the result "pay" has all of its words in the utterance (a ratio
    of 1 as worded), yet the code's ratio is 0, the text leaves the block
    as it is, enters the transcript and is sent as the next turn. *)
Lemma single_word_echo_is_accepted :
  overlapAsWorded afterBillAnswer "pay" = 1%Q
  /\ assistantEchoOverlapRatio afterBillAnswer "pay" = 0%Q
  /\ sanitizeTailEcho afterBillAnswer 1400 "pay" = Some "pay"
  /\ transcripts
       (ctl (onresult noFailure 1 1400 "pay" true "u1" "t1" 9 afterBillAnswer))
     = [mkEntry "u1" User "pay" "t1" true]
  /\ In (Did (ChatRequest "pay" "sid" 9))
        (log (onresult noFailure 1 1400 "pay" true "u1" "t1" 9 afterBillAnswer))
  /\ ~ discardsEchoAsWorded afterBillAnswer 1400 "pay".
Proof.
  split; [reflexivity|]. split; [reflexivity|]. split; [reflexivity|].
  split; [reflexivity|]. split; [vm_compute; auto 10|].
  intros H. assert (F : (85 # 100 <= overlapAsWorded afterBillAnswer "pay")%Q)
    by (vm_compute; discriminate).
  specialize (H F). vm_compute in H. discriminate H.
Qed.

(** The candidates when the history holds exactly [balanceUtterance]; the
    cell [lastAssistantTextRef] holds the same answer until the timer or
    [stop] clears it. *)
Lemma balance_candidates (s : Session) :
  assistantUtterancesRef s = [balanceUtterance] ->
  echoMemoryCoherent s ->
  echoCandidates s = ["your balance is five hundred rupees";
                      "your balance is five hundred rupees"]
  \/ echoCandidates s = ["your balance is five hundred rupees"].
Proof.
  intros Hh [Hl | Hl]; unfold echoCandidates.
  - rewrite Hh, Hl. now right.
  - rewrite Hh in Hl. simpl in Hl. injection Hl as Hl.
    rewrite Hh, <- Hl. now left.
Qed.

(** C2. With the history holding exactly "Your balance is five hundred
    rupees" and the ignore window open, the same sentence as candidate has
    ratio 1 (at least 0.85) and is discarded, and the candidate "Your
    balance is five hundred rupees and I need a ticket" has ratio 5/8 (in
    [0.35, 0.85)), shares the 35 characters of the utterance as a prefix,
    and leaves the remainder "and I need a ticket".  (The cell
    [lastAssistantTextRef], which is compared against as well, agrees with
    the history, as it does after any events.) *)
Theorem balance_echo_examples
  (s : Session) (now : Z)
  (Hhistory : assistantUtterancesRef s = [balanceUtterance])
  (Hlast : echoMemoryCoherent s)
  (Hnow : (0 <= now)%Z) (Hwindow : (now < ignoreRecognitionUntilRef s)%Z) :
  (85 # 100 <= assistantEchoOverlapRatio s balanceUtterance)%Q
  /\ sanitizeTailEcho s now balanceUtterance = None
  /\ assistantEchoOverlapRatio s balanceAndTicket = (5 # 8)%Q
  /\ (35 # 100 <= assistantEchoOverlapRatio s balanceAndTicket)%Q
  /\ (assistantEchoOverlapRatio s balanceAndTicket < 85 # 100)%Q
  /\ Js.commonPrefixLen (Js.trim (Js.toLowerCase balanceAndTicket))
                        (Js.trim (Js.toLowerCase balanceUtterance))
     = String.length balanceUtterance
  /\ stripAssistantEchoFromText s balanceAndTicket = "and I need a ticket"
  /\ sanitizeTailEcho s now balanceAndTicket = Some "and I need a ticket".
Proof.
  pose proof (inIgnoreWindow_open s Hnow Hwindow) as Hopen.
  assert (Hsame : assistantEchoOverlapRatio s balanceUtterance = (5 # 5)%Q).
  { unfold assistantEchoOverlapRatio.
    destruct (balance_candidates Hhistory Hlast) as [-> | ->];
      vm_compute; reflexivity. }
  assert (Hmore : assistantEchoOverlapRatio s balanceAndTicket = (5 # 8)%Q).
  { unfold assistantEchoOverlapRatio.
    destruct (balance_candidates Hhistory Hlast) as [-> | ->];
      vm_compute; reflexivity. }
  assert (Hstrip : stripAssistantEchoFromText s balanceAndTicket
                   = "and I need a ticket").
  { unfold stripAssistantEchoFromText.
    destruct (balance_candidates Hhistory Hlast) as [-> | ->];
      vm_compute; reflexivity. }
  split; [|split; [|split; [|split; [|split; [|split; [|split]]]]]].
  - rewrite Hsame. vm_compute. discriminate.
  - unfold sanitizeTailEcho. now rewrite Hopen, Hsame.
  - exact Hmore.
  - rewrite Hmore. vm_compute. discriminate.
  - rewrite Hmore. reflexivity.
  - vm_compute. reflexivity.
  - exact Hstrip.
  - unfold sanitizeTailEcho. now rewrite Hopen, Hmore, Hstrip.
Qed.

Lemma balance_echo_examples_witness :
  sanitizeTailEcho afterBalanceAnswer 1400 balanceUtterance = None
  /\ sanitizeTailEcho afterBalanceAnswer 1400 balanceAndTicket
     = Some "and I need a ticket".
Proof.
  pose proof (@balance_echo_examples afterBalanceAnswer 1400 eq_refl
                (or_intror eq_refl)
                ltac:(vm_compute; discriminate) ltac:(vm_compute; reflexivity))
    as (_ & Hd & _ & _ & _ & _ & _ & Hs).
  exact (conj Hd Hs).
Defined.

(** ** Reasoning about runs *)

Section Runs.

Variable fails : PlatformCall -> bool.

Lemma runs_ret {A : Type} (a : A) s : runs (ret a) s a s [].
Proof. reflexivity. Qed.

Lemma runs_get s : runs get s s s [].
Proof. reflexivity. Qed.

Lemma runs_assign {V : Type} c (set : V -> Session -> Session) v s :
  runs (assign c set v) s tt (set v s) [Wr c].
Proof. reflexivity. Qed.

Lemma runs_emit p s : runs (emit p) s tt s [Did p].
Proof. reflexivity. Qed.

Lemma runs_bind {A B : Type} (m : M A) (k : A -> M B) s a s1 l1 b s2 l2 :
  runs m s a s1 l1 -> runs (k a) s1 b s2 l2 ->
  runs (bind m k) s b s2 (l1 ++ l2).
Proof.
  unfold runs, bind. intros -> H. now rewrite H.
Qed.

Lemma runs_tryFinally {A : Type} (body : M A) fin s a s1 l1 s2 l2 :
  runs body s a s1 l1 -> runs fin s1 tt s2 l2 ->
  runs (tryFinally body fin) s a s2 (l1 ++ l2).
Proof.
  unfold runs, tryFinally. intros -> H. now rewrite H.
Qed.

(** [try { body } catch { }] returns whatever [body] does. *)
Lemma runs_tryCatch_ignore (body : M unit) s :
  runs (tryCatch body ignore) s tt (ctl (body s)) (log (body s)).
Proof.
  unfold runs, tryCatch, ignore, ret.
  destruct (body s) as [[[]|] s1 l1]; simpl; trivial.
  now rewrite app_nil_r.
Qed.

(** Guarded calls in a row leave the session alone. *)
Lemma calls_of_cell_1 (cell : option nat) (p : nat -> PlatformCall) s :
  let body := whenSome cell (fun h => call fails (p h)) in
  ctl (body s) = s
  /\ log (body s) = attempts fails (fromCell cell (fun h => [p h])).
Proof.
  destruct cell as [h|]; simpl; [|now split].
  unfold call. now destruct (fails (p h)).
Qed.

Lemma calls_of_cell_4 (cell : option nat) (p1 p2 p3 p4 : nat -> PlatformCall) s :
  let body := whenSome cell (fun h =>
                call fails (p1 h) ;; call fails (p2 h) ;;
                call fails (p3 h) ;; call fails (p4 h)) in
  ctl (body s) = s
  /\ log (body s)
     = attempts fails (fromCell cell (fun h => [p1 h; p2 h; p3 h; p4 h])).
Proof.
  destruct cell as [h|]; simpl; [|now split].
  unfold bind, call.
  destruct (fails (p1 h)); simpl; [now split|].
  destruct (fails (p2 h)); simpl; [now split|].
  destruct (fails (p3 h)); simpl; [now split|].
  destruct (fails (p4 h)); simpl; now split.
Qed.

Lemma calls_of_cell_5 (cell : option nat)
  (p1 p2 p3 p4 p5 : nat -> PlatformCall) s :
  let body := whenSome cell (fun h =>
                call fails (p1 h) ;; call fails (p2 h) ;;
                call fails (p3 h) ;; call fails (p4 h) ;;
                call fails (p5 h)) in
  ctl (body s) = s
  /\ log (body s)
     = attempts fails
         (fromCell cell (fun h => [p1 h; p2 h; p3 h; p4 h; p5 h])).
Proof.
  destruct cell as [h|]; simpl; [|now split].
  unfold bind, call.
  destruct (fails (p1 h)); simpl; [now split|].
  destruct (fails (p2 h)); simpl; [now split|].
  destruct (fails (p3 h)); simpl; [now split|].
  destruct (fails (p4 h)); simpl; [now split|].
  destruct (fails (p5 h)); simpl; now split.
Qed.

(** The block [try { if (cell) { call; cell = null } } catch { }]. *)
Lemma runs_call_then_clear (read : Session -> option nat)
  (p : nat -> PlatformCall) c (set : option nat -> Session -> Session) s :
  runs (tryCatch
          (s0 <- get ;;
           whenSome (read s0) (fun h =>
             call fails (p h) ;; assign c set None))
          ignore)
       s tt
       (match read s with
        | Some h => if fails (p h) then s else set None s
        | None => s
        end)
       (match read s with
        | Some h => attemptThenClear fails (p h) c
        | None => []
        end).
Proof.
  unfold runs, tryCatch, bind, get, whenSome, call, assign, attemptThenClear,
    ignore, ret.
  simpl. destruct (read s) as [h|]; simpl; trivial.
  destruct (fails (p h)); reflexivity.
Qed.

(** [get] hands the session to what follows. *)
Lemma get_then {A : Type} (k : Session -> M A) s : (s0 <- get ;; k s0) s = k s s.
Proof.
  unfold bind, get. now destruct (k s s) as [o s1 l1].
Qed.

(** The block [try { body } catch { } finally { cell = null }] around
    calls that leave the session alone. *)
Lemma runs_guarded (body : M unit) c (set : option nat -> Session -> Session)
  s l :
  ctl (body s) = s /\ log (body s) = l ->
  runs (tryFinally (tryCatch body ignore) (assign c set None))
       s tt (set None s) (l ++ [Wr c]).
Proof.
  intros [Hc Hl]. eapply runs_tryFinally; [|apply runs_assign].
  pose proof (runs_tryCatch_ignore body s) as H.
  now rewrite Hc, Hl in H.
Qed.

Lemma runs_eq {A : Type} (m : M A) s a s1 l1 s2 l2 :
  runs m s a s1 l1 -> s1 = s2 -> l1 = l2 -> runs m s a s2 l2.
Proof. now intros H <- <-. Qed.

(** [stopBargeInMonitor] returns, whatever [clearInterval] does. *)
Lemma runs_stopBargeInMonitor s :
  runs (stopBargeInMonitor fails) s tt
       (set_vadConsecutiveRef 0
          (match vadIntervalRef s with
           | Some t => if fails (ClearInterval t) then s
                       else set_vadIntervalRef None s
           | None => s
           end))
       (match vadIntervalRef s with
        | Some t => attemptThenClear fails (ClearInterval t) CVadInterval
        | None => []
        end ++ [Wr CVadConsecutive]).
Proof.
  unfold stopBargeInMonitor.
  eapply runs_bind; [|apply runs_assign].
  apply (runs_call_then_clear vadIntervalRef ClearInterval CVadInterval
           set_vadIntervalRef).
Qed.

(** [stop] in one equation: it returns, leaves [stopState] and logs
    [stopLog]. *)
Lemma stop_run s :
  runs (stop fails) s tt (stopState fails s) (stopLog fails s).
Proof.
  unfold stop.
  eapply runs_eq.
  - eapply runs_bind; [apply runs_assign|cbv beta].
    eapply runs_bind; [apply runs_assign|cbv beta].
    eapply runs_bind; [apply runs_assign|cbv beta].
    eapply runs_bind.
    { apply runs_guarded. rewrite get_then.
      apply (calls_of_cell_1 _ Abort). }
    cbv beta. eapply runs_bind.
    { apply runs_guarded. rewrite get_then.
      apply (calls_of_cell_1 _ Abort). }
    cbv beta. eapply runs_bind.
    { apply runs_guarded. rewrite get_then.
      apply (calls_of_cell_4 _
               (fun r => RecogClearHandler r OnEnd)
               (fun r => RecogClearHandler r OnError)
               (fun r => RecogClearHandler r OnResult) RecogStop). }
    cbv beta. eapply runs_bind.
    { apply runs_guarded. rewrite get_then.
      apply (calls_of_cell_5 _
               (fun a => AudioClearHandler a OnEnded)
               (fun a => AudioClearHandler a OnError)
               (fun a => AudioClearHandler a OnPause)
               AudioPause AudioClearSrc). }
    cbv beta. eapply runs_bind.
    { apply (runs_call_then_clear audioUrlRef RevokeObjectURL CAudioUrl
               set_audioUrlRef). }
    cbv beta.
    eapply runs_bind; [apply runs_assign|cbv beta].
    eapply runs_bind; [apply runs_assign|cbv beta].
    eapply runs_bind; [apply runs_stopBargeInMonitor|cbv beta].
    eapply runs_bind; [apply runs_assign|cbv beta].
    eapply runs_bind; [apply runs_assign|cbv beta].
    eapply runs_bind; [apply runs_assign|cbv beta].
    eapply runs_bind; [apply runs_assign|cbv beta].
    apply runs_assign.
  - unfold stopState, clearedUnless. destruct s; simpl.
    destruct audioUrlRef0 as [u|]; [destruct (fails (RevokeObjectURL u))|];
      simpl;
      (destruct vadIntervalRef0 as [t|];
       [destruct (fails (ClearInterval t))|]); reflexivity.
  - unfold stopLog. destruct s; simpl.
    rewrite <- !app_assoc. simpl.
    destruct audioUrlRef0 as [u|]; [destruct (fails (RevokeObjectURL u))|];
      (destruct vadIntervalRef0 as [t|];
       [destruct (fails (ClearInterval t))|]); simpl;
      repeat (f_equal; try reflexivity; rewrite <- ?app_assoc; simpl).
Qed.

End Runs.

(** ** Teardown *)

Lemma clearedUnless_returns fails p cell :
  (forall h, fails (p h) = false) -> clearedUnless fails p cell = None.
Proof.
  intros H. destruct cell as [h|]; simpl; trivial. now rewrite H.
Qed.

Lemma stop_eq fails s :
  stop fails s = mkRun (Ok tt) (stopState fails s) (stopLog fails s).
Proof. apply stop_run. Qed.

(** The steps of a [stop] that finds nothing to tear down. *)
Lemma stopLog_nothing_live fails s :
  queryAbortRef s = None -> ttsAbortRef s = None ->
  recognitionRef s = None -> audioRef s = None ->
  audioUrlRef s = None -> vadIntervalRef s = None ->
  stopLog fails s
  = [Wr CStopped; Wr CAudioCancelled; Wr CStateRef; Wr CQueryAbort;
     Wr CTtsAbort; Wr CRecognition; Wr CAudio; Wr CIsSpeaking;
     Wr CSuspendRecognition; Wr CVadConsecutive; Wr CProcessing;
     Wr CLastTranscript; Wr CLastAssistantText; Wr CState; Wr CIsProcessing].
Proof.
  intros H1 H2 H3 H4 H5 H6. unfold stopLog.
  now rewrite H1, H2, H3, H4, H5, H6.
Qed.

Lemma stopState_again first second s :
  (forall t, first (ClearInterval t) = false) ->
  (forall u, first (RevokeObjectURL u) = false) ->
  stopState second (stopState first s) = stopState first s.
Proof.
  intros Hclear Hrevoke. unfold stopState. simpl.
  rewrite (clearedUnless_returns first ClearInterval _ Hclear).
  rewrite (clearedUnless_returns first RevokeObjectURL _ Hrevoke).
  reflexivity.
Qed.

(** C3. [stop], from any session (idle, listening, thinking, speaking, a
    chat request or an audio fetch outstanding), returns and leaves the
    session idle with no recognizer, no audio player, no activity-monitor
    timer and no token; each outstanding controller had its [abort()]
    called; a second [stop] changes nothing and calls nothing, and
    neither does the answer or the failure of the interrupted chat request
    when it arrives afterwards.
    ([clearInterval] and [revokeObjectURL], which the platform specifies
    not to throw, are taken to return in the first call; every other
    guarded call may throw.) *)
Theorem stop_idempotent_teardown
  (first second : PlatformCall -> bool) (s : Session)
  (Hclear : forall t, first (ClearInterval t) = false)
  (Hrevoke : forall u, first (RevokeObjectURL u) = false) :
  let once := stop first s in
  let twice := stop second (ctl once) in
  out once = Ok tt
  /\ (state (ctl once) = Idle /\ stateRef (ctl once) = Idle
      /\ stoppedRef (ctl once) = true)
  /\ (recognitionRef (ctl once) = None /\ audioRef (ctl once) = None
      /\ vadIntervalRef (ctl once) = None
      /\ queryAbortRef (ctl once) = None /\ ttsAbortRef (ctl once) = None)
  /\ (isProcessing (ctl once) = false /\ processingRef (ctl once) = false
      /\ isSpeakingRef (ctl once) = false
      /\ suspendRecognitionRef (ctl once) = false)
  /\ (forall c, queryAbortRef s = Some c -> first (Abort c) = false ->
        In (Did (Abort c)) (log once))
  /\ (forall c, ttsAbortRef s = Some c -> first (Abort c) = false ->
        In (Did (Abort c)) (log once))
  /\ out twice = Ok tt
  /\ ctl twice = ctl once
  /\ (forall p, ~ In (Did p) (log twice) /\ ~ In (Raised p) (log twice))
  /\ (forall now err uid ts answer,
        ctl (processUserInput_rejected second now err (ctl once)) = ctl once
        /\ ctl (processUserInput_fulfilled uid ts answer (ctl once)) = ctl once).
Proof.
  intros once twice. subst twice once.
  rewrite (stop_eq first s). cbn [ctl out log].
  rewrite (stop_eq second). cbn [ctl out log].
  assert (Hvad : vadIntervalRef (stopState first s) = None)
    by apply (clearedUnless_returns first ClearInterval _ Hclear).
  assert (Hurl : audioUrlRef (stopState first s) = None)
    by apply (clearedUnless_returns first RevokeObjectURL _ Hrevoke).
  split; [reflexivity|].
  split; [now repeat split|].
  split; [now repeat split|].
  split; [now repeat split|].
  split; [|split; [|split; [|split; [|split]]]].
  - intros c Hq Hok. unfold stopLog. rewrite Hq. simpl. rewrite Hok.
    simpl. auto.
  - intros c Ht Hok. unfold stopLog. rewrite Ht.
    rewrite !in_app_iff. right. right. right. left. simpl. rewrite Hok.
    now left.
  - reflexivity.
  - now apply stopState_again.
  - intros p. rewrite stopLog_nothing_live; trivial.
    split; intros H; simpl in H;
      repeat (destruct H as [H|H]; [discriminate H|]); exact H.
  - intros now err uid ts answer. split; reflexivity.
Qed.

(** Stopping in the middle of a playback, twice. *)
Lemma stop_idempotent_teardown_witness :
  ctl (stop noFailure (ctl (stop noFailure speakingSession)))
  = ctl (stop noFailure speakingSession)
  /\ state (ctl (stop noFailure speakingSession)) = Idle.
Proof.
  pose proof (@stop_idempotent_teardown noFailure noFailure speakingSession
                (fun _ => eq_refl) (fun _ => eq_refl))
    as (_ & (Hidle & _) & _ & _ & _ & _ & _ & Hsame & _ & _).
  exact (conj Hsame Hidle).
Defined.

(** *** The order of the steps of [stop] *)

Lemma ascending_weaken a b l : a <= b -> ascending b l = true -> ascending a l = true.
Proof.
  intros Hab. destruct l as [|x l]; simpl; trivial.
  intros H. apply andb_prop in H as [H1 H2]. apply Nat.leb_le in H1.
  rewrite H2, andb_true_r. apply Nat.leb_le. lia.
Qed.

Lemma inRange_nil lo hi : lo <= hi -> inRange lo hi [].
Proof. intros H. repeat split; trivial. Qed.

Lemma inRange_app a b c l1 l2 :
  inRange a b l1 -> inRange b c l2 -> inRange a c (l1 ++ l2).
Proof.
  revert a. induction l1 as [|x l1 IH]; intros a (H1 & H2 & H3) (H4 & H5 & H6).
  - simpl. repeat split; [|exact H5|lia].
    now apply (ascending_weaken l2 H3).
  - simpl in H1. apply andb_prop in H1 as [H1 H7]. apply Nat.leb_le in H1.
    inversion H2 as [|? ? Hx Hl1]; subst.
    destruct (IH x (conj H7 (conj Hl1 Hx)) (conj H4 (conj H5 H6)))
      as (H8 & H9 & H10).
    repeat split.
    + simpl. rewrite H8, andb_true_r. now apply Nat.leb_le.
    + simpl. constructor; [lia|exact H9].
    + lia.
Qed.

(** Calls that stop at the first throw keep the order of the calls. *)
Lemma inRange_attempts fails ps : forall lo hi,
  inRange lo hi (map callPlace ps) ->
  inRange lo hi (map stepPlace (attempts fails ps)).
Proof.
  induction ps as [|p ps IH]; intros lo hi H; [exact H|].
  destruct H as (H1 & H2 & H3). simpl in H1, H2.
  apply andb_prop in H1 as [H1 H4]. inversion H2 as [|? ? Hp Hps]; subst.
  simpl. destruct (fails p); unfold inRange; simpl.
  - split; [|split]; trivial.
    + now rewrite H1.
    + constructor; [exact Hp|constructor].
  - destruct (IH (callPlace p) hi (conj H4 (conj Hps Hp))) as (H5 & H6 & _).
    split; [|split]; trivial.
    + now rewrite H1, H5.
    + constructor; trivial.
Qed.

Lemma inRange_literal lo hi l :
  andb (ascending lo l) (andb (forallb (fun n => Nat.leb n hi) l) (Nat.leb lo hi))
  = true ->
  inRange lo hi l.
Proof.
  intros H. apply andb_prop in H as [H1 H]. apply andb_prop in H as [H2 H3].
  repeat split; trivial.
  - apply Forall_forall. intros n Hn.
    rewrite forallb_forall in H2. apply Nat.leb_le. now apply H2.
  - now apply Nat.leb_le.
Qed.

Lemma inRange_nondecreasing hi l : inRange 0 hi l -> nondecreasing l = true.
Proof.
  intros (H & _ & _). clear hi.
  assert (G : forall lo l, ascending lo l = true -> nondecreasing l = true).
  { clear. intros lo l. revert lo.
    induction l as [|a l IH]; intros lo H; [reflexivity|].
    simpl in H. apply andb_prop in H as [_ H].
    destruct l as [|b l']; [reflexivity|].
    change (andb (Nat.leb a b) (nondecreasing (b :: l')) = true).
    pose proof H as H'. simpl in H'. apply andb_prop in H' as [Hab _].
    rewrite Hab. simpl. now apply (IH a). }
  exact (G 0 l H).
Qed.

Lemma stopLog_in_order fails s :
  nondecreasing (map stepPlace (stopLog fails s)) = true.
Proof.
  apply (@inRange_nondecreasing 30). unfold stopLog.
  rewrite !map_app.
  apply (@inRange_app 0 2); [now apply inRange_literal|].
  apply (@inRange_app 2 3).
  { apply inRange_attempts. destruct (queryAbortRef s);
      now apply inRange_literal. }
  apply (@inRange_app 3 3); [now apply inRange_literal|].
  apply (@inRange_app 3 3).
  { apply inRange_attempts. destruct (ttsAbortRef s);
      now apply inRange_literal. }
  apply (@inRange_app 3 3); [now apply inRange_literal|].
  apply (@inRange_app 3 11).
  { apply inRange_attempts. destruct (recognitionRef s);
      now apply inRange_literal. }
  apply (@inRange_app 11 12); [now apply inRange_literal|].
  apply (@inRange_app 12 17).
  { apply inRange_attempts. destruct (audioRef s);
      now apply inRange_literal. }
  apply (@inRange_app 17 18); [now apply inRange_literal|].
  apply (@inRange_app 18 20).
  { destruct (audioUrlRef s) as [u|]; [|now apply inRange_literal].
    unfold attemptThenClear. destruct (fails (RevokeObjectURL u));
      now apply inRange_literal. }
  apply (@inRange_app 20 22); [now apply inRange_literal|].
  apply (@inRange_app 22 24).
  { destruct (vadIntervalRef s) as [t|]; [|now apply inRange_literal].
    unfold attemptThenClear. destruct (fails (ClearInterval t));
      now apply inRange_literal. }
  now apply inRange_literal.
Qed.

(** C4, as the code has it.  [stop] returns whatever guarded call throws,
    and its steps come in the order of its text ([stopLog]): the stopped
    and audio-cancelled flags and the state cell; [abort()] and [null] for
    the query token, then for the synthesis token; the recognizer's three
    callbacks detached, [stop()], the cell cleared; the player's three
    callbacks detached, [pause()], the source emptied, the cell cleared;
    the object URL revoked; the speaking and suspension flags cleared; the
    monitor's timer cleared and its counter reset; then the processing
    flag, the last transcript, the last assistant text, the UI state and
    the UI processing flag.  A step is skipped only when its cell is empty
    or when a call before it in the same [try] block threw. *)
Theorem stop_returns_in_text_order (fails : PlatformCall -> bool) (s : Session) :
  out (stop fails s) = Ok tt
  /\ ctl (stop fails s) = stopState fails s
  /\ log (stop fails s) = stopLog fails s
  /\ nondecreasing (map stepPlace (log (stop fails s))) = true.
Proof.
  rewrite stop_eq. cbn [out ctl log].
  repeat split. apply stopLog_in_order.
Qed.

(** The steps of [stop] in the middle of a playback, nothing throwing. *)
Example stop_log_while_speaking :
  log (stop noFailure speakingSession)
  = [Wr CStopped; Wr CAudioCancelled; Wr CStateRef;
     Did (Abort 6); Wr CQueryAbort; Did (Abort 5); Wr CTtsAbort;
     Did (RecogClearHandler 1 OnEnd); Did (RecogClearHandler 1 OnError);
     Did (RecogClearHandler 1 OnResult); Did (RecogStop 1); Wr CRecognition;
     Did (AudioClearHandler 7 OnEnded); Did (AudioClearHandler 7 OnError);
     Did (AudioClearHandler 7 OnPause); Did (AudioPause 7);
     Did (AudioClearSrc 7); Wr CAudio;
     Did (RevokeObjectURL 8); Wr CAudioUrl;
     Wr CIsSpeaking; Wr CSuspendRecognition;
     Did (ClearInterval 9); Wr CVadInterval; Wr CVadConsecutive;
     Wr CProcessing; Wr CLastTranscript; Wr CLastAssistantText;
     Wr CState; Wr CIsProcessing].
Proof. reflexivity. Qed.

(** C4 as stated fails in the middle of a playback: the speaking and
    suspension flags are cleared before the monitor's timer is, so the
    steps do not follow the listed phases; and no step releases the
    microphone stream, which the session still holds afterwards. *)
Lemma stop_not_as_specified :
  nondecreasing
    (map specifiedPhase (log (stop noFailure speakingSession))) = false
  /\ micStreamRef (ctl (stop noFailure speakingSession)) = Some 2
  /\ ~ In (Did (StopTracks 2)) (log (stop noFailure speakingSession))
  /\ ~ stopsAsSpecified noFailure speakingSession.
Proof.
  split; [reflexivity|]. split; [reflexivity|]. split.
  - rewrite stop_log_while_speaking. simpl.
    intros H. repeat (destruct H as [H|H]; [discriminate H|]). exact H.
  - intros (_ & H & _). vm_compute in H. discriminate H.
Qed.

(** What the cleanup on unmount does and [stop] does not: it stops the
    tracks of the microphone stream and closes the audio context. *)
Example unmount_releases_microphone :
  In (Did (StopTracks 2)) (log (unmountCleanup noFailure speakingSession))
  /\ micStreamRef (ctl (unmountCleanup noFailure speakingSession)) = None
  /\ audioContextRef (ctl (unmountCleanup noFailure speakingSession)) = None.
Proof.
  split; [|split]; [|reflexivity|reflexivity].
  vm_compute. auto 10.
Qed.

(** ** The turn processor *)

(** The unfolding of a handler into its run. *)
Ltac run_handler :=
  unfold bind, get, assign, emit, call, tryCatch, tryFinally, whenSome,
    ret, ignore; cbn.




Lemma bind_returns {A B : Type} (m : M A) (k : A -> M B) s a :
  out (m s) = Ok a ->
  bind m k s = after (log (m s)) (k a (ctl (m s))).
Proof.
  intros H. unfold bind. destruct (m s) as [o s1 l1]. simpl in *. now subst.
Qed.


Lemma log_after {A : Type} l (r : Run A) : log (after l r) = l ++ log r.
Proof. now destruct r. Qed.









(** ** Push-to-talk *)

(** Case analysis on the tests a handler makes, outermost first. *)
Ltac split_test :=
  match goal with
  | |- context [match ?b with _ => _ end] =>
      match type of b with
      | bool => destruct b eqn:?
      | option _ => destruct b eqn:?
      | Mode => destruct b eqn:?
      end
  end.

(** In push-to-talk mode the recognizer's completion event does nothing. *)
Lemma onend_push_to_talk fails r s :
  modeRef s = PushToTalk -> onend fails r s = untouched s.
Proof.
  intros H. unfold onend. run_handler. rewrite H.
  now destruct (suspendRecognitionRef s).
Qed.

(** When [onresult] sends a request in push-to-talk mode, it has
    suspended and stopped the recognizer before. *)
Lemma onresult_stops_before_request fails r now transcript fin uid ts c s :
  modeRef s = PushToTalk ->
  chatRequests (log (onresult fails r now transcript fin uid ts c s)) <> [] ->
  In (Did (RecogStop r))
     (stepsBefore isChatRequest
        (log (onresult fails r now transcript fin uid ts c s)))
  /\ suspendRecognitionRef
       (ctl (onresult fails r now transcript fin uid ts c s)) = true
  /\ fin = true.
Proof.
  intros Hm. destruct s. cbn in Hm. subst.
  unfold onresult, onresult_accept, processUserInput_begin. run_handler.
  repeat (split_test; cbn; try (intros H; now exfalso)).
  all: intros _; split; [simpl; auto 12|split; [reflexivity|]].
  all: destruct fin; trivial; simpl in *; discriminate.
Qed.

(** [onresult] never starts the recognizer in push-to-talk mode. *)
Lemma onresult_never_restarts fails r now transcript fin uid ts c s :
  modeRef s = PushToTalk ->
  restartSteps (log (onresult fails r now transcript fin uid ts c s)) = [].
Proof.
  intros Hm. destruct s. cbn in Hm. subst.
  unfold onresult, onresult_accept, processUserInput_begin. run_handler.
  repeat (split_test; cbn; try reflexivity).
Qed.

(** Nor do the callbacks of the audio element. *)
Lemma audio_callbacks_never_restart fails now url s :
  modeRef s = PushToTalk ->
  restartSteps (log (audio_onended fails now url s)) = []
  /\ restartSteps (log (audio_onpause fails now url s)) = []
  /\ restartSteps (log (audio_onerror fails now url s)) = [].
Proof.
  intros Hm. destruct s. cbn in Hm. subst.
  unfold audio_onended, audio_onpause, audio_onerror, audio_cancelled,
    releaseAudioUrl, stopBargeInMonitor, stoppedOrIdle.
  run_handler.
  repeat split; repeat (split_test; cbn; try reflexivity).
Qed.

(** After playback the restart goes through a timer of 200 ms. *)
Lemma afterTTS_restarts_by_timer now p r s :
  stoppedOrIdle s = false ->
  recognitionRef s = Some r ->
  let run := processUserInput_afterTTS now PushToTalk p s in
  restartSteps (log run) = [Did (SetTimeout 200 RestartRecognition)]
  /\ suspendRecognitionRef (ctl run) = false
  /\ ignoreRecognitionUntilRef (ctl run) = (now + 900)%Z
  /\ state (ctl run) = Listening.
Proof.
  intros H1 H2. unfold processUserInput_afterTTS, processUserInput_finally.
  run_handler. destruct p; cbn; rewrite H1, H2; cbn; repeat split.
Qed.

(** After a failed request the restart is a direct call. *)
Lemma rejected_restarts_at_once fails now err r s :
  stoppedOrIdle s = false ->
  modeRef s = PushToTalk ->
  recognitionRef s = Some r ->
  let run := processUserInput_rejected fails now err s in
  restartSteps (log run) = attempts fails [RecogStart r]
  /\ suspendRecognitionRef (ctl run) = false
  /\ ignoreRecognitionUntilRef (ctl run) = (now + 900)%Z
  /\ state (ctl run) = Listening.
Proof.
  intros H1 H2 H3.
  assert (Hs : stoppedRef s = false).
  { unfold stoppedOrIdle in H1. now apply orb_false_elim in H1 as [H1 _]. }
  unfold processUserInput_rejected, processUserInput_finally.
  run_handler. rewrite Hs. cbn. rewrite H1. cbn. rewrite H2, H3. cbn.
  destruct (fails (RecogStart r)); cbn; repeat split.
Qed.

(** X10. The handlers of a turn in push-to-talk mode, one by one: the
    recognizer's completion event does nothing; [onresult] suspends and
    stops the recognizer before the accepted final result is sent, and
    neither it nor the audio callbacks start it; after playback the turn
    schedules the restart through a timer of 200 ms; after a failed
    request it calls [start()] at once, with no timer. *)
Theorem push_to_talk_restart_policy
  (fails : PlatformCall -> bool) (s : Session)
  (Hmode : modeRef s = PushToTalk) :
  (forall r, onend fails r s = untouched s)
  /\ (forall r now transcript fin uid ts c,
        let run := onresult fails r now transcript fin uid ts c s in
        restartSteps (log run) = []
        /\ (chatRequests (log run) <> [] ->
            In (Did (RecogStop r)) (stepsBefore isChatRequest (log run))
            /\ suspendRecognitionRef (ctl run) = true
            /\ fin = true))
  /\ (forall now url,
        restartSteps (log (audio_onended fails now url s)) = []
        /\ restartSteps (log (audio_onpause fails now url s)) = []
        /\ restartSteps (log (audio_onerror fails now url s)) = [])
  /\ (forall now p r,
        stoppedOrIdle s = false -> recognitionRef s = Some r ->
        restartSteps (log (processUserInput_afterTTS now PushToTalk p s))
        = [Did (SetTimeout 200 RestartRecognition)])
  /\ (forall now err r,
        stoppedOrIdle s = false -> recognitionRef s = Some r ->
        restartSteps (log (processUserInput_rejected fails now err s))
        = attempts fails [RecogStart r]).
Proof.
  split; [intros; now apply onend_push_to_talk|].
  split.
  { intros r now transcript fin uid ts c run. subst run. split.
    - now apply onresult_never_restarts.
    - now apply onresult_stops_before_request. }
  split; [intros; now apply audio_callbacks_never_restart|].
  split.
  - intros now p r H1 H2.
    now destruct (afterTTS_restarts_by_timer now p s H1 H2) as [H _].
  - intros now err r H1 H2.
    now destruct (rejected_restarts_at_once fails now err s H1 Hmode H2)
      as [H _].
Qed.

(** The answer to "what is my balance" fails on the network. *)
Lemma push_to_talk_restart_policy_witness :
  restartSteps
    (log (processUserInput_rejected noFailure 5000 networkError thinkingSession))
  = [Did (RecogStart 1)].
Proof.
  exact (proj2 (proj2 (proj2 (proj2
           (push_to_talk_restart_policy noFailure thinkingSession eq_refl))))
           5000%Z networkError 1 eq_refl eq_refl).
Defined.

(** On the error path the recognizer is started by a direct call, not
    after a delay of 150 to 200 ms. *)
Lemma restart_after_error_is_immediate :
  log (processUserInput_rejected noFailure 5000 networkError thinkingSession)
  = [Did (ToastError "Request failed" "Request failed: 502"); Wr CState;
     Wr CSuspendRecognition; Wr CIgnoreRecognitionUntil; Did (RecogStart 1);
     Wr CProcessing; Wr CIsProcessing]
  /\ ~ restartsAfterShortDelay
         (log (processUserInput_rejected noFailure 5000 networkError
                 thinkingSession)).
Proof.
  split; [reflexivity|].
  intros H. destruct (H (Did (RecogStart 1))) as (ms & Hms & _).
  - vm_compute. now left.
  - discriminate Hms.
Qed.

(** C6.  The claim holds of the recognizer's completion event, of the
    stop at the accepted final result and of the restart after playback,
    and fails after an error.  The chat request of a push-to-talk turn
    fails on the network: the [catch] block of [processUserInput] calls
    [start()] at once and sets no timer, so the restart does not come
    150 to 200 ms later; the re-render that [setState('listening')]
    brings about then runs the effect on [mode, state], which calls
    [stop()] on the recognizer, and the completion event that follows
    does nothing in push-to-talk mode: the last call on the recognizer is
    [stop()] and no restart is pending.  On the sibling path, after
    playback, the same re-render comes before the timer of 200 ms fires,
    and the last call is [start()]. *)
Theorem error_path_restart_is_undone :
  onend noFailure 1 thinkingSession = untouched thinkingSession
  /\ restartSteps
       (log (processUserInput_rejected noFailure 5000 networkError
               thinkingSession))
     = [Did (RecogStart 1)]
  /\ ~ restartsAfterShortDelay
        (log (processUserInput_rejected noFailure 5000 networkError
                thinkingSession))
  /\ logOfEvents noFailure
       [EChatRejected 5000 networkError; ERenderState; ERenderMode;
        ERecogEnd 1]
       thinkingSession
     = [Did (ToastError "Request failed" "Request failed: 502"); Wr CState;
        Wr CSuspendRecognition; Wr CIgnoreRecognitionUntil;
        Did (RecogStart 1); Wr CProcessing; Wr CIsProcessing;
        Wr CStateRef; Wr CModeRef; Did (RecogStop 1)]
  /\ recognizerCalls
       (logOfEvents noFailure
          [EChatRejected 5000 networkError; ERenderState; ERenderMode;
           ERecogEnd 1]
          thinkingSession)
     = [Did (RecogStart 1); Did (RecogStop 1)]
  /\ state
       (afterEvents noFailure
          [EChatRejected 5000 networkError; ERenderState; ERenderMode;
           ERecogEnd 1]
          thinkingSession)
     = Listening
  /\ restartSteps
       (log (processUserInput_afterTTS 9000 PushToTalk Resolved
               answeredSession))
     = [Did (SetTimeout 200 RestartRecognition)]
  /\ recognizerCalls
       (logOfEvents noFailure
          [ETtsSettled 9000 PushToTalk Resolved; ERenderState; ERenderMode;
           ERecogEnd 1; ETimerRestart]
          answeredSession)
     = [Did (RecogStop 1); Did (RecogStart 1)].
Proof.
  split; [reflexivity|]. split; [reflexivity|]. split.
  { intros H. destruct (H (Did (RecogStart 1))) as (ms & Hms & _).
    - vm_compute. now left.
    - discriminate Hms. }
  repeat split; reflexivity.
Qed.

(** ** Properties kept by handlers *)

Section Preservation.

Variable P : Session -> Prop.

Lemma preserves_ret {A : Type} (a : A) : preserves P (ret a).
Proof. now intros s. Qed.

Lemma preserves_get : preserves P get.
Proof. now intros s. Qed.

Lemma preserves_emit p : preserves P (emit p).
Proof. now intros s. Qed.

Lemma preserves_call fails p : preserves P (call fails p).
Proof. intros s H. unfold call. now destruct (fails p). Qed.

Lemma preserves_assign {V : Type} c (set : V -> Session -> Session) v :
  (forall s, P s -> P (set v s)) -> preserves P (assign c set v).
Proof. intros H s Hs. now apply H. Qed.

Lemma preserves_bind {A B : Type} (m : M A) (k : A -> M B) :
  preserves P m -> (forall a, preserves P (k a)) -> preserves P (bind m k).
Proof.
  intros Hm Hk s Hs. unfold bind. specialize (Hm s Hs).
  destruct (m s) as [[a|] s1 l1]; simpl in *; trivial.
  specialize (Hk a s1 Hm). now destruct (k a s1).
Qed.

Lemma preserves_tryCatch {A : Type} (body handler : M A) :
  preserves P body -> preserves P handler -> preserves P (tryCatch body handler).
Proof.
  intros Hb Hh s Hs. unfold tryCatch. specialize (Hb s Hs).
  destruct (body s) as [[a|] s1 l1]; simpl in *; trivial.
  specialize (Hh s1 Hb). now destruct (handler s1).
Qed.

Lemma preserves_tryFinally {A : Type} (body : M A) fin :
  preserves P body -> preserves P fin -> preserves P (tryFinally body fin).
Proof.
  intros Hb Hf s Hs. unfold tryFinally. specialize (Hb s Hs).
  destruct (body s) as [o s1 l1]; simpl in *.
  specialize (Hf s1 Hb). now destruct (fin s1) as [[[]|] s2 l2].
Qed.

Lemma preserves_whenSome {A : Type} (o : option A) (k : A -> M unit) :
  (forall a, preserves P (k a)) -> preserves P (whenSome o k).
Proof. intros H. destruct o; simpl; [apply H|apply preserves_ret]. Qed.

End Preservation.

(** Goals [preserves P m] for a handler built from the combinators, the
    assignments left to [tac]. *)
Ltac preserves_with tac :=
  repeat first
    [ apply preserves_ret | apply preserves_get | apply preserves_emit
    | apply preserves_call
    | apply preserves_bind; [|intros ?]
    | apply preserves_tryCatch | apply preserves_tryFinally
    | apply preserves_whenSome; intros ?
    | apply preserves_assign; intros ? ?; tac
    | match goal with
      | |- preserves _ (if ?b then _ else _) => destruct b
      | |- preserves _ (match ?o with _ => _ end) => destruct o
      end ].

(** The cleanup on unmount leaves the stopped flag set. *)
Lemma unmountCleanup_leaves_stopped fails s :
  stoppedRef (ctl (unmountCleanup fails s)) = true.
Proof.
  unfold unmountCleanup.
  rewrite (bind_returns _ _ s (a := tt)) by reflexivity.
  match goal with
  | |- stoppedRef (ctl (after _ (?rest ?s1))) = true =>
      assert (H : preserves (fun x => stoppedRef x = true) rest)
  end.
  { unfold ignore. preserves_with ltac:(simpl; assumption). }
  match goal with
  | |- stoppedRef (ctl (after _ ?r)) = true =>
      assert (G : stoppedRef (ctl r) = true) by (apply H; reflexivity);
      now destruct r
  end.
Qed.

(** ** The activity monitor *)

Lemma bind_of_run {A B : Type} (m : M A) (k : A -> M B) s a s1 l1 :
  m s = mkRun (Ok a) s1 l1 -> bind m k s = after l1 (k a s1).
Proof. intros H. unfold bind. now rewrite H. Qed.


Lemma monitor_needs_continuous fails s :
  modeRef s = PushToTalk -> startBargeInMonitor_begin fails s = mkRun (Ok false) s [].
Proof.
  intros H. unfold startBargeInMonitor_begin. run_handler. now rewrite H.
Qed.

















(** ** Invariants of the event loop *)

(** The handlers, unfolded down to the combinators. *)
Ltac unfold_handlers :=
  unfold handle, forget, start_begin, start_granted, start_denied, stop,
    unmountCleanup, setMode, clearTranscripts, effect_stateRef,
    effect_modeRef, onresult, onresult_accept, onerror, onend,
    processUserInput_begin, processUserInput_fulfilled,
    processUserInput_rejected, processUserInput_afterTTS,
    processUserInput_finally, playTTS_begin, playTTS_fetched, playTTS_catch,
    playTTS_play, audio_onended, audio_onpause, audio_onerror,
    audio_cancelled, releaseAudioUrl, startBargeInMonitor_begin,
    startBargeInMonitor_granted, startBargeInMonitor_denied,
    stopBargeInMonitor, vadTick, vadBargeIn, restartRecognition,
    clearLastAssistantText, ignore.

(** No handler lets the history grow beyond three entries. *)
Lemma handle_keeps_history_bounded fails e :
  preserves historyBounded (handle fails e).
Proof.
  destruct e; unfold_handlers; cbv zeta;
    preserves_with
      ltac:(unfold historyBounded in *; simpl;
            first [assumption | apply le_n_S, (firstn_le_length 2)]).
Qed.

Lemma history_bounded_always fails es : forall s,
  historyBounded s -> historyBounded (afterEvents fails es s).
Proof.
  induction es as [|e es IH]; intros s H; [exact H|].
  simpl. apply IH. now apply handle_keeps_history_bounded.
Qed.

(** An answered turn writes both cells of the echo memory; the handler
    keeps them in agreement. *)
Lemma fulfilled_keeps_echo_memory uid ts answer :
  preserves echoMemoryCoherent (processUserInput_fulfilled uid ts answer).
Proof.
  intros s H. unfold processUserInput_fulfilled, processUserInput_finally.
  run_handler. destruct (stoppedOrIdle s); cbn; trivial.
  destruct (Js.truthy answer); cbn; trivial.
  destruct (modeRef s); cbn; now right.
Qed.

(** No handler breaks the agreement of the two cells. *)
Lemma handle_keeps_echo_memory fails e :
  preserves echoMemoryCoherent (handle fails e).
Proof.
  destruct e;
    try (unfold handle, forget; apply preserves_bind;
         [apply fulfilled_keeps_echo_memory|intros ?; apply preserves_ret]);
    unfold_handlers; cbv zeta;
    preserves_with
      ltac:(unfold echoMemoryCoherent in *; simpl;
            first [assumption | now left]).
Qed.

Lemma echo_memory_always fails es : forall s,
  echoMemoryCoherent s -> echoMemoryCoherent (afterEvents fails es s).
Proof.
  induction es as [|e es IH]; intros s H; [exact H|].
  simpl. apply IH. now apply handle_keeps_echo_memory.
Qed.

(** Both hold of the component as mounted, hence after any events. *)
Lemma echo_memory_reachable fails es sessionId :
  let s := afterEvents fails es (initialSession sessionId) in
  echoMemoryCoherent s /\ historyBounded s.
Proof.
  split.
  - apply echo_memory_always. now left.
  - apply history_bounded_always. unfold historyBounded. simpl. lia.
Qed.

(** *** Steps a handler can log *)

Section Logs.

Variable Q : Step -> Prop.

Lemma logsOnly_ret {A : Type} (a : A) : logsOnly Q (ret a).
Proof. intros s. constructor. Qed.

Lemma logsOnly_get : logsOnly Q get.
Proof. intros s. constructor. Qed.

Lemma logsOnly_assign {V : Type} c (set : V -> Session -> Session) v :
  Q (Wr c) -> logsOnly Q (assign c set v).
Proof. intros H s. now repeat constructor. Qed.

Lemma logsOnly_emit p : Q (Did p) -> logsOnly Q (emit p).
Proof. intros H s. now repeat constructor. Qed.

Lemma logsOnly_call fails p :
  Q (Did p) -> Q (Raised p) -> logsOnly Q (call fails p).
Proof.
  intros H1 H2 s. unfold call. destruct (fails p); now repeat constructor.
Qed.

Lemma logsOnly_bind {A B : Type} (m : M A) (k : A -> M B) :
  logsOnly Q m -> (forall a, logsOnly Q (k a)) -> logsOnly Q (bind m k).
Proof.
  intros Hm Hk s. unfold bind. specialize (Hm s).
  destruct (m s) as [[a|] s1 l1]; simpl in *; trivial.
  rewrite log_after. apply Forall_app. split; [exact Hm|apply Hk].
Qed.

Lemma logsOnly_tryCatch {A : Type} (body handler : M A) :
  logsOnly Q body -> logsOnly Q handler -> logsOnly Q (tryCatch body handler).
Proof.
  intros Hb Hh s. unfold tryCatch. specialize (Hb s).
  destruct (body s) as [[a|] s1 l1]; simpl in *; trivial.
  rewrite log_after. apply Forall_app. split; [exact Hb|apply Hh].
Qed.

Lemma logsOnly_tryFinally {A : Type} (body : M A) fin :
  logsOnly Q body -> logsOnly Q fin -> logsOnly Q (tryFinally body fin).
Proof.
  intros Hb Hf s. unfold tryFinally. specialize (Hb s).
  destruct (body s) as [o s1 l1]; simpl in *. specialize (Hf s1).
  destruct (fin s1) as [[[]|] s2 l2]; simpl in *;
    apply Forall_app; now split.
Qed.

Lemma logsOnly_whenSome {A : Type} (o : option A) (k : A -> M unit) :
  (forall a, logsOnly Q (k a)) -> logsOnly Q (whenSome o k).
Proof. intros H. destruct o; simpl; [apply H|apply logsOnly_ret]. Qed.

End Logs.

(** Goals [logsOnly Q m] for a handler built from the combinators, the
    steps left to [tac]. *)
Ltac logsOnly_with tac :=
  repeat first
    [ apply logsOnly_ret | apply logsOnly_get
    | apply logsOnly_emit; tac
    | apply logsOnly_call; tac
    | apply logsOnly_assign; tac
    | apply logsOnly_bind; [|intros ?]
    | apply logsOnly_tryCatch | apply logsOnly_tryFinally
    | apply logsOnly_whenSome; intros ?
    | match goal with
      | |- logsOnly _ (if ?b then _ else _) => destruct b
      | |- logsOnly _ (match ?o with _ => _ end) => destruct o
      end ].

Lemma chatRequests_none l :
  Forall (fun st => isChatRequest st = false) l -> chatRequests l = [].
Proof.
  induction 1 as [|st l H _ IH]; [reflexivity|].
  unfold chatRequests in *. simpl. now rewrite H.
Qed.




(** ** One turn at a time *)




(** ** Failure of the chat request *)

(** What the rejection handler does in a stopped session: only the
    processing flags. *)
Lemma rejected_when_stopped fails now err s :
  stoppedRef s = true ->
  processUserInput_rejected fails now err s
  = mkRun (Ok tt) (set_isProcessing false (set_processingRef false s))
          [Wr CProcessing; Wr CIsProcessing].
Proof.
  intros H. unfold processUserInput_rejected, processUserInput_finally.
  run_handler. now rewrite H.
Qed.

Lemma aborts_none l :
  Forall (fun st => isAbort st = false) l -> aborts l = [].
Proof.
  induction 1 as [|st l H _ IH]; [reflexivity|].
  unfold aborts in *. simpl. now rewrite H.
Qed.

(** Only [stop], the unmount cleanup, an admitted turn and the start of a
    synthesis call [abort()]. *)
Lemma aborts_come_from fails e s :
  aborts (log (handle fails e s)) <> [] -> abortingEvent e = true.
Proof.
  intros H. destruct e; try reflexivity; exfalso; apply H;
    apply aborts_none;
    match goal with
    | |- Forall ?Q (log (?m s)) =>
        assert (G : logsOnly Q m);
        [unfold_handlers; cbv zeta; logsOnly_with ltac:(reflexivity)
        |apply G]
    end.
Qed.

(** A recognition result calls [abort()] only when it admits a turn, the
    processor being free. *)
Lemma result_aborts_when_free fails r now transcript fin uid ts c s :
  aborts (log (onresult fails r now transcript fin uid ts c s)) <> [] ->
  processingRef s = false.
Proof.
  destruct s.
  unfold onresult, onresult_accept, processUserInput_begin. run_handler.
  repeat (split_test; cbn; try (intros H; now exfalso)).
  all: intros _.
  all: destruct processingRef0; trivial; simpl in *; discriminate.
Qed.

(** X11. The handler of a rejected chat request.  It never throws and
    always ends the processing.  In a stopped session (as [stop] and the
    unmount cleanup leave it) the rejection is absorbed: no toast,
    nothing changed but the processing flags, and after [stop] the state
    stays idle.
    Otherwise the error is shown, and a session that is neither stopped
    nor idle goes to listening with recognition no longer suspended; the
    handler never sets the state to idle, thinking or speaking.  On the
    event loop [abort()] is called by [stop] and the unmount cleanup,
    which leave the stopped flag set, by the start of a synthesis (on the
    synthesis token), and by the admission of a turn, when no turn is
    being processed. *)
Theorem chat_failure_absorbed_or_surfaced
  (fails : PlatformCall -> bool) (now : Z) (err : JsError) (s : Session) :
  let run := processUserInput_rejected fails now err s in
  (out run = Ok tt
   /\ processingRef (ctl run) = false /\ isProcessing (ctl run) = false)
  /\ (stoppedRef s = true ->
      log run = [Wr CProcessing; Wr CIsProcessing]
      /\ ctl run = set_isProcessing false (set_processingRef false s))
  /\ (forall before,
        let absorbed :=
          processUserInput_rejected fails now err (ctl (stop fails before)) in
        log absorbed = [Wr CProcessing; Wr CIsProcessing]
        /\ ctl absorbed = ctl (stop fails before)
        /\ state (ctl absorbed) = Idle)
  /\ (forall before,
        log (processUserInput_rejected fails now err
               (ctl (unmountCleanup fails before)))
        = [Wr CProcessing; Wr CIsProcessing])
  /\ (stoppedRef s = false ->
      In (Did (ToastError (fst (getFriendlyError err))
                          (snd (getFriendlyError err))))
         (log run))
  /\ (stoppedOrIdle s = false ->
      state (ctl run) = Listening
      /\ suspendRecognitionRef (ctl run) = false)
  /\ (stoppedOrIdle s = true -> state (ctl run) = state s)
  /\ (state (ctl run) = Listening \/ state (ctl run) = state s)
  /\ (forall e,
        aborts (log (handle fails e s)) <> [] ->
        (e = EStop \/ e = EUnmount) /\ stoppedRef (ctl (handle fails e s)) = true
        \/ (exists now controller txt, e = EPlayBegin now controller txt)
        \/ (exists r now transcript fin uid ts controller,
              e = ERecogResult r now transcript fin uid ts controller)
           /\ processingRef s = false).
Proof.
  intros run. subst run.
  assert (Hlive : stoppedOrIdle s = false ->
                  state (ctl (processUserInput_rejected fails now err s))
                  = Listening
                  /\ suspendRecognitionRef
                       (ctl (processUserInput_rejected fails now err s))
                     = false).
  { intros H.
    assert (Hs : stoppedRef s = false).
    { unfold stoppedOrIdle in H. now apply orb_false_elim in H as [H _]. }
    unfold processUserInput_rejected, processUserInput_finally.
    run_handler. rewrite Hs. cbn. rewrite H. cbn.
    destruct (modeRef s); cbn; [|now split].
    destruct (recognitionRef s) as [r|]; cbn; [|now split].
    destruct (fails (RecogStart r)); cbn; now split. }
  assert (Hidle : stoppedOrIdle s = true ->
                  state (ctl (processUserInput_rejected fails now err s))
                  = state s).
  { intros H.
    unfold processUserInput_rejected, processUserInput_finally.
    run_handler. destruct (stoppedRef s); cbn; trivial. now rewrite H. }
  split.
  { unfold processUserInput_rejected, processUserInput_finally.
    run_handler.
    repeat (split_test; cbn; try (repeat split; reflexivity)). }
  split.
  { intros H. now rewrite (rejected_when_stopped fails now err s H). }
  split.
  { intros before absorbed. subst absorbed.
    rewrite (rejected_when_stopped fails now err (ctl (stop fails before)))
      by now rewrite stop_eq.
    rewrite stop_eq. now repeat split. }
  split.
  { intros before.
    now rewrite (rejected_when_stopped fails now err _
                   (unmountCleanup_leaves_stopped fails before)). }
  split.
  { intros H. unfold processUserInput_rejected, processUserInput_finally.
    run_handler. rewrite H. cbn.
    repeat (split_test; cbn; auto). }
  split; [exact Hlive|]. split; [exact Hidle|].
  split.
  { destruct (stoppedOrIdle s) eqn:E.
    - right. now apply Hidle.
    - left. now apply Hlive. }
  intros e H. pose proof (aborts_come_from fails e s H) as He.
  destruct e; try discriminate He.
  - left. split; [now left|]. simpl. now rewrite stop_eq.
  - left. split; [now right|]. apply unmountCleanup_leaves_stopped.
  - right. right. split; [now repeat eexists|].
    exact (result_aborts_when_free _ _ _ _ _ _ _ _ _ H).
  - right. left. now repeat eexists.
Qed.

(** The answer to "what is my balance" fails on the network: the error
    is shown and the session listens again.  When instead the user stops
    the session, the rejection of the aborted request passes unnoticed. *)
Lemma chat_failure_absorbed_or_surfaced_witness :
  state (ctl (processUserInput_rejected noFailure 5000 networkError
                thinkingSession))
  = Listening
  /\ log (processUserInput_rejected noFailure 5000 abortError
            (ctl (stop noFailure thinkingSession)))
     = [Wr CProcessing; Wr CIsProcessing].
Proof.
  pose proof (chat_failure_absorbed_or_surfaced noFailure 5000 networkError
                thinkingSession) as (_ & _ & _ & _ & _ & Hlive & _).
  pose proof (chat_failure_absorbed_or_surfaced noFailure 5000 abortError
                thinkingSession) as (_ & _ & Hstop & _).
  exact (conj (proj1 (Hlive eq_refl)) (proj1 (Hstop thinkingSession))).
Defined.

(** C8.  The claim holds of what is not a cancellation (the error is
    shown and a live session returns to listening, never to idle) and of
    a cancellation by [stop] or by the unmount cleanup, and fails for a
    cancellation whose rejection arrives while the stopped flag is
    clear.  The [catch] block of [processUserInput] tests the flag only
    (its comment expects the API client to mark cancellations, which the
    client does not do), whereas the [catch] of [playTTS] tests the flag
    or the [AbortError] of the cancelled fetch.  In [staleTurnTrace] the
    third turn cancels the outstanding request 11 on purpose ("Abort any
    previous query") and sends request 12; the rejection of request 11
    is then shown as "Request failed".  (Controller 20 is that of the
    first synthesis.)  The same rejection is absorbed
    in a stopped session, and a cancelled synthesis is absorbed in the
    very session that shows the cancelled chat request. *)
Theorem aborted_request_is_toasted :
  let before := afterEvents noFailure (removelast staleTurnTrace)
                  (initialSession "sid") in
  requestSteps (logOfEvents noFailure staleTurnTrace (initialSession "sid"))
  = [Did (ChatRequest "what is my balance" "sid" 10);
     Did (Abort 10); Did (Abort 20);
     Did (ChatRequest "and what about my bill" "sid" 11);
     Did (Abort 11);
     Did (ChatRequest "please open a ticket" "sid" 12);
     Did (ToastError "Request failed" "The user aborted a request.")]
  /\ stoppedRef before = false
  /\ log (processUserInput_rejected noFailure 40100 abortError before)
     = [Did (ToastError "Request failed" "The user aborted a request.");
        Wr CState; Wr CSuspendRecognition; Wr CProcessing; Wr CIsProcessing]
  /\ ~ absorbsCancellation noFailure 40100 before
  /\ absorbsCancellation noFailure 40100 (ctl (stop noFailure before))
  /\ playTTS_catch noFailure 40100 true before
     = mkRun (Ok Resolved)
         (ctl (playTTS_catch noFailure 40100 true before))
         [Wr CIsSpeaking; Wr CTtsEndTime; Wr CIgnoreRecognitionUntil;
          Wr CVadConsecutive; Wr CSuspendRecognition].
Proof.
  cbv zeta. split; [vm_compute; reflexivity|].
  split; [vm_compute; reflexivity|].
  split; [vm_compute; reflexivity|]. split.
  { intros H.
    apply (H "Request failed" "The user aborted a request.").
    vm_compute. now left. }
  split; [|vm_compute; reflexivity].
  intros title description H. vm_compute in H.
  repeat (destruct H as [H|H]; [discriminate H|]). exact H.
Qed.

(** ** The assistant utterance history *)

Lemma firstn_3_bounded {A : Type} (l : list A) : List.length (firstn 3 l) <= 3.
Proof. apply firstn_le_length. Qed.

(** X12. The history, handler by handler.  An answered turn puts the
    answer in front of the history and keeps the three most recent
    entries, most recent first; whatever events have run, the history
    holds at most three.  The timer that follows a turn, of 12000 ms, assigns the cell
    [lastAssistantTextRef] only, and neither it nor [stop] assigns the
    history. *)
Theorem history_bounded_and_kept (s : Session) :
  (forall uid ts answer,
     stoppedOrIdle s = false -> Js.truthy answer = true ->
     let run := processUserInput_fulfilled uid ts answer s in
     assistantUtterancesRef (ctl run)
     = answer :: firstn 2 (assistantUtterancesRef s)
     /\ List.length (assistantUtterancesRef (ctl run)) <= 3
     /\ lastAssistantTextRef (ctl run) = answer)
  /\ (forall now m p,
        stoppedOrIdle s = false ->
        let run := processUserInput_afterTTS now m p s in
        In (Did (SetTimeout 12000 ClearLastAssistantText)) (log run)
        /\ assistantUtterancesRef (ctl run) = assistantUtterancesRef s)
  /\ (clearLastAssistantText s
      = mkRun (Ok tt) (set_lastAssistantTextRef "" s) [Wr CLastAssistantText]
      /\ assistantUtterancesRef (ctl (clearLastAssistantText s))
         = assistantUtterancesRef s
      /\ lastAssistantTextRef (ctl (clearLastAssistantText s)) = "")
  /\ (forall fails,
        assistantUtterancesRef (ctl (stop fails s)) = assistantUtterancesRef s)
  /\ (forall fails events sessionId,
        List.length
          (assistantUtterancesRef
             (afterEvents fails events (initialSession sessionId)))
        <= 3).
Proof.
  split.
  { intros uid ts answer H1 H2 run. subst run.
    unfold processUserInput_fulfilled, processUserInput_finally.
    run_handler. rewrite H1, H2. cbn.
    destruct (modeRef s); cbn; repeat split;
      apply le_n_S, (firstn_le_length 2). }
  split.
  { intros now m p H run. subst run.
    unfold processUserInput_afterTTS, processUserInput_finally.
    run_handler. destruct p; cbn; rewrite H; cbn;
      (destruct m; cbn; [destruct (recognitionRef s); cbn|]); auto. }
  split; [now repeat split|].
  split; [intros fails; now rewrite stop_eq|].
  intros fails events sessionId.
  apply (echo_memory_reachable fails events sessionId).
Qed.

(** A turn answered in the session after the balance answer. *)
Lemma history_bounded_and_kept_witness :
  assistantUtterancesRef
    (ctl (processUserInput_fulfilled "u2" "t2" "Your bill is due on Friday"
            afterBalanceAnswer))
  = ["Your bill is due on Friday"; balanceUtterance].
Proof.
  exact (proj1 (proj1 (history_bounded_and_kept afterBalanceAnswer)
                  "u2" "t2" "Your bill is due on Friday" eq_refl eq_refl)).
Defined.

(** C9.  The claim holds of the bound and of the order, and fails for
    the expiry.  The turn that
    answers with the balance sets the timer of 12000 ms (page.tsx 817:
    "Clear the echo filter after a short grace period"); when it fires,
    the closure empties [lastAssistantTextRef], which held a copy of the
    first entry of the history, and leaves the history as it was: the
    entry is still compared against, and the verdicts of the echo filter
    on the answer heard back are what they were before the timer. *)
Theorem history_survives_the_timer :
  let expired := ctl (clearLastAssistantText afterBalanceAnswer) in
  In (Did (SetTimeout 12000 ClearLastAssistantText))
     (log (processUserInput_afterTTS 1000 Continuous Resolved
             afterBalanceAnswer))
  /\ log (clearLastAssistantText afterBalanceAnswer) = [Wr CLastAssistantText]
  /\ lastAssistantTextRef expired = ""
  /\ assistantUtterancesRef expired = [balanceUtterance]
  /\ echoCandidates expired = ["your balance is five hundred rupees"]
  /\ ~ historyExpires afterBalanceAnswer
  /\ (sanitizeTailEcho afterBalanceAnswer 1400 balanceUtterance = None
      /\ sanitizeTailEcho expired 1400 balanceUtterance = None)
  /\ (isSimilarToLastResponse afterBalanceAnswer 5000 balanceUtterance = true
      /\ isSimilarToLastResponse expired 5000 balanceUtterance = true).
Proof.
  cbv zeta. split; [vm_compute; auto|].
  split; [reflexivity|]. split; [reflexivity|]. split; [reflexivity|].
  split; [reflexivity|]. split; [unfold historyExpires; discriminate|].
  split; split; reflexivity.
Qed.

(* ================================================================== *)
(** * Part III. Further properties of the page and of what it calls    *)
(* ================================================================== *)

(** ** The echo filter *)

Lemma matchCount_le inputWords responseWords :
  matchCount inputWords responseWords <= List.length inputWords.
Proof. unfold matchCount. apply filter_length_le. Qed.

Lemma ratioOf_bounds m n : m <= n -> (0 <= ratioOf m n)%Q /\ (ratioOf m n <= 1)%Q.
Proof.
  intros H. unfold ratioOf, Qle. simpl. split; [lia|].
  destruct n as [|n].
  - assert (m = 0) by lia. subst. simpl. lia.
  - rewrite Z.mul_1_r.
    assert (E : Z.pos (Pos.of_nat (S n)) = Z.of_nat (S n)).
    { rewrite <- positive_nat_Z, Nat2Pos.id; [reflexivity|discriminate]. }
    rewrite E. lia.
Qed.

Lemma overlapLoop_bounds inputWords : forall candidates best,
  (0 <= best)%Q -> (best <= 1)%Q ->
  (0 <= overlapLoop inputWords candidates best)%Q
  /\ (overlapLoop inputWords candidates best <= 1)%Q.
Proof.
  induction candidates as [|c rest IH]; intros best H0 H1; simpl; [now split|].
  destruct (Nat.ltb (Js.setSize (significantWords c)) 2); [now apply IH|].
  destruct (ratioOf_bounds (matchCount_le inputWords (significantWords c)))
    as [R0 R1].
  set (ratio := ratioOf (matchCount inputWords (significantWords c))
                        (List.length inputWords)) in *.
  assert (B : (0 <= (if Qltb best ratio then ratio else best))%Q
              /\ ((if Qltb best ratio then ratio else best) <= 1)%Q)
    by (destruct (Qltb best ratio); now split).
  destruct B as [B0 B1].
  destruct (Qle_bool (9 # 10) (if Qltb best ratio then ratio else best));
    [now split|now apply IH].
Qed.

Lemma nodup_length_le (l : list string) :
  List.length (nodup string_dec l) <= List.length l.
Proof.
  induction l as [|a l IH]; simpl; [lia|].
  destruct (in_dec string_dec a l); simpl; lia.
Qed.

Lemma has_member (ws : list string) (w : string) :
  In w ws -> Js.has ws w = true.
Proof.
  intros H. unfold Js.has. apply existsb_exists. exists w.
  split; [exact H|apply String.eqb_refl].
Qed.

Lemma matchCount_self (ws : list string) :
  matchCount ws ws = List.length ws.
Proof.
  unfold matchCount. f_equal. apply forallb_filter_id.
  apply forallb_forall. intros w. apply has_member.
Qed.

Lemma eligible_words (c : string) :
  eligible c = true -> 2 <= List.length (significantWords c).
Proof.
  unfold eligible. rewrite negb_true_iff, Nat.ltb_ge. intros H.
  pose proof (nodup_length_le (significantWords c)). unfold Js.setSize in H.
  lia.
Qed.

Lemma eligible_truthy (c : string) : eligible c = true -> Js.truthy c = true.
Proof.
  intros H. apply eligible_words in H. destruct c; [simpl in H; lia|reflexivity].
Qed.

(** A remembered text that is not blank is a candidate. *)
Lemma remembered_candidate (s : Session) (u : string) :
  In u (lastAssistantTextRef s :: assistantUtterancesRef s) ->
  Js.truthy (Js.trim (Js.toLowerCase u)) = true ->
  In (Js.trim (Js.toLowerCase u)) (echoCandidates s).
Proof.
  intros Hin Ht. unfold echoCandidates. apply filter_In. split; [|exact Ht].
  now apply (in_map (fun x => Js.trim (Js.toLowerCase x))).
Qed.

Lemma wordOverlap_self (c : string) :
  1 <= List.length (significantWords c) ->
  (wordOverlap (significantWords c) c == 1)%Q.
Proof.
  intros H. unfold wordOverlap. rewrite matchCount_self.
  unfold ratioOf, Qeq. simpl.
  assert (E : Z.pos (Pos.of_nat (List.length (significantWords c)))
              = Z.of_nat (List.length (significantWords c))).
  { rewrite <- positive_nat_Z, Nat2Pos.id; [reflexivity|lia]. }
  rewrite E. lia.
Qed.

(** X1. An answer of the assistant heard back inside the ignore window is
    discarded.  For ASCII text: when the transcript is, up to case and
    surrounding white space, a remembered assistant text (the last
    assistant text or an entry of the history) that has at least two
    distinct words longer than two characters, the ratio of
    [assistantEchoOverlapRatio] is 0.9 or more, the tail-echo block
    discards the transcript, and [onresult] returns having done
    nothing. *)
Theorem verbatim_echo_is_discarded
  (s : Session) (now : Z) (u txt : string)
  (Htext : Js.isAscii txt = true) (Hmemory : asciiMemory s = true)
  (Hmem : In u (lastAssistantTextRef s :: assistantUtterancesRef s))
  (Hsame : Js.trim (Js.toLowerCase txt) = Js.trim (Js.toLowerCase u))
  (Hwords : eligible (Js.trim (Js.toLowerCase u)) = true)
  (Hnow : (0 <= now)%Z) (Hwindow : (now < ignoreRecognitionUntilRef s)%Z) :
  (9 # 10 <= assistantEchoOverlapRatio s txt)%Q
  /\ sanitizeTailEcho s now txt = None
  /\ forall fails r transcript fin uid ts controller,
       Js.isAscii transcript = true ->
       Js.trim transcript = txt ->
       onresult fails r now transcript fin uid ts controller s = untouched s.
Proof.
  pose proof (eligible_words _ Hwords) as Hlen.
  assert (Hratio : (9 # 10 <= assistantEchoOverlapRatio s txt)%Q).
  { destruct (assistantEchoOverlapRatio_words s txt) as [_ H].
    rewrite Hsame in H. apply (H Hlen); [reflexivity|apply Qle_refl|].
    exists (Js.trim (Js.toLowerCase u)). split; [|split; [exact Hwords|]].
    - apply remembered_candidate; [exact Hmem|now apply eligible_truthy].
    - rewrite wordOverlap_self by lia. discriminate. }
  assert (Hnone : sanitizeTailEcho s now txt = None).
  { unfold sanitizeTailEcho. rewrite (inIgnoreWindow_open s Hnow Hwindow).
    assert (H85 : Qle_bool (85 # 100) (assistantEchoOverlapRatio s txt) = true).
    { apply Qle_bool_iff. eapply Qle_trans; [|exact Hratio]. discriminate. }
    now rewrite H85. }
  split; [exact Hratio|]. split; [exact Hnone|].
  intros fails r transcript fin uid ts controller _ <-.
  now apply onresult_discards.
Qed.

(** The balance answer comes back in capitals, with blanks around it. *)
Lemma verbatim_echo_is_discarded_witness :
  sanitizeTailEcho afterBalanceAnswer 1400
    "  YOUR BALANCE is five hundred rupees "
  = None.
Proof.
  exact (proj1 (proj2 (@verbatim_echo_is_discarded afterBalanceAnswer 1400
           balanceUtterance "  YOUR BALANCE is five hundred rupees "
           eq_refl eq_refl (or_introl eq_refl) eq_refl eq_refl
           ltac:(vm_compute; discriminate) ltac:(vm_compute; reflexivity)))).
Defined.

Lemma overlapLoop_ineligible inputWords : forall candidates best,
  (forall c, In c candidates -> eligible c = false) ->
  overlapLoop inputWords candidates best = best.
Proof.
  induction candidates as [|c rest IH]; intros best H; [reflexivity|].
  simpl. pose proof (H c (or_introl eq_refl)) as Hc.
  unfold eligible in Hc. apply negb_false_iff in Hc. rewrite Hc.
  apply IH. intros c' Hin. apply H. now right.
Qed.

(** X2. Short answers never count as echo by the ratio.  For ASCII text:
    when no remembered assistant text has two distinct words longer than
    two characters (in particular when nothing is remembered), the ratio
    is 0 for every transcript, and the tail-echo block passes every
    transcript on unchanged, inside the ignore window as outside. *)
Theorem short_answers_never_count
  (s : Session) (now : Z) (txt : string)
  (Htext : Js.isAscii txt = true) (Hmemory : asciiMemory s = true)
  (Hshort : forall c, In c (echoCandidates s) -> eligible c = false) :
  assistantEchoOverlapRatio s txt = 0%Q
  /\ sanitizeTailEcho s now txt = Some txt.
Proof.
  assert (H : assistantEchoOverlapRatio s txt = 0%Q).
  { unfold assistantEchoOverlapRatio.
    destruct (negb (Js.truthy (Js.trim (Js.toLowerCase txt)))); [reflexivity|].
    destruct (Nat.ltb _ 2); [reflexivity|].
    now apply overlapLoop_ineligible. }
  split; [exact H|]. unfold sanitizeTailEcho. rewrite H.
  now destruct (inIgnoreWindow s now).
Qed.

(** After the answer "Yes", the user's "yes yes please" passes the
    block inside the ignore window. *)
Lemma short_answers_never_count_witness :
  sanitizeTailEcho afterYesAnswer 1400 "yes yes please" = Some "yes yes please".
Proof.
  refine (proj2 (@short_answers_never_count afterYesAnswer 1400
                   "yes yes please" eq_refl eq_refl _)).
  intros c Hc. vm_compute in Hc.
  destruct Hc as [<- | [<- | []]]; reflexivity.
Defined.

(** X3. The ratio of [assistantEchoOverlapRatio] is a fraction between 0
    and 1, whatever the transcript and the remembered texts (ASCII), so
    that each transcript falls in exactly one of the three bands of the
    tail-echo block. *)
Theorem overlap_ratio_bounds (s : Session) (txt : string)
  (Htext : Js.isAscii txt = true) (Hmemory : asciiMemory s = true) :
  (0 <= assistantEchoOverlapRatio s txt)%Q
  /\ (assistantEchoOverlapRatio s txt <= 1)%Q
  /\ ((85 # 100 <= assistantEchoOverlapRatio s txt)%Q
      \/ ((35 # 100 <= assistantEchoOverlapRatio s txt)%Q
          /\ (assistantEchoOverlapRatio s txt < 85 # 100)%Q)
      \/ (assistantEchoOverlapRatio s txt < 35 # 100)%Q).
Proof.
  assert (B : (0 <= assistantEchoOverlapRatio s txt)%Q
              /\ (assistantEchoOverlapRatio s txt <= 1)%Q).
  { unfold assistantEchoOverlapRatio.
    destruct (negb (Js.truthy (Js.trim (Js.toLowerCase txt))));
      [split; discriminate|].
    destruct (Nat.ltb _ 2); [split; discriminate|].
    apply overlapLoop_bounds; discriminate. }
  destruct B as [B0 B1]. split; [exact B0|]. split; [exact B1|].
  destruct (Qlt_le_dec (assistantEchoOverlapRatio s txt) (85 # 100)) as [H|H];
    [|now left].
  destruct (Qlt_le_dec (assistantEchoOverlapRatio s txt) (35 # 100)) as [G|G];
    [now right; right|right; left; now split].
Qed.

Lemma overlap_ratio_bounds_witness :
  (assistantEchoOverlapRatio afterBalanceAnswer balanceAndThanks <= 1)%Q.
Proof.
  exact (proj1 (proj2 (@overlap_ratio_bounds afterBalanceAnswer
                         balanceAndThanks eq_refl eq_refl))).
Defined.

(** *** What the stripping leaves *)

Lemma append_nil_r (a : string) : (a ++ "")%string = a.
Proof. induction a as [|c a IH]; simpl; congruence. Qed.

Lemma append_assoc (a b c : string) :
  ((a ++ b) ++ c)%string = (a ++ (b ++ c))%string.
Proof. induction a as [|x a IH]; simpl; congruence. Qed.

Lemma isSuffix_refl s : isSuffix s s.
Proof. now exists "". Qed.

Lemma isSuffix_trans a b c : isSuffix a b -> isSuffix b c -> isSuffix a c.
Proof.
  intros [x ->] [y ->]. exists (y ++ x)%string. now rewrite append_assoc.
Qed.

Lemma substring_whole (s : string) : forall m,
  String.length s <= m -> substring 0 m s = s.
Proof.
  induction s as [|c s IH]; intros m H; destruct m; simpl in *;
    try reflexivity; try lia.
  rewrite IH; [reflexivity|lia].
Qed.

Lemma substring_isSuffix (s : string) : forall n m,
  String.length s <= n + m -> isSuffix (substring n m s) s.
Proof.
  induction s as [|c s IH]; intros n m H.
  - destruct n, m; apply isSuffix_refl.
  - destruct n as [|n].
    + rewrite substring_whole by lia. apply isSuffix_refl.
    + simpl. destruct (IH n m) as [d Hd]; [simpl in H; lia|].
      exists (String c d). simpl. now rewrite <- Hd.
Qed.

Lemma sliceFrom_isSuffix (s : string) (k : nat) :
  isSuffix (Js.sliceFrom s (Z.of_nat k)) s.
Proof.
  unfold Js.sliceFrom. apply substring_isSuffix. lia.
Qed.

Lemma trimStart_isSuffix (s : string) : isSuffix (Js.trimStart s) s.
Proof.
  induction s as [|c s IH]; simpl; [apply isSuffix_refl|].
  destruct (Js.isSpace c); [|apply isSuffix_refl].
  destruct IH as [d Hd]. exists (String c d). simpl. now rewrite <- Hd.
Qed.

(** X4. Stripping only drops a leading part of the transcript: for ASCII
    text, what [stripAssistantEchoFromText] returns is a suffix of the
    transcript as it was recognised (its case kept), possibly all of it
    or nothing; so is every text that leaves the tail-echo block. *)
Theorem strip_leaves_a_suffix (s : Session) (txt : string)
  (Htext : Js.isAscii txt = true) (Hmemory : asciiMemory s = true) :
  isSuffix (stripAssistantEchoFromText s txt) txt
  /\ forall now cleaned,
       sanitizeTailEcho s now txt = Some cleaned -> isSuffix cleaned txt.
Proof.
  assert (H : isSuffix (stripAssistantEchoFromText s txt) txt).
  { destruct (stripAssistantEchoFromText_form s txt)
      as [-> | [[-> _] | (c & k & _ & -> & _)]].
    - apply isSuffix_refl.
    - exists txt. now rewrite append_nil_r.
    - eapply isSuffix_trans; [apply trimStart_isSuffix|apply sliceFrom_isSuffix]. }
  split; [exact H|].
  intros now cleaned. unfold sanitizeTailEcho.
  destruct (inIgnoreWindow s now); [|intros [= <-]; apply isSuffix_refl].
  destruct (Qle_bool (85 # 100) _); [discriminate|].
  destruct (Qle_bool (35 # 100) _); [|intros [= <-]; apply isSuffix_refl].
  destruct (negb (Js.truthy (stripAssistantEchoFromText s txt)));
    [discriminate|].
  now intros [= <-].
Qed.

Lemma strip_leaves_a_suffix_witness :
  isSuffix (stripAssistantEchoFromText afterBalanceAnswer balanceAndThanks)
           balanceAndThanks.
Proof.
  exact (proj1 (@strip_leaves_a_suffix afterBalanceAnswer balanceAndThanks
                  eq_refl eq_refl)).
Defined.

(** *** The filter after playback *)

Lemma prefix_refl (s : string) : String.prefix s s = true.
Proof.
  induction s as [|c s IH]; simpl; [reflexivity|].
  destruct (ascii_dec c c); [exact IH|congruence].
Qed.

Lemma includes_refl (s : string) : Js.includes s s = true.
Proof.
  unfold Js.includes, Js.indexOf. destruct s as [|c s]; [reflexivity|].
  cbn [String.index]. now rewrite prefix_refl.
Qed.

Lemma similarLoop_member (t : string) : forall candidates,
  In t candidates -> 3 < String.length t -> similarLoop t candidates = true.
Proof.
  induction candidates as [|c rest IH]; intros Hin Hlen; [destruct Hin|].
  cbn [similarLoop].
  destruct (andb (orb (Js.includes c t) (Js.includes t (Js.sliceTo c 24)))
                 (Nat.ltb 3 (String.length t))) eqn:Htest; [reflexivity|].
  destruct Hin as [-> | Hin].
  - rewrite includes_refl in Htest. apply Nat.ltb_lt in Hlen.
    rewrite Hlen in Htest. discriminate Htest.
  - destruct (orb (Nat.ltb _ 2) _); [now apply IH|].
    destruct (Qltb _ _); [reflexivity|now apply IH].
Qed.

Lemma inEchoWindow_test (s : Session) (now : Z) (txt : string) :
  inEchoWindow s now ->
  isSimilarToLastResponse s now txt
  = if negb (Js.truthy (Js.trim (Js.toLowerCase txt))) then false
    else similarLoop (Js.trim (Js.toLowerCase txt)) (echoCandidates s).
Proof.
  intros H. unfold isSimilarToLastResponse. cbv zeta.
  match goal with
  | |- (if negb ?w then _ else _) = _ => assert (Hw : w = true)
  end.
  { destruct H as [[H1 H2] | (H1 & H2 & H3)]; apply orb_true_iff.
    - left. apply andb_true_iff. split; [now apply Z.ltb_lt|now apply Z.leb_le].
    - right. rewrite !andb_true_iff. repeat split.
      + now apply Z.eqb_eq.
      + now apply Z.ltb_lt.
      + apply Z.leb_le. lia. }
  now rewrite Hw.
Qed.

(** Outside the window nothing is similar. *)
Lemma outside_echo_window (s : Session) (now : Z) (txt : string) :
  ~ inEchoWindow s now -> isSimilarToLastResponse s now txt = false.
Proof.
  intros H. unfold isSimilarToLastResponse. cbv zeta.
  match goal with
  | |- (if negb ?w then _ else _) = _ => destruct w eqn:Hw; [|reflexivity]
  end.
  exfalso. apply H. apply orb_true_iff in Hw as [Hw|Hw].
  - left. apply andb_true_iff in Hw as [H1 H2].
    split; [now apply Z.ltb_lt|now apply Z.leb_le].
  - right. rewrite !andb_true_iff in Hw. destruct Hw as [[H1 H2] H3].
    apply Z.eqb_eq in H1. apply Z.ltb_lt in H2. apply Z.leb_le in H3.
    repeat split; trivial; lia.
Qed.

(** X5. The second echo filter, [isSimilarToLastResponse], works in a
    window of its own: up to 6000 ms after the end of a playback, or up
    to 8000 ms after its start while it has not ended.  For ASCII text:
    outside that window no transcript is similar; inside it, once the
    ignore window is over, a transcript that is, up to case and
    surrounding white space, a remembered assistant text of more than 3
    characters is similar, and [onresult] returns having done nothing:
    the transcript is neither shown nor sent. *)
Theorem echo_after_playback_is_dropped
  (s : Session) (now : Z) (u transcript : string)
  (Htext : Js.isAscii transcript = true) (Hmemory : asciiMemory s = true)
  (Hmem : In u (lastAssistantTextRef s :: assistantUtterancesRef s))
  (Hsame : Js.trim (Js.toLowerCase (Js.trim transcript))
           = Js.trim (Js.toLowerCase u))
  (Hlong : 3 < String.length (Js.trim (Js.toLowerCase u)))
  (Hclosed : (ignoreRecognitionUntilRef s <= now)%Z) :
  (inEchoWindow s now ->
     isSimilarToLastResponse s now (Js.trim transcript) = true
     /\ forall fails r fin uid ts controller,
          onresult fails r now transcript fin uid ts controller s = untouched s)
  /\ (~ inEchoWindow s now ->
      forall txt, isSimilarToLastResponse s now txt = false).
Proof.
  split; [|intros H txt; now apply outside_echo_window].
  intros Hwindow.
  assert (Htruthy : Js.truthy (Js.trim (Js.toLowerCase u)) = true)
    by (destruct (Js.trim (Js.toLowerCase u)); [simpl in Hlong; lia|reflexivity]).
  assert (Hsim : isSimilarToLastResponse s now (Js.trim transcript) = true).
  { rewrite (inEchoWindow_test (Js.trim transcript) Hwindow), Hsame, Htruthy.
    simpl. apply similarLoop_member; [|exact Hlong].
    now apply remembered_candidate. }
  split; [exact Hsim|].
  intros fails r fin uid ts controller.
  unfold onresult. rewrite get_then.
  destruct (stoppedOrIdle s); [reflexivity|].
  destruct (suspendRecognitionRef s); [reflexivity|].
  assert (Hpass : sanitizeTailEcho s now (Js.trim transcript)
                  = Some (Js.trim transcript)).
  { unfold sanitizeTailEcho, inIgnoreWindow.
    assert (E : (now <? ignoreRecognitionUntilRef s)%Z = false)
      by (apply Z.ltb_ge; exact Hclosed).
    now rewrite E, andb_false_r. }
  rewrite Hpass. unfold onresult_accept. rewrite get_then.
  destruct (andb _ _); [reflexivity|].
  destruct (isSpeakingRef s); [reflexivity|].
  now rewrite Hsim.
Qed.

(** The balance answer is heard back two seconds after it ended. *)
Lemma echo_after_playback_is_dropped_witness :
  onresult noFailure 1 3000 " your balance is five hundred rupees" true
    "u" "t" 9 afterBalanceAnswer
  = untouched afterBalanceAnswer.
Proof.
  exact (proj2 (proj1 (@echo_after_playback_is_dropped afterBalanceAnswer 3000
                         balanceUtterance
                         " your balance is five hundred rupees"
                         eq_refl eq_refl (or_introl eq_refl) eq_refl
                         ltac:(vm_compute; lia) ltac:(simpl; lia))
                  ltac:(left; split; simpl; lia))
               noFailure 1 true "u" "t" 9).
Defined.

(** ** The transcript list and its view *)


Lemma latestLoop_finds : forall fromLast u a,
  latestLoop fromLast u a
  = (match u with
     | Some _ => u
     | None => find (fun t => Role_eqb (role t) User) fromLast
     end,
     match a with
     | Some _ => a
     | None => find (fun t => Role_eqb (role t) Assistant) fromLast
     end).
Proof.
  induction fromLast as [|t rest IH]; intros u a; simpl.
  - now destruct u, a.
  - destruct u as [u|], a as [a|]; simpl; try reflexivity;
      destruct (role t); simpl; rewrite ?IH; reflexivity.
Qed.

Lemma latestOf_find (r : Role) (transcripts : list VoiceTranscript) :
  latestOf r transcripts
  = find (fun t => Role_eqb (role t) r) (rev transcripts).
Proof.
  unfold latestOf, latestEntries. rewrite latestLoop_finds. now destruct r.
Qed.

Lemma Role_eqb_eq (a b : Role) : Role_eqb a b = true <-> a = b.
Proof. destruct a, b; simpl; split; congruence. Qed.

Lemma find_first {A : Type} (p : A -> bool) : forall l,
  match find p l with
  | Some e => exists before after,
                l = before ++ e :: after /\ p e = true
                /\ Forall (fun x => p x = false) before
  | None => Forall (fun x => p x = false) l
  end.
Proof.
  induction l as [|x l IH]; simpl; [constructor|].
  destruct (p x) eqn:Hx.
  - exists [], l. repeat split; trivial.
  - destruct (find p l) as [e|].
    + destruct IH as (before & after & -> & He & Hb).
      exists (x :: before), after. repeat split; trivial. now constructor.
    + now constructor.
Qed.

(** X6. The transcript view shows, for each role, the last entry of that
    role: [latestUser] (or [latestAssistant]) is an entry of the list
    with that role after which no entry of the role follows, and it is
    undefined exactly when the list has no entry of the role.  Leaving
    the loop early, once both are found, changes nothing. *)
Theorem latest_entries_are_the_last (r : Role) (transcripts : list VoiceTranscript) :
  match latestOf r transcripts with
  | Some e =>
      exists before after,
        transcripts = before ++ e :: after
        /\ role e = r
        /\ Forall (fun t => role t <> r) after
  | None => Forall (fun t => role t <> r) transcripts
  end.
Proof.
  rewrite latestOf_find.
  pose proof (find_first (fun t => Role_eqb (role t) r) (rev transcripts)) as H.
  assert (G : forall l : list VoiceTranscript,
             Forall (fun x => Role_eqb (role x) r = false) l ->
             Forall (fun t => role t <> r) (rev l)).
  { intros l Hl. apply Forall_rev. eapply Forall_impl; [|exact Hl].
    intros t Ht E. apply Role_eqb_eq in E. congruence. }
  destruct (find _ _) as [e|].
  - destruct H as (before & after & Hrev & He & Hb).
    exists (rev after), (rev before). split; [|split].
    + rewrite <- (rev_involutive transcripts), Hrev, rev_app_distr. simpl.
      now rewrite <- app_assoc.
    + now apply Role_eqb_eq.
    + now apply G.
  - rewrite <- (rev_involutive transcripts). now apply G.
Qed.

Lemma updatesInPlace_user r fin before l :
  updatesInPlace r fin (before ++ [l]) = true ->
  r = User /\ fin = false /\ role l = User /\ isFinal l = false.
Proof.
  unfold updatesInPlace. rewrite last_map_Some_snoc.
  rewrite !andb_true_iff, !negb_true_iff, !Role_eqb_eq. tauto.
Qed.

(** X7. What [addTranscript] receives is what the view shows: after any
    call, the latest entry of the call's role carries the call's text and
    finality, whether the call appended an entry or rewrote the interim
    one; the latest entry of the other role is the one shown before. *)
Theorem added_entry_is_shown
  (uid ts : string) (r : Role) (txt : string) (fin : bool)
  (prev : list VoiceTranscript) :
  let next := addTranscript uid ts r txt fin prev in
  (exists e, latestOf r next = Some e
             /\ text e = txt /\ isFinal e = fin /\ role e = r)
  /\ forall other, other <> r -> latestOf other next = latestOf other prev.
Proof.
  intros next. subst next.
  destruct (addTranscript_cases uid ts r txt fin prev)
    as [[_ ->] | [Hup (before & l & -> & ->)]].
  - split.
    + exists (mkEntry uid r txt ts fin). rewrite latestOf_find, rev_app_distr.
      simpl. replace (Role_eqb r r) with true by (now destruct r).
      now repeat split.
    + intros other Hne. rewrite !latestOf_find, rev_app_distr. simpl.
      destruct (Role_eqb r other) eqn:E; [|reflexivity].
      apply Role_eqb_eq in E. congruence.
  - apply updatesInPlace_user in Hup as (-> & -> & Hl & _). split.
    + exists (mkEntry (entryId l) (role l) txt (timestamp l) false).
      rewrite latestOf_find, rev_app_distr. simpl. rewrite Hl. simpl.
      now repeat split.
    + intros other Hne. rewrite !latestOf_find, !rev_app_distr. simpl.
      rewrite Hl. destruct other; [congruence|reflexivity].
Qed.

Lemma map_key_snoc (l : list VoiceTranscript) e :
  map entryKey (l ++ [e]) = map entryKey l ++ [entryKey e].
Proof. now rewrite map_app. Qed.

Lemma addTranscript_stable uid ts r txt fin prev :
  let next := addTranscript uid ts r txt fin prev in
  List.length prev <= List.length next
  /\ (exists added, map entryKey next = map entryKey prev ++ added)
  /\ (forall i e, nth_error prev i = Some e -> settledEntry prev i e ->
        nth_error next i = Some e).
Proof.
  intros next. subst next.
  destruct (addTranscript_cases uid ts r txt fin prev)
    as [[_ ->] | [Hup (before & l & -> & ->)]].
  - split; [rewrite length_app; lia|]. split.
    + exists [entryKey (mkEntry uid r txt ts fin)]. apply map_key_snoc.
    + intros i e Hi _. rewrite nth_error_app1; [exact Hi|].
      apply nth_error_Some. congruence.
  - apply updatesInPlace_user in Hup as (_ & _ & Hl & Hf).
    split; [rewrite !length_app; simpl; lia|]. split.
    + exists []. rewrite !map_key_snoc, app_nil_r. reflexivity.
    + intros i e Hi Hs.
      assert (Hlt : i < List.length (before ++ [l]))
        by (apply nth_error_Some; congruence).
      rewrite length_app in Hlt. simpl in Hlt.
      destruct (Nat.eq_dec i (List.length before)) as [-> | Hne].
      * rewrite nth_error_app2, Nat.sub_diag in Hi by lia. simpl in Hi.
        injection Hi as <-. exfalso.
        destruct Hs as [Hs | [Hs | Hs]]; [congruence|congruence|].
        rewrite length_app in Hs. simpl in Hs. lia.
      * rewrite nth_error_app1 in Hi by lia. rewrite nth_error_app1 by lia.
        exact Hi.
Qed.

(** X8. The transcript list only grows, and its entries keep their
    identity: over any sequence of [addTranscript] calls the list never
    gets shorter, the ids, roles and timestamps of the entries already
    there stay where they are (new ones come after them), and an entry
    that is final, or the assistant's, or not the last one, is never
    changed again. *)
Theorem transcript_entries_are_stable
  (calls : list AddCall) (prev : list VoiceTranscript) :
  List.length prev <= List.length (runAdds calls prev)
  /\ (exists added,
        map entryKey (runAdds calls prev) = map entryKey prev ++ added)
  /\ (forall i e, nth_error prev i = Some e -> settledEntry prev i e ->
        nth_error (runAdds calls prev) i = Some e).
Proof.
  revert prev. induction calls as [|c calls IH]; intros prev.
  - simpl. split; [lia|]. split; [exists []; now rewrite app_nil_r|auto].
  - simpl.
    destruct (addTranscript_stable (addUid c) (addTs c) (addRole c)
                (addText c) (addFinal c) prev) as (Hlen & [a1 Hk] & Hs).
    destruct (IH (addTranscript (addUid c) (addTs c) (addRole c) (addText c)
                    (addFinal c) prev)) as (Hlen' & [a2 Hk'] & Hs').
    split; [lia|]. split.
    + exists (a1 ++ a2). now rewrite Hk', Hk, app_assoc.
    + intros i e Hi Hse. apply Hs'; [now apply Hs|].
      unfold settledEntry in *. destruct Hse as [H | [H | H]]; auto.
      right. right. lia.
Qed.

(** ** After a stop *)








(** ** The cleanup on unmount *)

Section UnmountRun.

Local Open Scope ctl_scope.

Variable fails : PlatformCall -> bool.

(** The block [try { if (cell) { four calls; cell = null } } catch { }]. *)
Lemma runs_calls_then_clear (read : Session -> option nat)
  (p1 p2 p3 p4 : nat -> PlatformCall) c
  (set : option nat -> Session -> Session) s :
  runs (tryCatch
          (s0 <- get ;;
           whenSome (read s0) (fun h =>
             call fails (p1 h) ;; call fails (p2 h) ;; call fails (p3 h) ;;
             call fails (p4 h) ;; assign c set None))
          ignore)
       s tt
       (match read s with
        | Some h => if existsb fails [p1 h; p2 h; p3 h; p4 h] then s
                    else set None s
        | None => s
        end)
       (match read s with
        | Some h => attemptsThenClear fails [p1 h; p2 h; p3 h; p4 h] c
        | None => []
        end).
Proof.
  unfold runs, tryCatch, bind, get, whenSome, call, assign, attemptsThenClear,
    ignore, ret.
  simpl. destruct (read s) as [h|]; simpl; trivial.
  destruct (fails (p1 h)); simpl; trivial.
  destruct (fails (p2 h)); simpl; trivial.
  destruct (fails (p3 h)); simpl; trivial.
  destruct (fails (p4 h)); reflexivity.
Qed.

(** A block of one call: the cell it leaves, and the cells it leaves
    alone. *)
Lemma block_of_one (read : Session -> option nat) (p : nat -> PlatformCall) c
  (set : option nat -> Session -> Session) s :
  (forall y, read (set None y) = None) ->
  exists s',
    runs (tryCatch
            (s0 <- get ;;
             whenSome (read s0) (fun h =>
               call fails (p h) ;; assign c set None))
            ignore)
         s tt s'
         (match read s with
          | Some h => attemptThenClear fails (p h) c
          | None => []
          end)
    /\ read s' = clearedUnless fails p (read s)
    /\ framed set s s'.
Proof.
  intros Hown. eexists. split; [apply runs_call_then_clear|]. split.
  - unfold clearedUnless. destruct (read s) as [h|] eqn:E; trivial.
    destruct (fails (p h)); auto.
  - intros A f Hf. destruct (read s) as [h|]; trivial.
    destruct (fails (p h)); auto.
Qed.

Lemma block_of_four (read : Session -> option nat)
  (p1 p2 p3 p4 : nat -> PlatformCall) c
  (set : option nat -> Session -> Session) s :
  (forall y, read (set None y) = None) ->
  exists s',
    runs (tryCatch
            (s0 <- get ;;
             whenSome (read s0) (fun h =>
               call fails (p1 h) ;; call fails (p2 h) ;; call fails (p3 h) ;;
               call fails (p4 h) ;; assign c set None))
            ignore)
         s tt s'
         (match read s with
          | Some h => attemptsThenClear fails [p1 h; p2 h; p3 h; p4 h] c
          | None => []
          end)
    /\ read s'
       = clearedUnlessAny fails (fun h => [p1 h; p2 h; p3 h; p4 h]) (read s)
    /\ framed set s s'.
Proof.
  intros Hown. eexists. split; [apply runs_calls_then_clear|]. split.
  - unfold clearedUnlessAny. destruct (read s) as [h|] eqn:E; trivial.
    destruct (existsb fails _); auto.
  - intros A f Hf. destruct (read s) as [h|]; trivial.
    destruct (existsb fails _); auto.
Qed.

(** The cancellation of a token: [try { cell?.abort() } catch { }
    finally { cell = null }]. *)
Lemma block_of_abort (read : Session -> option nat) c
  (set : option nat -> Session -> Session) s :
  runs (tryFinally
          (tryCatch (s0 <- get ;;
                     whenSome (read s0) (fun t => call fails (Abort t)))
                    ignore)
          (assign c set None))
       s tt (set None s)
       (attempts fails (fromCell (read s) (fun t => [Abort t])) ++ [Wr c]).
Proof.
  apply runs_guarded. rewrite get_then. apply (calls_of_cell_1 fails _ Abort).
Qed.

End UnmountRun.

(** The value of a cell after a chain of steps, each of which leaves it
    alone or is known to set it. *)
Ltac chase :=
  repeat match goal with
         | V : ?read ?b = _ |- context [?read ?b] => rewrite V
         | F : framed _ _ ?b |- context [?f ?b] =>
             rewrite (F _ f) by (intros ? []; reflexivity)
         end.

(** X13. The cleanup on unmount (page.tsx 90-172) never throws and, in
    this order: sets the stopped and cancelled flags; clears the
    monitor's timer, closes its audio context and stops the tracks of its
    microphone stream (the loop over the tracks is one step); cancels the chat request and the synthesis;
    detaches and stops the recognizer; detaches and pauses the audio
    element; revokes the object URL.  The two cancellation tokens are
    forgotten whatever happens; each other resource is forgotten unless
    one of its calls throws, in which case the page keeps its handle (the
    recognizer too, whose handle [stop] forgets in a [finally]).  The
    state shown, the processing and speaking flags and the transcripts
    are left as they are. *)
Theorem unmount_cleanup_releases (fails : PlatformCall -> bool) (s : Session) :
  let run := unmountCleanup fails s in
  out run = Ok tt
  /\ log run = unmountLog fails s
  /\ stoppedRef (ctl run) = true
  /\ audioCancelledRef (ctl run) = true
  /\ queryAbortRef (ctl run) = None
  /\ ttsAbortRef (ctl run) = None
  /\ vadIntervalRef (ctl run)
     = clearedUnless fails ClearInterval (vadIntervalRef s)
  /\ audioContextRef (ctl run)
     = clearedUnless fails CloseAudioContext (audioContextRef s)
  /\ micStreamRef (ctl run) = clearedUnless fails StopTracks (micStreamRef s)
  /\ recognitionRef (ctl run)
     = clearedUnlessAny fails unmountRecognizerCalls (recognitionRef s)
  /\ audioRef (ctl run)
     = clearedUnlessAny fails unmountPlayerCalls (audioRef s)
  /\ audioUrlRef (ctl run)
     = clearedUnless fails RevokeObjectURL (audioUrlRef s)
  /\ state (ctl run) = state s
  /\ stateRef (ctl run) = stateRef s
  /\ isProcessing (ctl run) = isProcessing s
  /\ processingRef (ctl run) = processingRef s
  /\ isSpeakingRef (ctl run) = isSpeakingRef s
  /\ transcripts (ctl run) = transcripts s.
Proof.
  intros run. subst run. unfold unmountCleanup.
  rewrite (bind_of_run _ _ _ (runs_assign CStopped set_stoppedRef true s)).
  cbv beta.
  rewrite (bind_of_run _ _ _
             (runs_assign CAudioCancelled set_audioCancelledRef true _)).
  cbv beta.
  remember (set_audioCancelledRef true (set_stoppedRef true s)) as x0 eqn:E0.
  destruct (block_of_one fails vadIntervalRef ClearInterval CVadInterval
              set_vadIntervalRef x0) as (x1 & R1 & V1 & F1);
    [intros []; reflexivity|].
  rewrite (bind_of_run _ _ _ R1). cbv beta.
  destruct (block_of_one fails audioContextRef CloseAudioContext CAudioContext
              set_audioContextRef x1) as (x2 & R2 & V2 & F2);
    [intros []; reflexivity|].
  rewrite (bind_of_run _ _ _ R2). cbv beta.
  destruct (block_of_one fails micStreamRef StopTracks CMicStream
              set_micStreamRef x2) as (x3 & R3 & V3 & F3);
    [intros []; reflexivity|].
  rewrite (bind_of_run _ _ _ R3). cbv beta.
  rewrite (bind_of_run _ _ _
             (block_of_abort fails queryAbortRef CQueryAbort
                set_queryAbortRef x3)).
  cbv beta.
  remember (set_queryAbortRef None x3) as x4 eqn:E4.
  rewrite (bind_of_run _ _ _
             (block_of_abort fails ttsAbortRef CTtsAbort set_ttsAbortRef x4)).
  cbv beta.
  remember (set_ttsAbortRef None x4) as x5 eqn:E5.
  destruct (block_of_four fails recognitionRef
              (fun r => RecogClearHandler r OnEnd)
              (fun r => RecogClearHandler r OnError)
              (fun r => RecogClearHandler r OnResult) RecogStop
              CRecognition set_recognitionRef x5) as (x6 & R6 & V6 & F6);
    [intros []; reflexivity|].
  rewrite (bind_of_run _ _ _ R6). cbv beta.
  destruct (block_of_four fails audioRef
              (fun a => AudioClearHandler a OnEnded)
              (fun a => AudioClearHandler a OnError)
              AudioPause AudioClearSrc CAudio set_audioRef x6)
    as (x7 & R7 & V7 & F7);
    [intros []; reflexivity|].
  rewrite (bind_of_run _ _ _ R7). cbv beta.
  destruct (block_of_one fails audioUrlRef RevokeObjectURL CAudioUrl
              set_audioUrlRef x7) as (x8 & R8 & V8 & F8);
    [intros []; reflexivity|].
  unfold runs in R8. rewrite R8.
  assert (G4 : framed set_queryAbortRef x3 x4)
    by (subst x4; intros A f Hf; apply Hf).
  assert (G5 : framed set_ttsAbortRef x4 x5)
    by (subst x5; intros A f Hf; apply Hf).
  assert (W4 : queryAbortRef x4 = None) by (subst x4; now destruct x3).
  assert (W5 : ttsAbortRef x5 = None) by (subst x5; now destruct x4).
  clear E4 E5 R1 R2 R3 R6 R7 R8.
  cbn [after out ctl log].
  repeat split; chase; subst x0; try (now destruct s).
  unfold unmountLog, unmountRecognizerCalls, unmountPlayerCalls.
  destruct s.
  cbn -[attempts attemptThenClear attemptsThenClear fromCell app].
  rewrite <- !app_assoc. reflexivity.
Qed.

(** ** The microphone of the activity monitor *)

Lemma micReleases_none l :
  Forall (fun st => isMicRelease st = false) l -> micReleases l = [].
Proof.
  induction 1 as [|st l H _ IH]; [reflexivity|].
  unfold micReleases in *. simpl. now rewrite H.
Qed.

Lemma handler_keeps_microphone fails e s :
  isUnmount e = false ->
  micReleases (log (handle fails e s)) = []
  /\ (isSome (micStreamRef s) = true ->
      isSome (micStreamRef (ctl (handle fails e s))) = true)
  /\ (isSome (audioContextRef s) = true ->
      isSome (audioContextRef (ctl (handle fails e s))) = true).
Proof.
  intros He. split; [|split].
  - apply micReleases_none.
    destruct e; try discriminate He;
      match goal with
      | |- Forall ?Q (log (?m s)) =>
          assert (G : logsOnly Q m);
          [unfold_handlers; cbv zeta; logsOnly_with ltac:(reflexivity)
          |apply G]
      end.
  - intros Hs.
    destruct e; try discriminate He;
      match goal with
      | |- isSome (micStreamRef (ctl (?m s))) = true =>
          assert (G : preserves (fun x => isSome (micStreamRef x) = true) m);
          [unfold_handlers; cbv zeta;
           preserves_with ltac:(simpl; first [assumption | reflexivity])
          |exact (G s Hs)]
      end.
  - intros Hs.
    destruct e; try discriminate He;
      match goal with
      | |- isSome (audioContextRef (ctl (?m s))) = true =>
          assert (G : preserves (fun x => isSome (audioContextRef x) = true) m);
          [unfold_handlers; cbv zeta;
           preserves_with ltac:(simpl; first [assumption | reflexivity])
          |exact (G s Hs)]
      end.
Qed.

(** X14. The microphone that the activity monitor opened is released by
    the unmount cleanup only.  While the component is mounted no event
    (not the end of a playback, not a barge-in, not [stop]) stops the
    tracks of the stream or closes the audio context, and a stored
    stream or context stays stored (a later monitor stores a new one over
    it), whichever platform calls fail. *)
Theorem microphone_kept_until_unmount
  (fails : PlatformCall -> bool) (es : list Event) (s : Session)
  (Hmounted : forallb (fun e => negb (isUnmount e)) es = true) :
  micReleases (logOfEvents fails es s) = []
  /\ (isSome (micStreamRef s) = true ->
      isSome (micStreamRef (afterEvents fails es s)) = true)
  /\ (isSome (audioContextRef s) = true ->
      isSome (audioContextRef (afterEvents fails es s)) = true).
Proof.
  revert s. induction es as [|e es IH]; intros s; [now repeat split|].
  simpl in Hmounted. apply andb_prop in Hmounted as [He Hes].
  apply negb_true_iff in He.
  destruct (handler_keeps_microphone fails e s He) as (H1 & H2 & H3).
  destruct (IH Hes (ctl (handle fails e s))) as (G1 & G2 & G3).
  split; [|split].
  - cbn [logOfEvents]. unfold micReleases in *.
    now rewrite filter_app, H1, G1.
  - intros Hs. apply G2, H2, Hs.
  - intros Hs. apply G3, H3, Hs.
Qed.

(** The monitor is granted stream 50, the playback ends, and the user
    stops the session. *)
Lemma microphone_kept_until_unmount_witness :
  micReleases
    (logOfEvents noFailure
       [EMonitorGranted 50 51 52 53; EAudioEnded 1500 8; EStop]
       speakingSession)
  = []
  /\ isSome (micStreamRef
               (afterEvents noFailure
                  [EMonitorGranted 50 51 52 53; EAudioEnded 1500 8; EStop]
                  speakingSession))
     = true.
Proof.
  pose proof (@microphone_kept_until_unmount noFailure
                [EMonitorGranted 50 51 52 53; EAudioEnded 1500 8; EStop]
                speakingSession eq_refl) as (H1 & H2 & _).
  exact (conj H1 (H2 eq_refl)).
Defined.

(** ** The end of a playback *)

Ltac endings :=
  unfold playbackOver, urlReleased, clearedUnless;
  unfold audio_onended, audio_onpause, audio_onerror, audio_cancelled,
    playTTS_catch, releaseAudioUrl, stopBargeInMonitor, stoppedOrIdle;
  run_handler;
  repeat (split_test; cbn; try (repeat split; reflexivity)).

(** X15. However a playback ends, it ends the same way (page.tsx
    622-733).  The [ended] callback, the [pause] and [error] callbacks of
    a cancelled playback, the [error] callback of a failed one and the
    [catch] of [playTTS] all leave the assistant silent, the end time set,
    recognition results ignored for 900 ms, recognition no longer
    suspended and the monitor's timer cleared, and touch neither the
    state shown nor the microphone.  The callbacks forget the object URL
    of their own audio element and no other; the [catch] forgets none.
    The promise is resolved, except after a playback error that was not
    a cancellation and after a caught failure that is neither an abort,
    nor a cancellation, nor in a stopped session; a [pause] that is not
    a cancellation does nothing at all. *)
Theorem playback_endings_agree
  (fails : PlatformCall -> bool) (now : Z) (url : nat) (s : Session) :
  (let run := audio_onended fails now url s in
   out run = Ok Resolved
   /\ playbackOver fails now s (ctl run) /\ urlReleased url s (ctl run)
   /\ audioCancelledRef (ctl run) = audioCancelledRef s)
  /\ (audioCancelledRef s = true ->
      audio_onpause fails now url s = audio_onerror fails now url s
      /\ let run := audio_onpause fails now url s in
         out run = Ok Resolved
         /\ playbackOver fails now s (ctl run) /\ urlReleased url s (ctl run)
         /\ audioCancelledRef (ctl run) = false)
  /\ (audioCancelledRef s = false ->
      audio_onpause fails now url s = mkRun (Ok Pending) s []
      /\ let run := audio_onerror fails now url s in
         out run = Ok Rejected
         /\ playbackOver fails now s (ctl run) /\ urlReleased url s (ctl run)
         /\ audioCancelledRef (ctl run) = false)
  /\ (forall aborted,
        let run := playTTS_catch fails now aborted s in
        out run
        = Ok (if orb (orb (stoppedRef s) aborted) (audioCancelledRef s)
              then Resolved else Rejected)
        /\ playbackOver fails now s (ctl run)
        /\ audioUrlRef (ctl run) = audioUrlRef s).
Proof.
  destruct s. simpl.
  split; [|split; [|split]].
  - endings.
  - intros ->. split; [reflexivity|]. endings.
  - intros ->. split; [reflexivity|]. endings.
  - intros aborted. endings.
Qed.

(** ** An empty answer *)

(** X16. A chat answer that is empty ends the turn without a reply
    (page.tsx 738-865): nothing is added to the transcripts or to the
    echo memory, nothing is spoken, and only the processing flags are
    reset.  In continuous mode the session listens as before.  In
    push-to-talk mode nothing sets the state back to listening: the page
    stays in the state thinking with the recognizer stopped and
    recognition suspended, no restart is scheduled, and the recognizer's
    result and end callbacks do nothing in that session. *)
Theorem empty_answer_ends_the_turn_unanswered
  (fails : PlatformCall -> bool) (controller : nat) (txt uid ts : string)
  (s : Session)
  (Hlive : stoppedOrIdle s = false) (Hfree : processingRef s = false)
  (Htext : Js.truthy (Js.trim txt) = true) :
  let admitted := ctl (processUserInput_begin fails controller txt s) in
  let run := processUserInput_fulfilled uid ts "" admitted in
  let waiting := ctl (effect_stateRef (ctl run)) in
  out run = Ok None
  /\ log run = [Wr CProcessing; Wr CIsProcessing]
  /\ transcripts waiting = transcripts s
  /\ lastAssistantTextRef waiting = lastAssistantTextRef s
  /\ assistantUtterancesRef waiting = assistantUtterancesRef s
  /\ processingRef waiting = false /\ isProcessing waiting = false
  /\ (modeRef s = PushToTalk ->
      state waiting = Thinking /\ stateRef waiting = Thinking
      /\ (forall r now transcript fin uid' ts' c,
            onresult fails r now transcript fin uid' ts' c waiting
            = untouched waiting)
      /\ (forall r, onend fails r waiting = untouched waiting)
      /\ (forall r, recognitionRef s = Some r ->
            suspendRecognitionRef waiting = true
            /\ restartSteps
                 (log (processUserInput_begin fails controller txt s)
                  ++ log run)
               = []))
  /\ (modeRef s = Continuous ->
      state waiting = state s
      /\ suspendRecognitionRef waiting = suspendRecognitionRef s).
Proof.
  assert (Hs : stoppedRef s = false /\ VoiceState_eqb (stateRef s) Idle = false).
  { unfold stoppedOrIdle in Hlive. now apply orb_false_elim in Hlive. }
  destruct Hs as [Hs Hi].
  destruct s. simpl in *. subst.
  unfold processUserInput_begin, processUserInput_fulfilled,
    processUserInput_finally, effect_stateRef, stoppedOrIdle.
  run_handler. rewrite Htext, Hi. cbn.
  match goal with
  | |- context [Mode_eqb ?m PushToTalk] => destruct m
  end; cbn.
  all: repeat match goal with
              | |- context [match ?o with Some _ => _ | None => _ end] =>
                  is_var o; destruct o; cbn
              | |- context [if ?f ?p then _ else _] =>
                  is_var f; destruct (f p); cbn
              end.
  all: rewrite ?Hi; cbn.
  all: repeat split; try reflexivity; try discriminate.
  all: try (intros; unfold onresult, onend, onresult_accept, stoppedOrIdle;
            run_handler; rewrite ?Hi; cbn;
            repeat (split_test; cbn; try reflexivity); fail).
  all: try (intros r0 [= <-]; split; reflexivity).
  all: intros r0 [=].
Qed.

(** "what is my balance" is asked in push-to-talk mode and the answer
    comes back empty. *)
Lemma empty_answer_ends_the_turn_unanswered_witness :
  state
    (ctl (effect_stateRef
            (ctl (processUserInput_fulfilled "u2" "t2" ""
                    (ctl (processUserInput_begin noFailure 6
                            "what is my balance" listeningPushToTalk))))))
  = Thinking.
Proof.
  pose proof (@empty_answer_ends_the_turn_unanswered noFailure 6
                "what is my balance" "u2" "t2" listeningPushToTalk
                eq_refl eq_refl eq_refl)
    as (_ & _ & _ & _ & _ & _ & _ & H & _).
  exact (proj1 (H eq_refl)).
Defined.

(** ** The start of a session and the mode switch *)

(** X17. The render that follows [start] stops the recognizer it
    started (page.tsx 75-87, 873-894).  From an idle page, [start] asks
    for the microphone, stores and starts the recognizer and sets the
    state to listening; the effect on [mode, state] then runs and calls
    [stop()] on that recognizer.  The end event that follows restarts it
    in continuous mode; in push-to-talk mode the end callback does
    nothing, and the last call on the recognizer is [stop()]. *)
Theorem start_is_followed_by_a_stop
  (fails : PlatformCall -> bool) (r : nat) (s : Session)
  (Hidle : state s = Idle) (Hsuspended : suspendRecognitionRef s = false)
  (Hstart : fails (RecogStart r) = false)
  (Hstop : fails (RecogStop r) = false) :
  let started := afterEvents fails (startAndRender r) s in
  logOfEvents fails (startAndRender r) s
  = [Wr CStopped; Did GetUserMedia; Wr CRecognition; Did (RecogStart r);
     Wr CState; Wr CStateRef; Wr CModeRef; Did (RecogStop r)]
  /\ state started = Listening
  /\ stoppedOrIdle started = false
  /\ recognitionRef started = Some r
  /\ modeRef started = mode s
  /\ transcripts started = transcripts s
  /\ (mode s = Continuous ->
      onend fails r started = mkRun (Ok tt) started [Did (RecogStart r)])
  /\ (mode s = PushToTalk ->
      onend fails r started = untouched started
      /\ recognizerCalls
           (logOfEvents fails (startAndRender r ++ [ERecogEnd r]) s)
         = [Did (RecogStart r); Did (RecogStop r)]).
Proof.
  destruct s. simpl in Hidle, Hsuspended. subst.
  unfold startAndRender, afterEvents, logOfEvents, handle, forget,
    start_begin, start_granted, effect_stateRef, effect_modeRef, onend,
    stoppedOrIdle, untouched, recognizerCalls.
  cbn -[filter]. run_handler. rewrite Hstart. cbn. rewrite Hstop. cbn.
  rewrite Nat.eqb_refl.
  repeat match goal with |- _ /\ _ => split end; try reflexivity.
  - intros ->. cbn. rewrite ?Hstart. reflexivity.
  - intros ->. split; [reflexivity|].
    cbn. rewrite ?Hstart. cbn. rewrite ?Hstop. reflexivity.
Qed.

(** The session of [thinkingSession] is stopped and started again, in
    push-to-talk mode. *)
Lemma start_is_followed_by_a_stop_witness :
  recognizerCalls
    (logOfEvents noFailure (startAndRender 7 ++ [ERecogEnd 7])
       (ctl (stop noFailure thinkingSession)))
  = [Did (RecogStart 7); Did (RecogStop 7)].
Proof.
  pose proof (@start_is_followed_by_a_stop noFailure 7
                (ctl (stop noFailure thinkingSession))
                eq_refl eq_refl eq_refl eq_refl)
    as (_ & _ & _ & _ & _ & _ & _ & H).
  exact (proj2 (H eq_refl)).
Defined.

(** X18. Switching the mode while the page runs (page.tsx 75-87; the
    mode buttons are never disabled).  The effect on [mode, state]
    copies the new mode into [modeRef] and calls [stop()] on the
    recognizer, leaving the state shown as it is.  The end event that
    follows restarts the recognizer when the new mode is continuous, as
    the comment in the effect says, and does nothing when it is
    push-to-talk. *)
Theorem mode_switch_restarts_only_in_continuous
  (fails : PlatformCall -> bool) (m : Mode) (r : nat) (s : Session)
  (Hchange : mode s <> m)
  (Hlive : stoppedOrIdle s = false) (Hshown : state s <> Idle)
  (Hrecognizer : recognitionRef s = Some r)
  (Hsuspended : suspendRecognitionRef s = false)
  (Hstart : fails (RecogStart r) = false)
  (Hstop : fails (RecogStop r) = false) :
  let switched := afterEvents fails (switchMode m) s in
  logOfEvents fails (switchMode m) s = [Wr CMode; Wr CModeRef; Did (RecogStop r)]
  /\ mode switched = m /\ modeRef switched = m
  /\ state switched = state s
  /\ onend fails r switched
     = match m with
       | Continuous => mkRun (Ok tt) switched [Did (RecogStart r)]
       | PushToTalk => untouched switched
       end.
Proof.
  assert (Hs : stoppedRef s = false /\ VoiceState_eqb (stateRef s) Idle = false).
  { unfold stoppedOrIdle in Hlive. now apply orb_false_elim in Hlive. }
  destruct Hs as [Hs Hi].
  assert (Hn : VoiceState_eqb (state s) Idle = false)
    by (destruct (state s); trivial; now elim Hshown).
  destruct s. simpl in *. subst.
  unfold switchMode, afterEvents, logOfEvents, handle, setMode,
    effect_modeRef, onend, untouched.
  run_handler. rewrite Hn. cbn. rewrite Hstop. cbn.
  rewrite Nat.eqb_refl, Hi.
  repeat match goal with |- _ /\ _ => split end; try reflexivity.
  destruct m; cbn; [reflexivity|]. now rewrite ?Hstart.
Qed.

(** The user picks push-to-talk after the balance answer. *)
Lemma mode_switch_restarts_only_in_continuous_witness :
  onend noFailure 1
    (afterEvents noFailure (switchMode PushToTalk) afterBalanceAnswer)
  = untouched
      (afterEvents noFailure (switchMode PushToTalk) afterBalanceAnswer).
Proof.
  pose proof (@mode_switch_restarts_only_in_continuous noFailure PushToTalk 1
                afterBalanceAnswer ltac:(discriminate) eq_refl
                ltac:(discriminate) eq_refl eq_refl eq_refl eq_refl)
    as (_ & _ & _ & _ & H).
  exact H.
Defined.

(** ** The orb *)





(** ** What is sent *)

Lemma latestOf_appended (r : Role) (e : VoiceTranscript)
  (prev : list VoiceTranscript) :
  role e = r -> latestOf r (prev ++ [e]) = Some e.
Proof.
  intros <-. rewrite latestOf_find, rev_app_distr. simpl.
  now destruct (role e).
Qed.

Lemma accepted_request fails r now txt fin uid ts c s :
  let run := onresult_accept fails r now txt fin uid ts c s in
  stoppedOrIdle s = false ->
  chatRequests (log run) <> [] ->
  chatRequests (log run) = [Did (ChatRequest txt (chatSessionIdRef s) c)]
  /\ Js.truthy (Js.trim txt) = true
  /\ fin = true
  /\ lastTranscriptRef (ctl run) = txt
  /\ transcripts (ctl run) = transcripts s ++ [mkEntry uid User txt ts true]
  /\ processingRef s = false
  /\ isSpeakingRef s = false
  /\ isSimilarToLastResponse s now txt = false
  /\ (inIgnoreWindow s now = true ->
      (assistantEchoOverlapRatio s txt < 6 # 10)%Q)
  /\ (modeRef s = PushToTalk -> stateRef s = Listening).
Proof.
  intros run Hlive. subst run.
  unfold onresult_accept. rewrite get_then.
  destruct (andb (Mode_eqb (modeRef s) PushToTalk) _) eqn:Hptt;
    [intros H; now elim H|].
  destruct (isSpeakingRef s) eqn:Hspeak; [intros H; now elim H|].
  destruct (isSimilarToLastResponse s now txt) eqn:Hsim;
    [intros H; now elim H|].
  destruct (andb (andb fin (negb (processingRef s))) (Js.truthy (Js.trim txt)))
    eqn:Htest; [|intros H; now elim H].
  apply andb_prop in Htest as [Htest Htruthy].
  apply andb_prop in Htest as [-> Hfree]. apply negb_true_iff in Hfree.
  destruct (andb (inIgnoreWindow s now)
                 (Qle_bool (6 # 10) (assistantEchoOverlapRatio s txt)))
    eqn:Hdom; [intros H; now elim H|].
  assert (Hs : stoppedRef s = false /\ VoiceState_eqb (stateRef s) Idle = false).
  { unfold stoppedOrIdle in Hlive. now apply orb_false_elim in Hlive. }
  destruct Hs as [Hs Hi].
  assert (Hwin : inIgnoreWindow s now = true ->
                 (assistantEchoOverlapRatio s txt < 6 # 10)%Q).
  { intros Hw. rewrite Hw in Hdom. simpl in Hdom.
    apply Qltb_true. unfold Qltb. now rewrite Hdom. }
  assert (Hlisten : modeRef s = PushToTalk -> stateRef s = Listening).
  { intros Hm. rewrite Hm, Hfree in Hptt. simpl in Hptt.
    rewrite orb_false_r in Hptt. apply negb_false_iff in Hptt.
    destruct (stateRef s); trivial; discriminate. }
  unfold processUserInput_begin, stoppedOrIdle, addTranscript.
  run_handler.
  destruct (modeRef s) eqn:Hm; cbn.
  - destruct (fails (RecogStop r)); cbn; [intros H; now elim H|].
    rewrite ?Hfree, ?Htruthy, ?Hs, ?Hi, ?Hm. cbn.
    destruct (recognitionRef s) as [r'|]; cbn;
      [destruct (fails (RecogStop r')); cbn|];
      (destruct (queryAbortRef s) as [q|]; cbn;
       [destruct (fails (Abort q)); cbn|]);
      intros _; repeat split; trivial.
  - rewrite ?Hfree, ?Htruthy, ?Hs, ?Hi, ?Hm. cbn.
    destruct (queryAbortRef s) as [q|]; cbn;
      [destruct (fails (Abort q)); cbn|];
      intros _; repeat split; trivial.
Qed.

(** X20. What is sent is what is shown, and when it is sent (page.tsx
    440-513, 181-200).  For ASCII text: when the result callback sends a
    chat request, it sends exactly one, for a final result; its message
    is the text that left the tail-echo block (trimmed, and stripped of
    the assistant's words inside the ignore window), which is not blank;
    it carries the session id and the new cancellation token; and the
    same text has been appended to the transcripts as a final user
    entry, which is the latest user entry of the transcript view.  No
    request is sent from a session that is stopped or idle, whose
    recognition is suspended, that processes a turn or speaks, nor for a
    text that the second echo filter finds similar, nor, inside the
    ignore window, for a text whose overlap ratio is 0.6 or more; in
    push-to-talk mode none is sent unless the state is listening. *)
Theorem sent_text_is_shown
  (fails : PlatformCall -> bool) (r : nat) (now : Z) (transcript : string)
  (fin : bool) (uid ts : string) (c : nat) (s : Session)
  (Htext : Js.isAscii transcript = true) (Hmemory : asciiMemory s = true)
  (Hsent : chatRequests
             (log (onresult fails r now transcript fin uid ts c s)) <> []) :
  let run := onresult fails r now transcript fin uid ts c s in
  exists msg,
    sanitizeTailEcho s now (Js.trim transcript) = Some msg
    /\ chatRequests (log run) = [Did (ChatRequest msg (chatSessionIdRef s) c)]
    /\ Js.truthy (Js.trim msg) = true
    /\ fin = true
    /\ lastTranscriptRef (ctl run) = msg
    /\ transcripts (ctl run) = transcripts s ++ [mkEntry uid User msg ts true]
    /\ latestOf User (transcripts (ctl run))
       = Some (mkEntry uid User msg ts true)
    /\ stoppedOrIdle s = false
    /\ suspendRecognitionRef s = false
    /\ processingRef s = false
    /\ isSpeakingRef s = false
    /\ isSimilarToLastResponse s now msg = false
    /\ (inIgnoreWindow s now = true ->
        (assistantEchoOverlapRatio s msg < 6 # 10)%Q)
    /\ (modeRef s = PushToTalk -> stateRef s = Listening).
Proof.
  intros run. subst run.
  destruct (stoppedOrIdle s) eqn:Hlive.
  { exfalso. apply Hsent. unfold onresult. rewrite get_then, Hlive.
    reflexivity. }
  destruct (suspendRecognitionRef s) eqn:Hsusp.
  { exfalso. apply Hsent. unfold onresult. rewrite get_then, Hlive, Hsusp.
    reflexivity. }
  rewrite (onresult_after_block fails r now transcript fin uid ts c s
             Hlive Hsusp) in *.
  destruct (sanitizeTailEcho s now (Js.trim transcript)) as [msg|];
    [|now elim Hsent].
  exists msg.
  destruct (accepted_request fails r now msg fin uid ts c s Hlive Hsent)
    as (H1 & H2 & H3 & H4 & H5 & H6 & H7 & H8 & H9 & H10).
  repeat match goal with |- _ /\ _ => split end; trivial.
  rewrite H5. now apply latestOf_appended.
Qed.

(** Nine seconds after the balance answer the user asks for a ticket. *)
Lemma sent_text_is_shown_witness :
  chatRequests
    (log (onresult noFailure 1 10000 " I need a ticket " true "u" "t" 9
            afterBalanceAnswer))
  = [Did (ChatRequest "I need a ticket" "sid" 9)].
Proof.
  destruct (@sent_text_is_shown noFailure 1 10000 " I need a ticket " true
              "u" "t" 9 afterBalanceAnswer eq_refl eq_refl
              ltac:(vm_compute; discriminate))
    as (msg & Hsan & Hreq & _).
  vm_compute in Hsan. injection Hsan as <-. exact Hreq.
Defined.

(** ** During a playback *)

Lemma onresult_suspended fails r now transcript fin uid ts c s :
  suspendRecognitionRef s = true ->
  onresult fails r now transcript fin uid ts c s = untouched s.
Proof.
  intros H. unfold onresult. rewrite get_then, H.
  now destruct (stoppedOrIdle s).
Qed.

Lemma suspended_event fails e s :
  duringPlayback e = true -> suspendRecognitionRef s = true ->
  suspendRecognitionRef (ctl (handle fails e s)) = true
  /\ transcripts (ctl (handle fails e s)) = transcripts s
  /\ chatRequests (log (handle fails e s)) = [].
Proof.
  intros He Hs.
  destruct e; try discriminate He.
  all: try (cbn [handle]; rewrite (onresult_suspended _ _ _ _ _ _ _ _ _ Hs);
            now repeat split).
  all: try (simpl in He; apply negb_true_iff in He;
            cbn [handle]; unfold vadTick; run_handler; rewrite He;
            destruct (analyserRef s); cbn; [|now repeat split];
            destruct (isSpeakingRef s); cbn; now repeat split).
  all: split; [|split].
  all: try match goal with
       | |- suspendRecognitionRef (ctl (?m ?x)) = true =>
           assert (G : preserves (fun x => suspendRecognitionRef x = true) m);
           [unfold_handlers; cbv zeta;
            preserves_with ltac:(simpl; first [assumption | reflexivity])
           |exact (G x Hs)]
       | |- transcripts (ctl (?m ?x)) = transcripts ?x =>
           assert (G : preserves (fun y => transcripts y = transcripts x) m);
           [unfold_handlers; cbv zeta;
            preserves_with ltac:(simpl; first [assumption | reflexivity])
           |exact (G x eq_refl)]
       | |- chatRequests (log (?m ?x)) = [] =>
           apply chatRequests_none;
           assert (G : logsOnly (fun st => isChatRequest st = false) m);
           [unfold_handlers; cbv zeta; logsOnly_with ltac:(reflexivity)
           |apply G]
       end.
Qed.

(** X21. While an answer is played, nothing the recognizer delivers is
    acted on (page.tsx 440-451, 603-619, 747-756).  Once the audio has
    arrived, recognition is suspended: in continuous mode [playTTS] sets
    the flag and stops the recognizer, in push-to-talk mode the turn had
    done so when it was admitted.  Until the playback or the turn ends,
    the flag stays set whatever the recognizer, the monitor (its samples
    at or below the threshold), the renders and the timers do, no
    transcript entry is added and no chat request is sent, whichever
    platform calls fail. *)
Theorem recognition_suspended_during_playback
  (fails : PlatformCall -> bool) (url audio r : nat) (es : list Event)
  (s : Session)
  (Hrecognizer : recognitionRef s = Some r)
  (Hmode : modeRef s = Continuous \/ suspendRecognitionRef s = true)
  (Hplaying : forallb duringPlayback es = true) :
  let fetched := playTTS_fetched fails url audio s in
  (modeRef s = Continuous ->
   In (Did (RecogStop r)) (log fetched)
   \/ In (Raised (RecogStop r)) (log fetched))
  /\ suspendRecognitionRef (ctl fetched) = true
  /\ suspendRecognitionRef (afterEvents fails es (ctl fetched)) = true
  /\ transcripts (afterEvents fails es (ctl fetched)) = transcripts s
  /\ chatRequests (logOfEvents fails es (ctl fetched)) = [].
Proof.
  intros fetched.
  assert (H0 : suspendRecognitionRef (ctl fetched) = true
               /\ transcripts (ctl fetched) = transcripts s
               /\ (modeRef s = Continuous ->
                   In (Did (RecogStop r)) (log fetched)
                   \/ In (Raised (RecogStop r)) (log fetched))).
  { subst fetched.
    unfold playTTS_fetched, startBargeInMonitor_begin, stopBargeInMonitor.
    run_handler. rewrite Hrecognizer. cbn.
    destruct (modeRef s) eqn:Hm; cbn.
    { destruct Hmode as [Hc|Hsusp]; [discriminate Hc|].
      split; [|split]; [assumption|reflexivity|discriminate]. }
    destruct (fails (RecogStop r)); cbn; rewrite ?Hm; cbn;
      (destruct (vadIntervalRef s) as [t|]; cbn;
       [destruct (fails (ClearInterval t)); cbn|]);
      (split; [|split]; [reflexivity|reflexivity|intros _; cbn; tauto]). }
  destruct H0 as (Hs & Ht & Hstop).
  split; [exact Hstop|]. split; [exact Hs|].
  rewrite <- Ht. clear Ht Hstop Hrecognizer Hmode.
  generalize dependent (ctl fetched). clear fetched.
  induction es as [|e es IH]; intros x Hx; [now repeat split|].
  simpl in Hplaying. apply andb_prop in Hplaying as [He Hes].
  destruct (suspended_event fails e x He Hx) as (H1 & H2 & H3).
  destruct (IH Hes _ H1) as (G1 & G2 & G3).
  cbn [afterEvents logOfEvents fold_left] in *.
  unfold afterEvents in *. cbn [fold_left].
  split; [exact G1|]. split; [now rewrite G2|].
  unfold chatRequests in *. now rewrite filter_app, H3, G3.
Qed.

(** The next answer arrives after the balance answer; while it plays,
    the monitor takes a quiet sample, and the recognizer delivers the
    assistant's words and ends. *)
Lemma recognition_suspended_during_playback_witness :
  chatRequests
    (logOfEvents noFailure
       [EMonitorGranted 50 51 52 53; EPlayStart 40;
        ETick 1400 [128; 130; 126]%Z;
        ERecogResult 1 1500 "your balance is five hundred rupees" true
          "u" "t" 9;
        ERecogEnd 1]
       (ctl (playTTS_fetched noFailure 30 40 afterBalanceAnswer)))
  = [].
Proof.
  pose proof (@recognition_suspended_during_playback noFailure 30 40 1
                [EMonitorGranted 50 51 52 53; EPlayStart 40;
                 ETick 1400 [128; 130; 126]%Z;
                 ERecogResult 1 1500 "your balance is five hundred rupees"
                   true "u" "t" 9;
                 ERecogEnd 1]
                afterBalanceAnswer eq_refl (or_introl eq_refl) eq_refl)
    as (_ & _ & _ & _ & H).
  exact H.
Defined.
